(** * PottsKMC: trajectory ingestion and time-weighted estimators

    A shallow embedding of [src/api/experiments.py] (classes
    [PottsExperiment] and [PottsResult], and the writer of batch files)
    and the properties of it that the specification states, followed by
    further properties of the code.

    Conventions of the embedding.
    - A Python call that may raise returns a [result]: [Ok v] or
      [Raise e], with [e] the exception class.
    - [np.double] data are values of a type [F] with the operations of
      the class [Float64].  Two instances are used: IEEE binary64
      ([PrimFloat]), on which concrete runs are evaluated bit for bit,
      and the rationals [Q], on which the algebraic statements are
      proved (arithmetic without rounding, overflow or NaN).
    - [np.int64] data are integers [Z]; products wrap modulo 2^64.
    - Dictionaries ([params], [properties], [PARAM_TRANS]) are [gmap]s
      with string keys; where the order of the entries matters they are
      lists of pairs ([pydict]).
    - Arithmetic on Python's own numbers, which raises where that of
      [np.double] does not, returns an [outcome].
    - Text is a [string] of characters; the character classes of [re]
      and of [str.strip] are those of the ASCII range. *)

From Stdlib Require Import ZArith QArith Qround Lqa PrimFloat Uint63 Ascii String List Lia.
From Stdlib Require DecimalString.
From stdpp Require Import base option list gmap strings.

Local Open Scope Z_scope.

(** ** Exceptions and the error monad *)

Inductive pyexc : Type :=
  | ValueError | KeyError | TypeError | IndexError
  | AttributeError | UnboundLocalError.

Inductive result (A : Type) : Type :=
  | Ok (a : A)
  | Raise (e : pyexc).
Arguments Ok {A} a.
Arguments Raise {A} e.

Global Instance result_ret : MRet result := fun A a => Ok a.
Global Instance result_bind : MBind result := fun A B f m =>
  match m with
  | Ok a => f a
  | Raise e => Raise e
  end.

Definition is_Ok {A} (r : result A) : bool :=
  match r with Ok _ => true | Raise _ => false end.

Definition raises {A} (r : result A) : Prop := exists e, r = Raise e.

(** ** Arithmetic of [np.double] *)

Class Float64 (F : Type) : Type := {
  fzero : F;
  fadd : F -> F -> F;
  fsub : F -> F -> F;
  fmul : F -> F -> F;
  fdiv : F -> F -> F;
  (** [x ** 0.5] *)
  fpow_half : F -> F;
  (** [x == y] *)
  feqb : F -> F -> bool;
  (** conversion of an integer to [np.double] *)
  of_int : Z -> F;
  (** [astype(np.int64)] of an [np.double] *)
  to_int64 : F -> Z;
}.

Definition int64_min : Z := - 2 ^ 63.
Definition int64_max : Z := 2 ^ 63 - 1.

(** Two's-complement wrap-around of [np.int64] arithmetic. *)
Definition wrap64 (z : Z) : Z := (z + 2 ^ 63) mod 2 ^ 64 - 2 ^ 63.

(** Conversion of a real number to [np.int64]: truncation toward zero;
    out of range, the "integer indefinite" value of the conversion
    instruction. *)
Definition trunc_to_int64 (z : Z) : Z :=
  if (int64_min <=? z) && (z <=? int64_max) then z else int64_min.

Definition Qtrunc (q : Q) : Z := Z.quot (Qnum q) (Z.pos (Qden q)).

(** The rationals, with a square root supplied from outside. *)
Definition Q_Float64 (qsqrt : Q -> Q) : Float64 Q := {|
  fzero := 0%Q;
  fadd := Qplus;
  fsub := Qminus;
  fmul := Qmult;
  fdiv := Qdiv;
  fpow_half := qsqrt;
  feqb := Qeq_bool;
  of_int := inject_Z;
  to_int64 := fun q => trunc_to_int64 (Qtrunc q);
|}.

(** IEEE binary64. *)
Definition float_of_Z (z : Z) : float :=
  if z =? int64_min then (PrimFloat.opp (PrimFloat.mul (PrimFloat.of_uint63 (Uint63.of_Z (2 ^ 62))) 2))
  else if z <? 0 then PrimFloat.opp (PrimFloat.of_uint63 (Uint63.of_Z (- z)))
  else PrimFloat.of_uint63 (Uint63.of_Z z).

(** [frshiftexp] biases its exponent by [2 * emax + prec]. *)
Definition float_shift : Z := 2101.

Definition float_to_Z (f : float) : Z :=
  if PrimFloat.is_nan f || PrimFloat.is_infinity f then int64_min
  else
    let a := PrimFloat.abs f in
    let '(m, e) := PrimFloat.frshiftexp a in
    let mant := Uint63.to_Z (PrimFloat.normfr_mantissa m) in
    let ex := Uint63.to_Z e - float_shift - 53 in
    let mag := if ex <? 0 then Z.shiftr mant (- ex) else Z.shiftl mant ex in
    trunc_to_int64 (if PrimFloat.ltb f 0 then - mag else mag).

Global Instance float_Float64 : Float64 float := {|
  fzero := 0%float;
  fadd := PrimFloat.add;
  fsub := PrimFloat.sub;
  fmul := PrimFloat.mul;
  fdiv := PrimFloat.div;
  fpow_half := PrimFloat.sqrt;
  feqb := PrimFloat.eqb;
  of_int := float_of_Z;
  to_int64 := float_to_Z;
|}.

(** ** Arrays

    A rank-1 array is a list; a lattice (rank 2) is a list of rows; a
    rank-3 array keeps the shape of its trailing axes next to its frames,
    as [ndarray.shape] does, so that a reduction over an empty leading
    axis still has a shape. *)

Record ndarray3 (A : Type) : Type := mk_ndarray3 {
  nd_rows : nat;
  nd_cols : nat;
  nd_frames : list (list (list A));
}.
Arguments mk_ndarray3 {A} _ _ _.
Arguments nd_rows {A} _.
Arguments nd_cols {A} _.
Arguments nd_frames {A} _.

Definition lattice_shaped {A} (n m : nat) (lat : list (list A)) : Prop :=
  length lat = n /\ Forall (fun row => length row = m) lat.

Definition wf_ndarray3 {A} (a : ndarray3 A) : Prop :=
  Forall (lattice_shaped (nd_rows a) (nd_cols a)) (nd_frames a).

Definition lat_get {A} (d : A) (lat : list (list A)) (i j : nat) : A :=
  nth j (nth i lat []) d.

Definition tabulate2 {A} (n m : nat) (f : nat -> nat -> A) : list (list A) :=
  map (fun i => map (fun j => f i j) (seq 0 m)) (seq 0 n).

Definition lat_map {A B} (f : A -> B) (lat : list (list A)) : list (list B) :=
  map (map f) lat.

Definition lat_zip {A B C} (f : A -> B -> C)
    (a : list (list A)) (b : list (list B)) : list (list C) :=
  zip_with (zip_with f) a b.

(** [np.roll(l, shift)] along one axis: the element at index [k] moves
    to index [(k + shift) mod n]. *)
Definition roll {A} (l : list A) (shift : Z) : list A :=
  match l with
  | [] => []
  | _ => let r := Z.to_nat ((- shift) mod Z.of_nat (length l)) in
         drop r l ++ take r l
  end.

(** [np.roll(np.roll(lat, -i, axis=0), -j, axis=1)] on one lattice. *)
Definition roll2 {A} (lat : list (list A)) (i j : Z) : list (list A) :=
  map (fun row => roll row (- j)) (roll lat (- i)).

(** Broadcasting of a binary operation along the leading axis: equal
    lengths pair up, a length of one is repeated, anything else is a
    [ValueError] ("operands could not be broadcast together"). *)
Definition broadcast0 {A B C} (f : A -> B -> C)
    (xs : list A) (ys : list B) : result (list C) :=
  if Nat.eqb (length xs) (length ys) then Ok (zip_with f xs ys)
  else match xs, ys with
       | [x], _ => Ok (map (f x) ys)
       | _, [y] => Ok (map (fun x => f x y) xs)
       | _, _ => Raise ValueError
       end.

(** ** The time-weighted estimators (lines 157-177)

    [dt] is [self.trajDt], [total] is [self.totalSampleTime]. Sums are
    accumulated from left to right, as [sum(axis=0)] does along the
    leading axis of an array of rank above 1; numpy adds a contiguous
    rank-1 array of eight entries or more pairwise, which is not
    modelled. The statements in exact arithmetic do not depend on the
    order of a sum, and the concrete ones in binary64 sum at most three
    terms. *)

Section Estimators.
Context {F : Type} `{Float64 F}.

Definition fsum (l : list F) : F := fold_left fadd l fzero.

Definition fsquare (x : F) : F := fmul x x.

(** [calculate_mean] on a quantity of rank 1. *)
Definition calculate_mean (dt : list F) (total : F) (quantity : list F)
    : result F :=
  weighted ← broadcast0 fmul quantity dt;
  Ok (fdiv (fsum weighted) total).

(** [calculate_mean] on a quantity of rank 3 (frames of lattices): the
    dwell time of a frame multiplies every site of it, the sum runs over
    the frames. *)
Definition calculate_mean3 (dt : list F) (total : F)
    (quantity : ndarray3 F) : result (list (list F)) :=
  weighted ← broadcast0 (fun lat d => lat_map (fun x => fmul x d) lat)
               (nd_frames quantity) dt;
  Ok (tabulate2 (nd_rows quantity) (nd_cols quantity)
        (fun i j => fdiv (fsum (map (fun lat => lat_get fzero lat i j) weighted))
                         total)).

Definition calculate_var (dt : list F) (total : F) (quantity : list F)
    : result F :=
  mean ← calculate_mean dt total quantity;
  calculate_mean dt total (map (fun x => fsquare (fsub x mean)) quantity).

(** [calculate_var] on a quantity of rank 3: the mean lattice is
    subtracted from every frame. *)
Definition calculate_var3 (dt : list F) (total : F) (quantity : ndarray3 F)
    : result (list (list F)) :=
  mean ← calculate_mean3 dt total quantity;
  calculate_mean3 dt total
    (mk_ndarray3 (nd_rows quantity) (nd_cols quantity)
       (map (fun lat => lat_zip (fun x m => fsquare (fsub x m)) lat mean)
            (nd_frames quantity))).

Definition calculate_var_of_mean (dt : list F) (total : F)
    (quantity : list F) : result F :=
  mean ← calculate_mean dt total quantity;
  let netQuantity := map (fun x => fsub x mean) quantity in
  weighted ← broadcast0 fmul netQuantity dt;
  Ok (fdiv (fsum (map fsquare weighted)) (fsquare total)).

End Estimators.

(** A quantity of any rank above zero, held as numpy holds it: the
    shape of the trailing axes and, under each index of the leading
    axis, the block of the entries in row-major order. A rank-1
    quantity has the empty trailing shape and blocks of one entry. *)
Record ndarrayN (A : Type) : Type := mk_ndarrayN {
  ndn_shape : list nat;
  ndn_blocks : list (list A);
}.
Arguments mk_ndarrayN {A} _ _.
Arguments ndn_shape {A} _.
Arguments ndn_blocks {A} _.

(** The number of entries of a block of the given shape. *)
Definition shape_size (shape : list nat) : nat := fold_right Nat.mul 1%nat shape.

Section EstimatorsN.
Context {F : Type} `{Float64 F}.

(** [calculate_mean] on a quantity of any rank: [trajDt], reshaped to
    [(-1, 1, ..., 1)], multiplies every entry of the block of its frame;
    the sum runs along the leading axis, entry by entry. *)
Definition calculate_meanN (dt : list F) (total : F) (quantity : ndarrayN F)
    : result (list F) :=
  weighted ← broadcast0 (fun blk d => map (fun x => fmul x d) blk)
               (ndn_blocks quantity) dt;
  Ok (map (fun i => fdiv (fsum (map (fun blk => nth i blk fzero) weighted)) total)
          (seq 0 (shape_size (ndn_shape quantity)))).

(** [calculate_var] on a quantity of any rank: the block of the means
    is subtracted from the block of every frame. *)
Definition calculate_varN (dt : list F) (total : F) (quantity : ndarrayN F)
    : result (list F) :=
  mean ← calculate_meanN dt total quantity;
  calculate_meanN dt total
    (mk_ndarrayN (ndn_shape quantity)
       (map (fun blk => zip_with (fun x m => fsquare (fsub x m)) blk mean)
            (ndn_blocks quantity))).

End EstimatorsN.

(** ** Text

    A file opened in text mode is the list of its lines, each with its
    terminator; [readline] pops one, [read] returns what is left. *)

Definition nl : ascii := "010"%char.
Definition is_nl (c : ascii) : bool := Ascii.eqb c nl.

(** [str.isspace] and the class [\s] of [re], on the ASCII range. *)
Definition is_space (c : ascii) : bool :=
  let n := nat_of_ascii c in
  Nat.eqb n 32 || (Nat.leb 9 n && Nat.leb n 13) || (Nat.leb 28 n && Nat.leb n 31).

(** The class [\w] of [re], on the ASCII range. *)
Definition is_word (c : ascii) : bool :=
  let n := nat_of_ascii c in
  (Nat.leb 48 n && Nat.leb n 57) || (Nat.leb 65 n && Nat.leb n 90)
  || (Nat.leb 97 n && Nat.leb n 122) || Nat.eqb n 95.

Fixpoint lines_aux (cur : list ascii) (s : string) : list string :=
  match s with
  | EmptyString =>
      match cur with
      | [] => []
      | _ => [string_of_list_ascii (rev cur)]
      end
  | String c s' =>
      if is_nl c then string_of_list_ascii (rev (c :: cur)) :: lines_aux [] s'
      else lines_aux (c :: cur) s'
  end.

Definition open_rt (content : string) : list string := lines_aux [] content.

(** [r.readline()]: the empty string at the end of the file. *)
Definition readline (r : list string) : string * list string :=
  match r with
  | [] => (EmptyString, [])
  | l :: r' => (l, r')
  end.

(** [r.read()] *)
Definition read (r : list string) : string := String.concat EmptyString r.

Fixpoint span (p : ascii -> bool) (s : string) : nat :=
  match s with
  | String c s' => if p c then S (span p s') else O
  | EmptyString => O
  end.

Fixpoint str_drop (n : nat) (s : string) : string :=
  match n, s with
  | S n', String _ s' => str_drop n' s'
  | _, _ => s
  end.

Fixpoint str_take (n : nat) (s : string) : string :=
  match n, s with
  | S n', String c s' => String c (str_take n' s')
  | _, _ => EmptyString
  end.

Definition lstrip (s : string) : string := str_drop (span is_space s) s.

Definition str_rev (s : string) : string :=
  string_of_list_ascii (rev (list_ascii_of_string s)).

(** [s.strip()] *)
Definition strip (s : string) : string := str_rev (lstrip (str_rev (lstrip s))).

(** [s.split(sep)] for a one-character separator: never empty. *)
Fixpoint split_aux (sep : ascii) (cur : list ascii) (s : string) : list string :=
  match s with
  | EmptyString => [string_of_list_ascii (rev cur)]
  | String c s' =>
      if Ascii.eqb c sep then string_of_list_ascii (rev cur) :: split_aux sep [] s'
      else split_aux sep (c :: cur) s'
  end.

Definition split (sep : ascii) (s : string) : list string := split_aux sep [] s.

(** [s.split()]: the maximal runs of non-whitespace characters. *)
Fixpoint split_ws_aux (cur : list ascii) (s : string) : list string :=
  let flush := match cur with
               | [] => []
               | _ => [string_of_list_ascii (rev cur)]
               end in
  match s with
  | EmptyString => flush
  | String c s' =>
      if is_space c then flush ++ split_ws_aux [] s'
      else split_ws_aux (c :: cur) s'
  end.

Definition split_ws (s : string) : list string := split_ws_aux [] s.

(** [needle in hay] *)
Fixpoint contains (needle hay : string) : bool :=
  String.prefix needle hay
  || match hay with
     | String _ hay' => contains needle hay'
     | EmptyString => false
     end.

(** ** The regular expressions *)

(** [re.search(r"FullState|OnlyChange", line)]: the leftmost position at
    which an alternative matches, the first alternative tried first;
    the result is the matched text ([.group()]). *)
Fixpoint search_trajType (line : string) : option string :=
  if String.prefix "FullState" line then Some "FullState"%string
  else if String.prefix "OnlyChange" line then Some "OnlyChange"%string
  else match line with
       | String _ line' => search_trajType line'
       | EmptyString => None
       end.

(** One attempt of [^\w+\s*=\s*\S+.*$] at the start of a line: the length
    of the match. Every quantifier is followed by a character outside
    its class, so the greedy choice is the only one: a maximal run of
    word characters, whitespace (line ends included), [=], whitespace,
    and from the first other character to the end of its line. *)
Definition match_param (s : string) : option nat :=
  let n1 := span is_word s in
  if Nat.eqb n1 0 then None
  else
    let s1 := str_drop n1 s in
    let n2 := span is_space s1 in
    match str_drop n2 s1 with
    | String "=" s3 =>
        let n3 := span is_space s3 in
        let s4 := str_drop n3 s3 in
        match s4 with
        | EmptyString => None
        | String _ _ =>
            Some (n1 + n2 + 1 + n3 + span (fun c => negb (is_nl c)) s4)%nat
        end
    | _ => None
    end.

(** [re.findall(r"^\w+\s*=\s*\S+.*$", text, flags=re.MULTILINE)]: the scan
    tries the pattern where a line starts ([bol]), and resumes after the
    end of a match ([skip] counts the characters of it still to pass). *)
Fixpoint findall_aux (bol : bool) (skip : nat) (s : string) : list string :=
  match s with
  | EmptyString => []
  | String c s' =>
      match skip with
      | S k => findall_aux (is_nl c) k s'
      | O =>
          if bol then
            match match_param s with
            | Some n => str_take n s :: findall_aux (is_nl c) (Nat.pred n) s'
            | None => findall_aux (is_nl c) O s'
            end
          else findall_aux (is_nl c) O s'
      end
  end.

Definition findall_params (text : string) : list string :=
  findall_aux true O text.

(** ** Python values, slices and indices *)

(** What a parameter dictionary holds. *)
Inductive pyval (F : Type) : Type :=
  | PInt (z : Z)
  | PFloat (x : F)
  | PStr (s : string).
Arguments PInt {F} z.
Arguments PFloat {F} x.
Arguments PStr {F} s.

(** A float array of rank 0, 1 or 2 (rows of equal length). *)
Inductive ndval (F : Type) : Type :=
  | Scalar (x : F)
  | Vec (v : list F)
  | Mat (rows : list (list F)).
Arguments Scalar {F} x.
Arguments Vec {F} v.
Arguments Mat {F} rows.

(** [slice(start, stop, step)], each part an integer or [None]. *)
Record pyslice : Type := mk_slice {
  sl_start : option Z;
  sl_stop : option Z;
  sl_step : option Z;
}.

(** Index [i] into an axis of length [n]: negative indices count from the
    end, anything outside [-n, n) is an [IndexError]. *)
Definition np_index (n : nat) (i : Z) : result nat :=
  if (0 <=? i) && (i <? Z.of_nat n) then Ok (Z.to_nat i)
  else if (- Z.of_nat n <=? i) && (i <? 0) then Ok (Z.to_nat (Z.of_nat n + i))
  else Raise IndexError.

(** Clamping of a slice bound ([PySlice_AdjustIndices]). *)
Definition adjust_bound (len step : Z) (b : Z) : Z :=
  if b <? 0 then
    let b' := b + len in
    if b' <? 0 then (if step <? 0 then -1 else 0) else b'
  else if len <=? b then (if step <? 0 then len - 1 else len)
  else b.

(** [slice.indices(len)] and the number of selected positions; a zero
    step is a [ValueError]. *)
Definition slice_indices (sl : pyslice) (len : Z) : result (Z * Z * Z) :=
  let step := default 1 (sl_step sl) in
  if step =? 0 then Raise ValueError
  else
    let start := match sl_start sl with
                 | None => if step <? 0 then len - 1 else 0
                 | Some b => adjust_bound len step b
                 end in
    let stop := match sl_stop sl with
                | None => if step <? 0 then -1 else len
                | Some b => adjust_bound len step b
                end in
    Ok (start, stop, step).

Definition slice_length (start stop step : Z) : Z :=
  if step <? 0 then
    (if stop <? start then (start - stop - 1) / (- step) + 1 else 0)
  else
    (if start <? stop then (stop - start - 1) / step + 1 else 0).

Definition slice_positions (sl : pyslice) (len : nat) : result (list nat) :=
  '(start, stop, step) ← slice_indices sl (Z.of_nat len);
  Ok (map (fun k => Z.to_nat (start + Z.of_nat k * step))
          (seq 0 (Z.to_nat (slice_length start stop step)))).

(** [l[sl]] *)
Definition py_slice {A} (sl : pyslice) (l : list A) : result (list A) :=
  pos ← slice_positions sl (length l);
  Ok (omap (M:=list) (fun i : nat => l !! i) pos).

(** [l[-1]] and [l[0]] *)
Definition index_last {A} (l : list A) : result A :=
  match last l with
  | Some x => Ok x
  | None => Raise IndexError
  end.

Definition index_first {A} (l : list A) : result A :=
  match l with
  | x :: _ => Ok x
  | [] => Raise IndexError
  end.

(** ** [PottsExperiment] (lines 23-75) *)

Inductive ptype : Type := Tint | Tfloat | Tstr.

Definition PARAM_TRANS : gmap string ptype :=
  list_to_map
    [("N", Tint); ("M", Tint); ("q", Tint); ("steps", Tint);
     ("recordFreq", Tint); ("randomSeed", Tint); ("J", Tfloat);
     ("B", Tfloat); ("T", Tfloat); ("tau", Tfloat); ("jobName", Tstr)]%string.

(** The marker line [PARAMS], with its terminator. *)
Definition PARAMS_line : string := ("PARAMS" ++ String nl EmptyString)%string.

Section Experiment.
Context {F : Type} `{Float64 F}.

(** The built-ins [int] and [float] applied to a string. *)
Variable py_int : string -> result Z.
Variable py_float : string -> result F.

Record PottsExperiment : Type := mk_experiment {
  exp_params : gmap string (pyval F);
}.

(** [PARAM_TRANS[k](v)] for a type [ty] found in the table. *)
Definition coerce (ty : ptype) (v : string) : result (pyval F) :=
  match ty with
  | Tint => z ← py_int v; Ok (PInt z)
  | Tfloat => x ← py_float v; Ok (PFloat x)
  | Tstr => Ok (PStr v)
  end.

(** The loop of lines 60-65: read lines up to the one that is
    [PARAMS]; the end of the file first is a [ValueError]. *)
Fixpoint seek_params (r : list string) : result (list string) :=
  match r with
  | [] => Raise ValueError
  | line :: r' =>
      if String.eqb line PARAMS_line then Ok r'
      else seek_params r'
  end.

(** The name of a raw parameter: what precedes its first [=]. *)
Definition raw_key (rawParam : string) : string :=
  strip (hd EmptyString (split "=" rawParam)).

(** Lines 70-71, one turn of the loop. *)
Definition set_param (params : gmap string (pyval F)) (rawParam : string)
    : result (gmap string (pyval F)) :=
  match map strip (split "=" rawParam) with
  | [k; v] =>
      match PARAM_TRANS !! k with
      | None => Raise KeyError
      | Some ty => x ← coerce ty v; Ok (<[k := x]> params)
      end
  | _ => Raise ValueError
  end.

Fixpoint set_params (rawParams : list string) (params : gmap string (pyval F))
    : result (gmap string (pyval F)) :=
  match rawParams with
  | [] => Ok params
  | rawParam :: rest =>
      params' ← set_param params rawParam;
      set_params rest params'
  end.

Definition from_log (logFile : string) : result PottsExperiment :=
  r ← seek_params (open_rt logFile);
  let rawParams := findall_params (read r) in
  params ← set_params rawParams ∅;
  if decide (dom params = dom PARAM_TRANS) then Ok (mk_experiment params)
  else Raise ValueError.

End Experiment.
Arguments PottsExperiment : clear implicits.

(** Readings of [int] and [float] on plain decimal literals (an optional
    sign, digits, for [float] an optional fraction), on which they agree
    with the built-ins; everything else is refused here. They serve to
    run the parser on concrete logs. *)
Definition digit_of (c : ascii) : option Z :=
  let n := nat_of_ascii c in
  if Nat.leb 48 n && Nat.leb n 57 then Some (Z.of_nat (n - 48)) else None.

Fixpoint digits_aux (acc : Z) (s : string) : option Z :=
  match s with
  | EmptyString => Some acc
  | String c s' =>
      match digit_of c with
      | Some d => digits_aux (10 * acc + d) s'
      | None => None
      end
  end.

Definition digits (s : string) : option Z :=
  match s with
  | EmptyString => None
  | _ => digits_aux 0 s
  end.

Definition signed {A} (neg : A -> A) (body : string -> option A) (s : string)
    : option A :=
  match s with
  | String "-" s' => neg <$> body s'
  | String "+" s' => body s'
  | _ => body s
  end.

Definition dec_int (s : string) : result Z :=
  match signed Z.opp digits s with
  | Some z => Ok z
  | None => Raise ValueError
  end.

Definition dec_fraction (s : string) : option Q :=
  match split "." s with
  | [a] => inject_Z <$> digits a
  | [a; b] =>
      za ← digits a;
      zb ← digits b;
      Some (inject_Z za + inject_Z zb / inject_Z (10 ^ Z.of_nat (String.length b)))%Q
  | _ => None
  end.

Definition dec_float (s : string) : result Q :=
  match signed Qopp dec_fraction s with
  | Some q => Ok (Qred q)
  | None => Raise ValueError
  end.

Definition ncols {A} (rows : list (list A)) : nat :=
  match rows with
  | r :: _ => length r
  | [] => O
  end.

(** A reading of [np.loadtxt] on tables of plain decimal literals:
    comments start at [#], blank lines are skipped, rows must have equal
    lengths, and axes of length one are squeezed away. *)
Definition loadtxt_rows (content : string) : list (list string) :=
  filter (fun toks => toks <> [])
    (map (fun line => split_ws (hd EmptyString (split "#" line))) (open_rt content)).

Definition squeeze {F} (rows : list (list F)) : ndval F :=
  match rows with
  | [] => Vec []
  | [[x]] => Scalar x
  | [row] => Vec row
  | _ => if Nat.eqb (ncols rows) 1 then Vec (mjoin rows) else Mat rows
  end.

Definition loadtxt_dec (content : string) : result (ndval Q) :=
  rows ← mapM (mapM dec_float) (loadtxt_rows content);
  if forallb (fun row => Nat.eqb (length row) (ncols rows)) rows
  then Ok (squeeze rows)
  else Raise ValueError.

(** The two behaviours of [np.array(map(int, tokens), dtype=np.int64)].
    Under Python 3, [map] returns an iterator, which [np.array] does not
    walk: it takes the object as a scalar, and the conversion of that
    object to an integer raises [TypeError]. Were [map] to return the
    list of converted tokens, the array would hold them. *)
Definition np_array_map_int_py3 (tokens : list string) : result (list Z) :=
  Raise TypeError.

Definition np_array_map_int_list (py_int : string -> result Z)
    (tokens : list string) : result (list Z) :=
  mapM py_int tokens.

(** A text from its lines. *)
Definition unlines (ls : list string) : string :=
  String.concat EmptyString (map (fun l => l ++ String nl EmptyString)%string ls).

(** A rational square root for concrete runs, exact on quotients of
    squares; the statements below hold for any. *)
Definition Qsqrt_z (q : Q) : Q := Z.sqrt (Qnum q) # Pos.sqrt (Qden q).

Definition Qx : Float64 Q := Q_Float64 Qsqrt_z.

(** ** [PottsResult]: the object and its loaders (lines 102-155) *)

(** The argument [cutoff] of the correlation methods: [None], a scalar,
    or a tuple. *)
Inductive cutoff_t : Type :=
  | CNone
  | CScalar (c : Z)
  | CTuple (l : list Z).

(** What a getter returns: a cached pair, or the array of values alone. *)
Inductive pyret (F : Type) : Type :=
  | RTuple (t : ndval F * ndval F)
  | RArray (a : ndval F).
Arguments RTuple {F} t.
Arguments RArray {F} a.

(** [a.reshape(N, M)] of a flat array, with its shape: one of the two
    may be [-1]. *)
Definition reshape2 {A} (N M : Z) (flat : list A) : result (ndarray3 A) :=
  let size := Z.of_nat (length flat) in
  let shaped (n m : Z) :=
    mk_ndarray3 (Z.to_nat n) (Z.to_nat m)
      [reshape (replicate (Z.to_nat n) (Z.to_nat m)) flat] in
  if (0 <=? N) && (0 <=? M) then
    (if N * M =? size then Ok (shaped N M) else Raise ValueError)
  else if (N =? -1) && (0 <? M) && (size mod M =? 0) then Ok (shaped (size / M) M)
  else if (M =? -1) && (0 <? N) && (size mod N =? 0) then Ok (shaped N (size / N))
  else Raise ValueError.

(** [block.reshape(-1, N, M)] of a block of rows: the leading axis is
    inferred, the block being read in row-major order. *)
Definition reshape_frames {A} (N M : Z) (block : list (list A))
    : result (ndarray3 A) :=
  let flat := concat block in
  let size := Z.of_nat (length flat) in
  if (0 <? N) && (0 <? M) && (size mod (N * M) =? 0) then
    let n := Z.to_nat N in
    let m := Z.to_nat M in
    Ok (mk_ndarray3 n m
          (map (fun frame => reshape (replicate n m) frame)
               (reshape (replicate (Z.to_nat (size / (N * M))) (n * m)%nat) flat)))
  else Raise ValueError.

Section Result.
Context {F : Type} `{Float64 F}.

(** [np.loadtxt(trajFile)] on the content of the file. *)
Variable np_loadtxt : string -> result (ndval F).
(** [np.array(map(int, tokens), dtype=np.int64)] *)
Variable np_array_map_int : list string -> result (list Z).

Record PottsResult : Type := mk_result {
  params : gmap string (pyval F);
  kB : F;
  path : string;
  properties : gmap string (ndval F * ndval F);
  trajIdx : list Z;
  traj : ndarray3 Z;
  trajT : list F;
  trajDt : list F;
  trajEnergy : list F;
  totalSampleTime : F;
}.

Definition set_trajectory (self : PottsResult) (idx : list Z)
    (tr : ndarray3 Z) (t dt e : list F) : PottsResult :=
  mk_result (params self) (kB self) (path self) (properties self)
    idx tr t dt e (totalSampleTime self).

Definition set_totalSampleTime (self : PottsResult) (x : F) : PottsResult :=
  mk_result (params self) (kB self) (path self) (properties self)
    (trajIdx self) (traj self) (trajT self) (trajDt self) (trajEnergy self) x.

Definition set_properties (self : PottsResult)
    (p : gmap string (ndval F * ndval F)) : PottsResult :=
  mk_result (params self) (kB self) (path self) p
    (trajIdx self) (traj self) (trajT self) (trajDt self) (trajEnergy self)
    (totalSampleTime self).

(** [self.params[k]] where an integer is expected. *)
Definition param_int (self : PottsResult) (k : string) : result Z :=
  match params self !! k with
  | Some (PInt z) => Ok z
  | Some _ => Raise TypeError
  | None => Raise KeyError
  end.

(** [a[:, j]] *)
Definition column (a : ndval F) (j : Z) : result (list F) :=
  match a with
  | Mat rows =>
      k ← np_index (ncols rows) j;
      Ok (map (fun r => nth k r fzero) rows)
  | _ => Raise IndexError
  end.

(** [a[rs, cs]] for two slices. *)
Definition block (a : ndval F) (rs cs : pyslice) : result (list (list F)) :=
  match a with
  | Mat rows =>
      rows' ← py_slice rs rows;
      mapM (py_slice cs) rows'
  | _ => Raise IndexError
  end.

Definition all_ : pyslice := mk_slice None None None.

(** [len(a)] *)
Definition np_len (a : ndval F) : result nat :=
  match a with
  | Scalar _ => Raise TypeError
  | Vec v => Ok (length v)
  | Mat rows => Ok (length rows)
  end.

(** The property [totalTime] (lines 125-127). *)
Definition totalTime (self : PottsResult) : result F :=
  tl ← index_last (trajT self);
  dl ← index_last (trajDt self);
  t0 ← index_first (trajT self);
  Ok (fsub (fadd tl dl) t0).

Definition _load_fullstate_traj (self : PottsResult) (trajFile : string)
    : result PottsResult :=
  rawTraj ← np_loadtxt trajFile;
  N ← param_int self "N";
  M ← param_int self "M";
  idx ← column rawTraj 0;
  states ← block rawTraj all_ (mk_slice (Some 1) (Some (N * M + 1)) None);
  tr ← reshape_frames N M (map (map to_int64) states);
  t ← column rawTraj (N * M + 1);
  dt ← column rawTraj (N * M + 2);
  e ← column rawTraj (N * M + 3);
  Ok (set_trajectory self (map to_int64 idx) tr t dt e).

(** [traj[step + 1, i, j] = nextSpin] on one frame. *)
Definition set_site (frame : list (list Z)) (rows cols : nat)
    (i j nextSpin : Z) : result (list (list Z)) :=
  ii ← np_index rows i;
  jj ← np_index cols j;
  Ok (<[ii := <[jj := nextSpin]> (nth ii frame [])]> frame).

(** The loop of lines 144-146. *)
Fixpoint replay (step : nat) (suggests : list (list Z)) (rows cols : nat)
    (frames : list (list (list Z))) : result (list (list (list Z))) :=
  match suggests with
  | [] => Ok frames
  | suggest :: rest =>
      match suggest with
      | [i; j; nextSpin] =>
          match frames !! step, frames !! S step with
          | Some prev, Some _ =>
              frame ← set_site prev rows cols i j nextSpin;
              replay (S step) rest rows cols (<[S step := frame]> frames)
          | _, _ => Raise IndexError
          end
      | _ => Raise ValueError
      end
  end.

Definition _load_onlychange_traj (self : PottsResult) (trajFile : string)
    : result PottsResult :=
  N ← param_int self "N";
  M ← param_int self "M";
  let '(_, r) := readline (open_rt trajFile) in
  let '(line2, _) := readline r in
  match split "=" (strip line2) with
  | [k; v] =>
      if negb (contains "Initial State" k) then Raise KeyError
      else
        flat ← np_array_map_int (split_ws (strip v));
        initialState ← reshape2 N M flat;
        rawSuggests ← np_loadtxt trajFile;
        len ← np_len rawSuggests;
        let idx := map Z.of_nat (seq 0 len) in
        let rows := nd_rows initialState in
        let cols := nd_cols initialState in
        let frames := mjoin (replicate len (nd_frames initialState)) in
        suggests ← block rawSuggests (mk_slice None (Some (-1)) None)
                     (mk_slice None (Some 3) None);
        t ← column rawSuggests 3;
        dt ← column rawSuggests 4;
        e ← column rawSuggests 5;
        frames' ← replay 0 (map (map to_int64) suggests) rows cols frames;
        Ok (set_trajectory self idx (mk_ndarray3 rows cols frames') t dt e)
  | _ => Raise ValueError
  end.

Definition load_traj (self : PottsResult) (trajFile : string)
    : result PottsResult :=
  let '(line1, _) := readline (open_rt trajFile) in
  match search_trajType line1 with
  | None => Raise KeyError
  | Some trajType =>
      if String.eqb trajType "FullState" then
        self' ← _load_fullstate_traj self trajFile;
        Ok (set_totalSampleTime self' (fsum (trajDt self')))
      else
        self' ← _load_onlychange_traj self trajFile;
        total ← totalTime self';
        Ok (set_totalSampleTime self' total)
  end.

(** [PottsResult(jobName, path)], given the contents of the two files
    [jobName.log] and [jobName.traj] under [path]. Before [load_traj]
    the trajectory attributes do not exist; they stand empty here. *)
Definition PottsResult_init (py_int : string -> result Z)
    (py_float : string -> result F) (logFile trajFile : string)
    (path_ : string) : result PottsResult :=
  experiment ← from_log py_int py_float logFile;
  load_traj
    (mk_result (exp_params experiment) (of_int 1) path_ ∅
       [] (mk_ndarray3 O O []) [] [] [] fzero)
    trajFile.

End Result.
Arguments PottsResult : clear implicits.

(** ** Observables and their cache (lines 218-306) *)

Section Observables.
Context {F : Type} `{Float64 F}.

Definition as_double (a : ndarray3 Z) : ndarray3 F :=
  mk_ndarray3 (nd_rows a) (nd_cols a) (map (lat_map of_int) (nd_frames a)).

(** [lat.mean()] of one frame of an array with trailing shape
    [(rows, cols)]. *)
Definition lat_mean (rows cols : nat) (lat : list (list F)) : F :=
  fdiv (fsum (concat lat)) (of_int (Z.of_nat (rows * cols))).

(** Line 263 on one frame. *)
Definition netCorr_frame (aveSigma aveSigmaShifted : list (list F))
    (i j : Z) (frame : list (list Z)) : list (list F) :=
  lat_zip fsub
    (lat_map of_int (lat_zip (fun a b => wrap64 (a * b)) (roll2 frame i j) frame))
    (lat_zip fmul aveSigma aveSigmaShifted).

Definition _calculate_spatial_correlation (self : PottsResult F) (i j : Z)
    : result (F * F) :=
  N ← param_int self "N";
  M ← param_int self "M";
  aveSigma ← calculate_mean3 (trajDt self) (totalSampleTime self)
               (as_double (traj self));
  let aveSigmaShifted := roll2 aveSigma i j in
  let corrMean :=
    map (fun frame =>
           lat_mean (nd_rows (traj self)) (nd_cols (traj self))
             (netCorr_frame aveSigma aveSigmaShifted i j frame))
        (nd_frames (traj self)) in
  corr ← calculate_mean (trajDt self) (totalSampleTime self) corrMean;
  v ← calculate_var_of_mean (trajDt self) (totalSampleTime self) corrMean;
  Ok (corr, fpow_half (fdiv v (of_int (N * M)))).

(** Lines 226-231, shared by the method and its getter. *)
Definition correlation_bounds (self : PottsResult F) (cutoff : cutoff_t)
    : result (Z * Z) :=
  match cutoff with
  | CNone =>
      N ← param_int self "N";
      M ← param_int self "M";
      Ok (N / 2, M / 2)
  | CScalar c => Ok (c, c)
  | CTuple [a; b] => Ok (a, b)
  | CTuple _ => Raise ValueError
  end.

(** [range(n)] *)
Definition range (n : Z) : list Z := map Z.of_nat (seq 0 (Z.to_nat n)).

(** [np.zeros(shape)] refuses a negative dimension. *)
Definition np_zeros_check (dims : list Z) : result unit :=
  if forallb (fun d => 0 <=? d) dims then Ok tt else Raise ValueError.

Definition recalculate_spatial_correlation (self : PottsResult F)
    (cutoff : cutoff_t) : result (pyret F * PottsResult F) :=
  '(Nmax, Mmax) ← correlation_bounds self cutoff;
  _ ← np_zeros_check [Nmax; Mmax];
  entries ← mapM (fun i => mapM (fun j => _calculate_spatial_correlation self i j)
                             (range Mmax))
              (range Nmax);
  let correlations := Mat (lat_map fst entries) in
  let correlations_std := Mat (lat_map snd entries) in
  Ok (RArray correlations,
      set_properties self
        (<["spatialCorrelation"%string := (correlations, correlations_std)]>
           (properties self))).

(** [t.shape] on a tuple: tuples have no such attribute. *)
Definition tuple_shape (t : ndval F * ndval F) : result (list Z) :=
  Raise AttributeError.

(** [len(t)] on a pair. *)
Definition tuple_len (t : ndval F * ndval F) : Z := 2.

Definition get_spatial_correlation (self : PottsResult F) (cutoff : cutoff_t)
    : result (pyret F * PottsResult F) :=
  '(Nmax, Mmax) ← correlation_bounds self cutoff;
  match properties self !! "spatialCorrelation"%string with
  | Some cached =>
      shape ← tuple_shape cached;
      if decide ([Nmax; Mmax] = shape) then Ok (RTuple cached, self)
      else recalculate_spatial_correlation self cutoff
  | None => recalculate_spatial_correlation self cutoff
  end.

(** Lines 278-279 and 302-303: the local [Nmax] is bound only when no
    cutoff is given. *)
Definition lambda_bound (self : PottsResult F) (cutoff : option Z)
    : result (option Z) :=
  match cutoff with
  | None =>
      N ← param_int self "N";
      M ← param_int self "M";
      Ok (Some (Z.min (N / 2) (M / 2)))
  | Some _ => Ok None
  end.

(** Reading a local variable. *)
Definition read_local {A} (x : option A) : result A :=
  match x with
  | Some a => Ok a
  | None => Raise UnboundLocalError
  end.

Definition recalculate_lambda (self : PottsResult F) (cutoff : option Z)
    : result (pyret F * PottsResult F) :=
  Nmax_local ← lambda_bound self cutoff;
  Nmax ← read_local Nmax_local;
  _ ← np_zeros_check [Nmax];
  V ← mapM (fun i => _calculate_spatial_correlation self i 0) (range Nmax);
  Hc ← mapM (fun j => _calculate_spatial_correlation self 0 j) (range Nmax);
  let two := of_int 2 in
  let Lambda :=
    (Vec (zip_with (fun v h => fdiv (fadd v.1 h.1) two) V Hc),
     Vec (zip_with (fun v h =>
                      fpow_half (fdiv (fadd (fsquare v.2) (fsquare h.2)) two))
                   V Hc)) in
  Ok (RTuple Lambda,
      set_properties self (<["Lambda"%string := Lambda]> (properties self))).

Definition get_lambda (self : PottsResult F) (cutoff : option Z)
    : result (pyret F * PottsResult F) :=
  Nmax_local ← lambda_bound self cutoff;
  match properties self !! "Lambda"%string with
  | Some cached =>
      Nmax ← read_local Nmax_local;
      if Nmax =? tuple_len cached then Ok (RTuple cached, self)
      else recalculate_lambda self cutoff
  | None => recalculate_lambda self cutoff
  end.

(** ** Slicing (lines 331-340)

    Objects live in a store; [deepcopy] allocates a fresh object, and
    every assignment of the method goes to it. *)

Definition update_obj (h : gmap positive (PottsResult F)) (l : positive)
    (f : PottsResult F -> result (PottsResult F))
    : result (gmap positive (PottsResult F)) :=
  match h !! l with
  | Some o => o' ← f o; Ok (<[l := o']> h)
  | None => Raise AttributeError
  end.

(** [self.params["recordFreq"] == 1] *)
Definition recordFreq_is_1 (self : PottsResult F) : result bool :=
  match params self !! "recordFreq"%string with
  | Some (PInt z) => Ok (z =? 1)
  | Some (PFloat x) => Ok (feqb x (of_int 1))
  | Some (PStr _) => Ok false
  | None => Raise KeyError
  end.

Definition slice_frames (sl : pyslice) (o : PottsResult F) : result (PottsResult F) :=
  idx ← py_slice sl (trajIdx o);
  frames ← py_slice sl (nd_frames (traj o));
  t ← py_slice sl (trajT o);
  dt ← py_slice sl (trajDt o);
  e ← py_slice sl (trajEnergy o);
  Ok (set_trajectory o idx
        (mk_ndarray3 (nd_rows (traj o)) (nd_cols (traj o)) frames) t dt e).

Definition retotal (o : PottsResult F) : result (PottsResult F) :=
  b ← recordFreq_is_1 o;
  total ← (if b : bool then totalTime o else Ok (fsum (trajDt o)));
  Ok (set_totalSampleTime o total).

Definition getitem (h : gmap positive (PottsResult F)) (self : positive)
    (slice_ : pyslice) : result (positive * gmap positive (PottsResult F)) :=
  match h !! self with
  | None => Raise AttributeError
  | Some o =>
      let newItem := fresh (dom h) in
      let h0 := <[newItem := o]> h in
      h1 ← update_obj h0 newItem (slice_frames slice_);
      h2 ← update_obj h1 newItem (fun o => Ok (set_properties o ∅));
      h3 ← update_obj h2 newItem retotal;
      Ok (newItem, h3)
  end.

End Observables.

(** ** Scalar observables (lines 179-216) *)

Section ScalarObservables.
Context {F : Type} `{Float64 F}.

Definition recalculate_average_energy (self : PottsResult F)
    : result (pyret F * PottsResult F) :=
  aveE ← calculate_mean (trajDt self) (totalSampleTime self) (trajEnergy self);
  v ← calculate_var_of_mean (trajDt self) (totalSampleTime self) (trajEnergy self);
  let aveEnergy := (Scalar aveE, Scalar (fpow_half v)) in
  Ok (RTuple aveEnergy,
      set_properties self (<["aveEnergy"%string := aveEnergy]> (properties self))).

Definition get_average_energy (self : PottsResult F)
    : result (pyret F * PottsResult F) :=
  match properties self !! "aveEnergy"%string with
  | Some cached => Ok (RTuple cached, self)
  | None => recalculate_average_energy self
  end.

(** [self.traj.mean(axis=(1,2))]: the spatial mean of every frame, the
    spins converted to [np.double]. *)
Definition frame_means (a : ndarray3 Z) : list F :=
  map (fun frame => lat_mean (nd_rows a) (nd_cols a) (lat_map of_int frame))
      (nd_frames a).

Definition recalculate_magnetization (self : PottsResult F)
    : result (pyret F * PottsResult F) :=
  N ← param_int self "N";
  M ← param_int self "M";
  let mean1M := frame_means (traj self) in
  meanM ← calculate_mean (trajDt self) (totalSampleTime self) mean1M;
  v ← calculate_var_of_mean (trajDt self) (totalSampleTime self) mean1M;
  let magnetization := (Scalar meanM, Scalar (fpow_half (fdiv v (of_int (N * M))))) in
  Ok (RTuple magnetization,
      set_properties self
        (<["magnetization"%string := magnetization]> (properties self))).

Definition get_magnetication (self : PottsResult F)
    : result (pyret F * PottsResult F) :=
  match properties self !! "magnetization"%string with
  | Some cached => Ok (RTuple cached, self)
  | None => recalculate_magnetization self
  end.

End ScalarObservables.

(** ** Arithmetic on Python numbers

    The operators of Python's own [int] and [float], unlike those of
    [np.double], raise: a division by zero is a [ZeroDivisionError], a
    result or a conversion out of the range of a float an
    [OverflowError]. Code that uses them has these two exceptions beside
    the ones above. *)

Inductive pyerr : Type :=
  | Exc (e : pyexc)
  | ZeroDivisionError
  | OverflowError.

Inductive outcome (A : Type) : Type :=
  | Done (a : A)
  | Fail (e : pyerr).
Arguments Done {A} a.
Arguments Fail {A} e.

Global Instance outcome_ret : MRet outcome := fun A a => Done a.
Global Instance outcome_bind : MBind outcome := fun A B f m =>
  match m with
  | Done a => f a
  | Fail e => Fail e
  end.

(** A computation that raises none of the two. *)
Definition lift {A} (r : result A) : outcome A :=
  match r with
  | Ok a => Done a
  | Raise e => Fail (Exc e)
  end.

(** ** Heat capacity and the whole analysis (lines 190-203, 321-326) *)

Section HeatCapacity.
Context {F : Type} `{Float64 F}.

(** [x ** 2] on a Python float, an [OverflowError] when the square is out
    of range. *)
Variable py_pow2 : F -> outcome F.
(** The conversion of a Python integer to a float, which the product of
    an integer and a float starts with: an [OverflowError] when the
    integer is too large. *)
Variable float_of_int : Z -> outcome F.

(** [x / y] on Python floats. *)
Definition py_truediv (x y : F) : outcome F :=
  if feqb y fzero then Fail ZeroDivisionError else Done (fdiv x y).

(** [self.params[k]] where a float is expected: [from_log] stores one
    under [J], [B], [T] and [tau]. *)
Definition param_float (self : PottsResult F) (k : string) : result F :=
  match params self !! k with
  | Some (PFloat x) => Ok x
  | Some _ => Raise TypeError
  | None => Raise KeyError
  end.

Definition recalculate_heat_capacity (self : PottsResult F)
    : outcome (pyret F * PottsResult F) :=
  N ← lift (param_int self "N");
  M ← lift (param_int self "M");
  meanE ← lift (calculate_mean (trajDt self) (totalSampleTime self) (trajEnergy self));
  let netE2 := map (fun e => fsquare (fsub e meanE)) (trajEnergy self) in
  varH ← lift (calculate_mean (trajDt self) (totalSampleTime self) netE2);
  v ← lift (calculate_var_of_mean (trajDt self) (totalSampleTime self) netE2);
  let varH_std := fpow_half v in
  T ← lift (param_float self "T");
  T2 ← py_pow2 T;
  NM ← float_of_int (N * M);
  factor ← py_truediv (kB self) (fmul NM T2);
  let heatCapacity := (Scalar (fmul varH factor), Scalar (fmul varH_std factor)) in
  Done (RTuple heatCapacity,
        set_properties self
          (<["heatCapacity"%string := heatCapacity]> (properties self))).

Definition get_heat_capacity (self : PottsResult F)
    : outcome (pyret F * PottsResult F) :=
  match properties self !! "heatCapacity"%string with
  | Some cached => Done (RTuple cached, self)
  | None => recalculate_heat_capacity self
  end.

(** [run_all_analysis]: the five computations in turn, each on the
    object as the one before left it; what they return is dropped. *)
Definition run_all_analysis (self : PottsResult F) : outcome (PottsResult F) :=
  r1 ← lift (recalculate_average_energy self);
  r2 ← recalculate_heat_capacity r1.2;
  r3 ← lift (recalculate_magnetization r2.2);
  r4 ← lift (recalculate_spatial_correlation r3.2 CNone);
  r5 ← lift (recalculate_lambda r4.2 None);
  Done r5.2.

End HeatCapacity.

(** ** Parameter dictionaries and commands (lines 9-21, 37-51, 77-100) *)

(** A dictionary with its insertion order: assigning to a key that is
    present keeps its place, a new key goes to the end. *)
Definition pydict (V : Type) : Type := list (string * V).

Fixpoint dict_set {V} (d : pydict V) (k : string) (v : V) : pydict V :=
  match d with
  | [] => [(k, v)]
  | (k', v') :: d' =>
      if String.eqb k' k then (k', v) :: d' else (k', v') :: dict_set d' k v
  end.

(** [d.update(other)] *)
Definition dict_update {V} (d other : pydict V) : pydict V :=
  fold_left (fun acc kv => dict_set acc kv.1 kv.2) other d.

(** [k in d] *)
Definition dict_in {V} (k : string) (d : pydict V) : bool :=
  existsb (String.eqb k) (map fst d).

(** [m.update(other)] on a dictionary of which only the entries matter. *)
Definition map_update {V} (m : gmap string V) (other : pydict V) : gmap string V :=
  fold_left (fun acc kv => <[kv.1 := kv.2]> acc) other m.

(** [str(z)] on an integer. *)
Definition str_of_Z (z : Z) : string :=
  DecimalString.NilZero.string_of_int (Z.to_int z).

(** [s.format(x)] for a format [s] with one replacement field [{}] and
    nothing else in braces, [x] already turned into text. *)
Fixpoint format1 (s : string) (x : string) : string :=
  match s with
  | String "{" (String "}" rest) => (x ++ rest)%string
  | String c rest => String c (format1 rest x)
  | EmptyString => EmptyString
  end.

Definition PARAM_FORMATS : list (string * string) :=
  [("N", "-N {}"); ("M", "-M {}"); ("q", "-q {}"); ("steps", "--steps {}");
   ("recordFreq", "--record-freq {}"); ("randomSeed", "--random-seed {}");
   ("J", "-J {}"); ("B", "-B {}"); ("T", "-T {}"); ("tau", "--tau {}");
   ("jobName", "--job-name {}")]%string.

Section Commands.
Context {F : Type} `{Float64 F}.

(** The built-ins on values: [int] and [float] of a string, [int] of a
    float (truncation; no integer for a NaN or an infinity), [float] of
    an integer (none beyond the range of a float), [str] of a float. *)
Variable py_int : string -> result Z.
Variable py_float : string -> result F.
Variable int_of_float : F -> outcome Z.
Variable float_of_int : Z -> outcome F.
Variable str_of_float : F -> string.

(** [POTTSKMC_PATH], read from the environment when the module loads. *)
Variable POTTSKMC_PATH : string.

Definition DEFAUT_PARAMS : pydict (pyval F) :=
  [("N", PInt 1); ("M", PInt 1); ("q", PInt 2); ("steps", PInt 2);
   ("recordFreq", PInt 1); ("randomSeed", PInt 1234);
   ("J", PFloat (of_int 1)); ("B", PFloat (of_int 0)); ("T", PFloat (of_int 1));
   ("tau", PFloat (of_int 10)); ("jobName", PStr "potts")]%string.

Definition builtin_int (v : pyval F) : outcome Z :=
  match v with
  | PInt z => Done z
  | PFloat x => int_of_float x
  | PStr s => lift (py_int s)
  end.

Definition builtin_float (v : pyval F) : outcome F :=
  match v with
  | PInt z => float_of_int z
  | PFloat x => Done x
  | PStr s => lift (py_float s)
  end.

Definition builtin_str (v : pyval F) : string :=
  match v with
  | PInt z => str_of_Z z
  | PFloat x => str_of_float x
  | PStr s => s
  end.

(** [PARAM_TRANS[k](v)] for a type [ty] found in the table, on any
    value. *)
Definition convert (ty : ptype) (v : pyval F) : outcome (pyval F) :=
  match ty with
  | Tint => z ← builtin_int v; Done (PInt z)
  | Tfloat => x ← builtin_float v; Done (PFloat x)
  | Tstr => Done (PStr (builtin_str v))
  end.

(** The loop of lines 82-84. *)
Fixpoint from_dict_loop (items : pydict (pyval F))
    (params : gmap string (pyval F)) : outcome (gmap string (pyval F)) :=
  match items with
  | [] => Done params
  | (k, v) :: rest =>
      if dict_in k DEFAUT_PARAMS then
        match PARAM_TRANS !! k with
        | None => Fail (Exc KeyError)
        | Some ty =>
            x ← convert ty v;
            from_dict_loop rest (<[k := x]> params)
        end
      else from_dict_loop rest params
  end.

Definition from_dict (params : pydict (pyval F)) : outcome (PottsExperiment F) :=
  let params_ := dict_update DEFAUT_PARAMS params in
  p ← from_dict_loop params_ ∅;
  Done (mk_experiment p).

(** [[s.format(params[k]) for k, s in PARAM_FORMATS.items()]] *)
Definition format_args (params_ : gmap string (pyval F)) : result (list string) :=
  mapM (fun ks : string * string =>
          match params_ !! ks.1 with
          | Some v => Ok (format1 ks.2 (builtin_str v))
          | None => Raise KeyError
          end)
       PARAM_FORMATS.

Definition dict_to_run_args (self : PottsExperiment F)
    (params_ : gmap string (pyval F)) : result (list string) :=
  args ← format_args params_;
  Ok ([POTTSKMC_PATH] ++ args ++ ["--quiet"%string]).

Definition get_command (self : PottsExperiment F)
    (params_arg : option (pydict (pyval F))) : result string :=
  let params_ := match params_arg with
                 | None => exp_params self
                 | Some other => map_update (exp_params self) other
                 end in
  args ← format_args params_;
  Ok (String.concat " " ([POTTSKMC_PATH] ++ args ++ ["--quiet"%string])).

(** ** Batch files (lines 342-353)

    The file is the sequence of the texts written to it. *)

Definition job_line (command : string) : string :=
  (command ++ " &" ++ String nl EmptyString)%string.

Definition wait_line : string := ("wait" ++ String nl EmptyString)%string.

Definition bash_line : string :=
  ("#!/usr/bin/env bash" ++ String nl EmptyString)%string.

(** The loop of lines 348-351, [i] the number of the first job. *)
Fixpoint write_jobs (expr : PottsExperiment F) (batchSize : Z) (i : Z)
    (paramList : list (pydict (pyval F))) : result (list string) :=
  match paramList with
  | [] => Ok []
  | params_ :: rest =>
      command ← get_command expr (Some params_);
      let written :=
        job_line command
        :: (if (0 <? batchSize) && (i mod batchSize =? 0) then [wait_line] else []) in
      later ← write_jobs expr batchSize (i + 1) rest;
      Ok (written ++ later)
  end.

Definition writeBatchFile (expr : PottsExperiment F)
    (paramList : list (pydict (pyval F))) (batchSize : Z) : result (list string) :=
  jobs ← write_jobs expr batchSize 1 paramList;
  Ok ([bash_line] ++ jobs ++ [wait_line]).

End Commands.

(** * Notions of the specification

    What the statements below speak of: sums, malformed inputs, aligned
    frames, the rows of the FullState table. *)

(** What a method returns on the object that a constructor returned. *)
Definition on_result {F A} (r : result (PottsResult F))
    (f : PottsResult F -> result A) : result A := r ≫= f.

(** The object as [__init__] hands it to [load_traj]. *)
Definition unloaded {F} `{Float64 F} (p : gmap string (pyval F)) : PottsResult F :=
  mk_result p (of_int 1) "./" ∅ [] (mk_ndarray3 O O []) [] [] [] fzero.

(** The sum of a list of rationals, from the right. *)
Definition Qsum (l : list Q) : Q := fold_right Qplus 0%Q l.

(** The log ends before a line that is [PARAMS]. *)
Definition no_marker (logFile : string) : bool :=
  negb (existsb (String.eqb PARAMS_line) (open_rt logFile)).

(** The names read after the marker. *)
Definition parsed_names (logFile : string) : gset string :=
  list_to_set
    (map raw_key
       (findall_params
          (read (match seek_params (open_rt logFile) with
                 | Ok r => r
                 | Raise _ => []
                 end)))).

(** They are not exactly the eleven names of [PARAM_TRANS]. *)
Definition wrong_names (logFile : string) : bool :=
  bool_decide (parsed_names logFile <> dom PARAM_TRANS).

(** The first two lines of a file, as [readline] returns them. *)
Definition first_line (file : string) : string := (readline (open_rt file)).1.
Definition second_line (file : string) : string :=
  (readline (readline (open_rt file)).2).1.

(** The first line names neither encoding. *)
Definition no_type_mark (trajFile : string) : bool :=
  match search_trajType (first_line trajFile) with
  | None => true
  | Some _ => false
  end.

(** The second line is not [key = value] with [Initial State] in the key. *)
Definition no_initial_state (trajFile : string) : bool :=
  match search_trajType (first_line trajFile) with
  | Some "OnlyChange"%string =>
      match split "=" (strip (second_line trajFile)) with
      | [k; _] => negb (contains "Initial State" k)
      | _ => true
      end
  | _ => false
  end.

(** The inputs that the specification calls malformed: a log without
    marker or with other names than the eleven, a trajectory without
    type mark, an OnlyChange trajectory without initial state. *)
Definition malformed (logFile trajFile : string) : bool :=
  no_marker logFile || wrong_names logFile
  || no_type_mark trajFile || no_initial_state trajFile.

(** The five arrays of a loaded trajectory have one entry per frame. *)
Definition frames_aligned {F} (o : PottsResult F) : Prop :=
  length (trajIdx o) = length (trajT o) /\
  length (nd_frames (traj o)) = length (trajT o) /\
  length (trajDt o) = length (trajT o) /\
  length (trajEnergy o) = length (trajT o).

(** The slice selects at least one of [n] frames. *)
Definition selects (sl : pyslice) (n : nat) : bool :=
  match slice_positions sl n with
  | Ok (_ :: _) => true
  | _ => false
  end.

(** The sum of [g i j] over a table of [n] rows and [m] columns. *)
Definition Qsum2 (n m : nat) (g : nat -> nat -> Q) : Q :=
  Qsum (map (fun i => Qsum (map (g i) (seq 0 m))) (seq 0 n)).

(** The spin of site [(i, j)] along the frames, as [calculate_var] takes
    it. *)
Definition site_series {F} `{Float64 F} (a : ndarray3 Z) (i j : nat) : list F :=
  map (fun frame => of_int (lat_get 0 frame i j)) (nd_frames a).

(** No product of two spins leaves the range of [np.int64]. *)
Definition spins_bounded (a : ndarray3 Z) : Prop :=
  Forall (Forall (Forall (fun s => Z.abs s <= 2 ^ 31))) (nd_frames a).

(** The quantity the specification compares C(0,0) with: the spatial
    variance within one frame, that is the spatial mean of the squared
    lattice minus the square of the spatial mean. *)
Definition frame_spatial_variance {F} `{Float64 F} (rows cols : nat)
    (frame : list (list Z)) : F :=
  fsub (lat_mean rows cols (lat_map (fun s => of_int (wrap64 (s * s))) frame))
       (fsquare (lat_mean rows cols (lat_map of_int frame))).

(** The first entry of a pair of vectors, in lowest terms. *)
Definition first_value (r : result (pyret Q * PottsResult Q)) : result Q :=
  match r with
  | Ok (RTuple (Vec (x :: _), _), _) => Ok (Qred x)
  | Ok _ => Raise IndexError
  | Raise e => Raise e
  end.

(** The range of [np.int64]. *)
Definition in_int64 (z : Z) : Prop := int64_min <= z <= int64_max.

(** A recorded frame: its ordinal, its lattice, and its time, dwell
    time and energy. *)
Record frame_record : Type := mk_frame {
  fr_index : Z;
  fr_state : list (list Z);
  fr_clock : Q * Q * Q;
}.

(** Three columns of a row. *)
Definition triple_fields (t : Q * Q * Q) : list Q := [t.1.1; t.1.2; t.2].

(** The row of a frame in the FullState table. *)
Definition fullstate_row (d : frame_record) : list Q :=
  inject_Z (fr_index d) :: map inject_Z (concat (fr_state d))
  ++ triple_fields (fr_clock d).

(** The trajectory that the frames [data] describe. *)
Definition dense_trajectory (rows cols : nat) (data : list frame_record)
    (o : PottsResult Q) (idx : list Z) : PottsResult Q :=
  set_trajectory o idx (mk_ndarray3 rows cols (map fr_state data))
    (map (fun d => (fr_clock d).1.1) data)
    (map (fun d => (fr_clock d).1.2) data)
    (map (fun d => (fr_clock d).2) data).

(** Every spin of the trajectory lies between [lo] and [hi]. *)
Definition spins_within (lo hi : Z) (a : ndarray3 Z) : Prop :=
  Forall (Forall (Forall (fun s => lo <= s /\ s <= hi))) (nd_frames a).

(** The index that a roll by [-s] along an axis of length [n] brings to
    index [a]. *)
Definition shifted (n : nat) (s : Z) (a : nat) : nat :=
  Z.to_nat ((Z.of_nat a + s) mod Z.of_nat n).

(** The texts that the loop of [writeBatchFile] writes for commands
    already formed, [i] the number of the first one. *)
Fixpoint job_script (batchSize i : Z) (commands : list string) : list string :=
  match commands with
  | [] => []
  | command :: rest =>
      job_line command
      :: (if (0 <? batchSize) && (i mod batchSize =? 0) then [wait_line] else [])
      ++ job_script batchSize (i + 1) rest
  end.

(** The number of occurrences of a character in a text. *)
Fixpoint count_char (c : ascii) (s : string) : nat :=
  match s with
  | EmptyString => O
  | String c' s' => ((if Ascii.eqb c' c then 1 else 0) + count_char c s')%nat
  end.

(** The value of a raw parameter: what follows its first [=], up to the
    next one. *)
Definition raw_value (rawParam : string) : string :=
  strip (nth 1 (split "=" rawParam) EmptyString).

(** The lines [identifier = value] as a dictionary of texts. *)
Definition raw_dict {F} (rawParams : list string) : pydict (pyval F) :=
  map (fun raw => (raw_key raw, PStr (raw_value raw))) rawParams.

(** Every character of a text is in a class. *)
Fixpoint all_chars (p : ascii -> bool) (s : string) : bool :=
  match s with
  | EmptyString => true
  | String c s' => p c && all_chars p s'
  end.

(** A field as a log holds it on a line. *)
Definition field_line (kv : string * string) : string :=
  (kv.1 ++ " = " ++ kv.2)%string.

(** A name made of word characters, and a value on one line, without
    [=], that does not start with a blank. *)
Definition field_ok (kv : string * string) : bool :=
  negb (String.eqb kv.1 EmptyString) && all_chars is_word kv.1
  && match kv.2 with
     | EmptyString => false
     | String c _ => negb (is_space c)
     end
  && all_chars (fun c => negb (is_nl c) && negb (Ascii.eqb c "=")) kv.2.

(** A field whose name is registered and whose value, stripped, is
    accepted by the conversion registered for it. *)
Definition field_converts {F : Type} (py_int : string -> result Z)
    (py_float : string -> result F) (kv : string * string) : bool :=
  match PARAM_TRANS !! kv.1 with
  | Some ty =>
      match coerce py_int py_float ty (strip kv.2) with
      | Ok _ => true
      | Raise _ => false
      end
  | None => false
  end.

(** * Concrete artifacts

    Logs, trajectories and results on which the properties are run. *)

(** The scenario of the specification in binary64: a 2x2 lattice and
    three frames as a FullState artifact. [scenario_rows] is what
    [np.loadtxt] returns for it, each row being
    [frameIndex, four sites, time, dwellTime, energy]. *)
Definition scenario_params : gmap string (pyval float) :=
  list_to_map
    [("N", PInt 2); ("M", PInt 2); ("q", PInt 2); ("steps", PInt 3);
     ("recordFreq", PInt 1); ("randomSeed", PInt 1234); ("J", PFloat 1);
     ("B", PFloat 0); ("T", PFloat 1); ("tau", PFloat 10);
     ("jobName", PStr "potts")]%string%float.

Definition scenario_rows : ndval float :=
  Mat [[0; 0; 0; 0; 0; 0; 1; 0];
       [1; 1; 0; 0; 0; 1; 2; 1];
       [2; 1; 0; 0; 0; 3; 1; 1]]%float.

Definition scenario_file : string := "# FullState".

Definition scenario_result : result (PottsResult float) :=
  load_traj (fun _ => Ok scenario_rows) (fun _ => Raise TypeError)
    (mk_result scenario_params 1%float "./" ∅ [] (mk_ndarray3 O O []) [] [] [] 0%float)
    scenario_file.

(** A log and the two artifacts of a 1x2 lattice recorded every fifth
    step; [ex_params] is what the log holds. *)
Definition ex_log : string :=
  unlines ["PottsKMC"; "PARAMS"; "N = 1"; "M = 2"; "q = 2"; "steps = 3";
           "recordFreq = 5"; "randomSeed = 1234"; "J = 1.0"; "B = 0.0";
           "T = 1.0"; "tau = 10.0"; "jobName = potts"].

Definition ex_fullstate : string :=
  unlines ["# FullState";
           "0 0 1 0 1 0.0";
           "5 0 1 10 2 1.0";
           "10 1 1 20 1 1.0"].

Definition ex_onlychange : string :=
  unlines ["# OnlyChange";
           "# Initial State = 0 1";
           "0 0 1 0 1 0.0";
           "0 1 0 10 2 1.0";
           "0 0 0 20 1 1.0"].

Definition ex_params : gmap string (pyval Q) :=
  list_to_map
    [("N", PInt 1); ("M", PInt 2); ("q", PInt 2); ("steps", PInt 3);
     ("recordFreq", PInt 5); ("randomSeed", PInt 1234); ("J", PFloat 1);
     ("B", PFloat 0); ("T", PFloat 1); ("tau", PFloat 10);
     ("jobName", PStr "potts")]%string%Q.

(** A trajectory whose two totals differ: the clock runs backward, the
    span of the time stamps is negative while the dwell times sum to 2. *)
Definition backward_clock : PottsResult Q :=
  mk_result ex_params 1%Q "./" ∅ [0; 1] (mk_ndarray3 1 2 [[[0; 1]]; [[1; 1]]])
    [5; 0]%Q [1; 1]%Q [0; 1]%Q (-4)%Q.

(** [ex_log] with a twelfth field. *)
Definition ex_log_extra : string :=
  (ex_log ++ unlines ["extra = 1"])%string.

(** A FullState artifact whose rows lack the energy column. *)
Definition ex_narrow : string :=
  unlines ["# FullState"; "0 0 1 0 1"; "5 0 1 10 2"].

(** A log without the line [PARAMS]. *)
Definition ex_no_marker : string := unlines ["PottsKMC"; "N = 1"; "M = 2"].

(** [ex_log] with every step recorded, and the result loaded from
    [ex_fullstate] under it. *)
Definition ex_log1 : string :=
  unlines ["PottsKMC"; "PARAMS"; "N = 1"; "M = 2"; "q = 2"; "steps = 3";
           "recordFreq = 1"; "randomSeed = 1234"; "J = 1.0"; "B = 0.0";
           "T = 1.0"; "tau = 10.0"; "jobName = potts"].

Definition ex_loaded1 : PottsResult Q :=
  mk_result (<["recordFreq"%string := PInt 1]> ex_params) 1%Q "./" ∅
    [0; 5; 10] (mk_ndarray3 1 2 [[[0; 1]]; [[0; 1]]; [[1; 1]]])
    [0; 10; 20]%Q [1; 2; 1]%Q [0; 1; 1]%Q 4%Q.

(** The result loaded from [ex_log] and [ex_fullstate]. *)
Definition ex_loaded : PottsResult Q :=
  mk_result ex_params 1%Q "./" ∅
    [0; 5; 10] (mk_ndarray3 1 2 [[[0; 1]]; [[0; 1]]; [[1; 1]]])
    [0; 10; 20]%Q [1; 2; 1]%Q [0; 1; 1]%Q 4%Q.

(** The scenario of the specification in exact arithmetic: its log, its
    FullState artifact and the result loaded from them. *)
Definition ex_log22 : string :=
  unlines ["PottsKMC"; "PARAMS"; "N = 2"; "M = 2"; "q = 2"; "steps = 3";
           "recordFreq = 1"; "randomSeed = 1234"; "J = 1.0"; "B = 0.0";
           "T = 1.0"; "tau = 10.0"; "jobName = potts"].

Definition ex_fullstate22 : string :=
  unlines ["# FullState";
           "0 0 0 0 0 0 1 0.0";
           "1 1 0 0 0 1 2 1.0";
           "2 1 0 0 0 3 1 1.0"].

Definition ex_loaded22 : PottsResult Q :=
  mk_result (<["N"%string := PInt 2]> (<["recordFreq"%string := PInt 1]> ex_params))
    1%Q "./" ∅
    [0; 1; 2]
    (mk_ndarray3 2 2 [[[0; 0]; [0; 0]]; [[1; 0]; [0; 0]]; [[1; 0]; [0; 0]]])
    [0; 1; 3]%Q [1; 2; 1]%Q [0; 1; 1]%Q 4%Q.

(** The FullState artifact of the sequence that [ex_onlychange] records. *)
Definition ex_fullstate_eq : string :=
  unlines ["# FullState";
           "0 0 1 0 1 0.0";
           "1 1 1 10 2 1.0";
           "2 1 0 20 1 1.0"].

(** The frames of that sequence. *)
Definition ex_data : list frame_record :=
  [mk_frame 0 [[0; 1]] (0, 1, 0)%Q;
   mk_frame 1 [[1; 1]] (10, 2, 1)%Q;
   mk_frame 2 [[1; 0]] (20, 1, 1)%Q].

(** Readings of the built-ins on the rationals, for concrete runs:
    [int] and [float] between numbers, [x ** 2], and [str] of a number
    with a short decimal expansion. *)
Definition Q_int_of_float (q : Q) : outcome Z := Done (Qtrunc q).

Definition Q_float_of_int (z : Z) : outcome Q := Done (inject_Z z).

Definition Q_pow2 (q : Q) : outcome Q := Done (q * q)%Q.

Fixpoint frac_digits (fuel : nat) (r den : Z) : string :=
  match fuel with
  | O => EmptyString
  | S fuel' =>
      if r =? 0 then EmptyString
      else
        let d := (10 * r) / den in
        String (ascii_of_nat (48 + Z.to_nat d))
               (frac_digits fuel' (10 * r - d * den) den)
  end.

Definition Q_str (q : Q) : string :=
  let n := Z.abs (Qnum q) in
  let den := Z.pos (Qden q) in
  let sign : string := if Qnum q <? 0 then "-"%string else EmptyString in
  let frac : string :=
    if n mod den =? 0 then "0"%string else frac_digits 17 (n mod den) den in
  (sign ++ str_of_Z (n / den) ++ "." ++ frac)%string.

(** A dictionary with a retyped value and a key outside the table. *)
Definition ex_dict : pydict (pyval Q) :=
  [("N", PInt 4); ("T", PStr "2.5"); ("extra", PInt 7)]%string.

(** A FullState artifact with a single frame. *)
Definition ex_single_frame : string :=
  unlines ["# FullState"; "0 0 1 0 1 0.0"].

(** [ex_log] with the field [N] written a second time. *)
Definition ex_log_twice : string :=
  (ex_log ++ unlines ["N = 7"])%string.

(** A log whose first field has a value with an [=] in it. *)
Definition ex_log_equals : string :=
  unlines ["PottsKMC"; "PARAMS"; "jobName = a=b"; "N = 1"].

(** [ex_log] with a twelfth field whose value holds an equals sign. *)
Definition ex_log_extra_equals : string :=
  (ex_log ++ unlines ["extra = a=b"])%string.

(** The fields of [ex_log]. *)
Definition ex_fields : list (string * string) :=
  [("N", "1"); ("M", "2"); ("q", "2"); ("steps", "3"); ("recordFreq", "5");
   ("randomSeed", "1234"); ("J", "1.0"); ("B", "0.0"); ("T", "1.0");
   ("tau", "10.0"); ("jobName", "potts")]%string.

(** * Properties *)

(** ** The concrete scenario of the specification *)

(** C3. For the trajectory with dwell times [1, 2, 1], energies
    [0.0, 1.0, 1.0] and totalSampleTime 4, the time-weighted estimators
    return exactly 0.75 for the mean of the energy and 0.1875 for its
    variance: in binary64 on the loaded scenario, and in exact
    arithmetic. *)
Theorem scenario_mean_and_variance :
  (on_result scenario_result (fun r => Ok (trajDt r, trajEnergy r, totalSampleTime r))
   = Ok ([1; 2; 1], [0; 1; 1], 4)%float) /\
  on_result scenario_result
    (fun r => calculate_mean (trajDt r) (totalSampleTime r) (trajEnergy r))
  = Ok 0.75%float /\
  on_result scenario_result
    (fun r => calculate_var (trajDt r) (totalSampleTime r) (trajEnergy r))
  = Ok 0.1875%float /\
  (forall qsqrt,
     calculate_mean (H := Q_Float64 qsqrt) [1; 2; 1]%Q 4%Q [0; 1; 1]%Q = Ok (3 # 4)%Q /\
     exists v, calculate_var (H := Q_Float64 qsqrt) [1; 2; 1]%Q 4%Q [0; 1; 1]%Q = Ok v
               /\ (v == 3 # 16)%Q).
Proof.
  repeat split; try (vm_compute; reflexivity).
  eexists; split; [vm_compute; reflexivity | reflexivity].
Qed.

(** ** The error monad *)

Lemma bind_Ok {A B} (m : result A) (f : A -> result B) (b : B) :
  m ≫= f = Ok b -> exists a, m = Ok a /\ f a = Ok b.
Proof. destruct m as [a|e]; simpl; intros Hb; [eauto | discriminate]. Qed.

Lemma bind_Raise {A B} (m : result A) (f : A -> result B) (e : pyexc) :
  m = Raise e -> m ≫= f = Raise e.
Proof. intros ->. reflexivity. Qed.

Lemma bind_raises {A B} (m : result A) (f : A -> result B) :
  raises m -> raises (m ≫= f).
Proof. intros [e ->]. exists e. reflexivity. Qed.

Lemma raises_not_Ok {A} (r : result A) (a : A) : raises r -> r <> Ok a.
Proof. intros [e ->]. discriminate. Qed.

Ltac inv_bind H :=
  let a := fresh "a" in
  let Ha := fresh "H" a in
  apply bind_Ok in H; destruct H as (a & Ha & H).

(** ** Total sample time after loading *)

Section LoadTotal.
Context {F : Type} `{Float64 F}.
Variable np_loadtxt : string -> result (ndval F).
Variable np_array_map_int : list string -> result (list Z).

Lemma load_fullstate_total (self r : PottsResult F) (trajFile : string) :
  search_trajType (readline (open_rt trajFile)).1 = Some "FullState"%string ->
  load_traj np_loadtxt np_array_map_int self trajFile = Ok r ->
  totalSampleTime r = fsum (trajDt r).
Proof.
  unfold load_traj. destruct (readline (open_rt trajFile)) as [line1 rest].
  simpl. intros -> Hload. simpl in Hload.
  inv_bind Hload. injection Hload as <-. reflexivity.
Qed.

Lemma load_onlychange_total (self r : PottsResult F) (trajFile : string) :
  search_trajType (readline (open_rt trajFile)).1 = Some "OnlyChange"%string ->
  load_traj np_loadtxt np_array_map_int self trajFile = Ok r ->
  totalTime r = Ok (totalSampleTime r).
Proof.
  unfold load_traj. destruct (readline (open_rt trajFile)) as [line1 rest].
  simpl. intros -> Hload. simpl in Hload.
  inv_bind Hload. inv_bind Hload. injection Hload as <-.
  unfold totalTime in *. simpl. exact Ha0.
Qed.

Lemma totalTime_Ok (r : PottsResult F) (x : F) :
  totalTime r = Ok x ->
  exists tl dl t0,
    last (trajT r) = Some tl /\ last (trajDt r) = Some dl /\
    head (trajT r) = Some t0 /\ x = fsub (fadd tl dl) t0.
Proof.
  unfold totalTime, index_last, index_first. intros Hx.
  destruct (last (trajT r)) as [tl|]; [|discriminate].
  destruct (last (trajDt r)) as [dl|]; [|discriminate].
  destruct (trajT r) as [|t0 ts]; [discriminate|].
  simpl in Hx. injection Hx as <-. exists tl, dl, t0. auto.
Qed.

Lemma search_trajType_unfold (line : string) :
  search_trajType line =
  if String.prefix "FullState" line then Some "FullState"%string
  else if String.prefix "OnlyChange" line then Some "OnlyChange"%string
  else match line with
       | String _ line' => search_trajType line'
       | EmptyString => None
       end.
Proof. destruct line; reflexivity. Qed.

(** The type mark is one of the two alternatives of the pattern. *)
Lemma search_trajType_cases (line : string) (m : string) :
  search_trajType line = Some m ->
  m = "FullState"%string \/ m = "OnlyChange"%string.
Proof.
  induction line as [|c line IH]; rewrite search_trajType_unfold.
  - simpl. discriminate.
  - destruct (String.prefix "FullState" (String c line)); [intros [= <-]; auto|].
    destruct (String.prefix "OnlyChange" (String c line)); [intros [= <-]; auto|].
    exact IH.
Qed.

End LoadTotal.

(** C1, as the code has it. For every successfully loaded trajectory the
    total sample time follows the encoding named on the first line of the
    artifact: a FullState artifact gets the sum of all dwell times, an
    OnlyChange artifact gets time[-1] + dwellTime[-1] - time[0]. *)
Theorem load_traj_totalSampleTime {F : Type} `{Float64 F}
    (np_loadtxt : string -> result (ndval F))
    (np_array_map_int : list string -> result (list Z))
    (self r : PottsResult F) (trajFile : string) :
  load_traj np_loadtxt np_array_map_int self trajFile = Ok r ->
  (search_trajType (readline (open_rt trajFile)).1 = Some "FullState"%string /\
   totalSampleTime r = fsum (trajDt r))
  \/
  (search_trajType (readline (open_rt trajFile)).1 = Some "OnlyChange"%string /\
   exists tl dl t0,
     last (trajT r) = Some tl /\ last (trajDt r) = Some dl /\
     head (trajT r) = Some t0 /\
     totalSampleTime r = fsub (fadd tl dl) t0).
Proof.
  intros Hload.
  destruct (search_trajType (readline (open_rt trajFile)).1) as [m|] eqn:Hm.
  - destruct (search_trajType_cases _ _ Hm) as [-> | ->].
    + left. split; [reflexivity|]. eapply load_fullstate_total; eauto.
    + right. split; [reflexivity|].
      apply totalTime_Ok. eapply load_onlychange_total; eauto.
  - exfalso. unfold load_traj in Hload.
    destruct (readline (open_rt trajFile)) as [line1 rest]. simpl in Hm.
    rewrite Hm in Hload. discriminate.
Qed.

Example from_log_ex_log :
  from_log dec_int dec_float ex_log = Ok (mk_experiment ex_params).
Proof. vm_compute. reflexivity. Qed.

(** C1, as stated, fails on a FullState artifact: its total sample time
    is the sum of the dwell times, 4, and not
    time[-1] + dwellTime[-1] - time[0] = 21. *)
Lemma fullstate_total_is_not_span :
  search_trajType (readline (open_rt ex_fullstate)).1 = Some "FullState"%string /\
  on_result
    (PottsResult_init (H := Qx) loadtxt_dec np_array_map_int_py3 dec_int dec_float
       ex_log ex_fullstate "./")
    (fun r => Ok (totalSampleTime r)) = Ok 4%Q /\
  on_result
    (PottsResult_init (H := Qx) loadtxt_dec np_array_map_int_py3 dec_int dec_float
       ex_log ex_fullstate "./")
    (fun r => totalTime (H := Qx) r) = Ok 21%Q /\
  ~ (4 == 21)%Q.
Proof.
  repeat split; try (vm_compute; reflexivity). intros E. discriminate E.
Qed.

Lemma load_traj_totalSampleTime_witness :
  exists r,
    load_traj (H := Qx) loadtxt_dec (np_array_map_int_list dec_int)
      (unloaded (H := Qx) ex_params) ex_onlychange = Ok r /\
    ((search_trajType (readline (open_rt ex_onlychange)).1 = Some "FullState"%string /\
      totalSampleTime r = fsum (H := Qx) (trajDt r))
     \/
     (search_trajType (readline (open_rt ex_onlychange)).1 = Some "OnlyChange"%string /\
      exists tl dl t0,
        last (trajT r) = Some tl /\ last (trajDt r) = Some dl /\
        head (trajT r) = Some t0 /\
        totalSampleTime r = fsub (Float64 := Qx) (fadd (Float64 := Qx) tl dl) t0)).
Proof.
  eexists. split.
  - vm_compute. reflexivity.
  - apply (load_traj_totalSampleTime (H := Qx) loadtxt_dec
             (np_array_map_int_list dec_int) (unloaded (H := Qx) ex_params)
             _ ex_onlychange).
    vm_compute. reflexivity.
Defined.

(** ** Sums of rationals *)

Lemma fold_left_Qplus (l : list Q) (a : Q) :
  (fold_left Qplus l a == a + Qsum l)%Q.
Proof.
  revert a. induction l as [|x l IH]; intros a; simpl.
  - ring.
  - rewrite IH. ring.
Qed.

Lemma Qsum_nonneg (l : list Q) :
  Forall (fun x => 0 <= x)%Q l -> (0 <= Qsum l)%Q.
Proof.
  induction 1 as [|x l Hx _ IH]; simpl.
  - apply Qle_refl.
  - lra.
Qed.

Lemma broadcast0_same_length {A B C} (f : A -> B -> C) (xs : list A) (ys : list B) :
  length xs = length ys -> broadcast0 f xs ys = Ok (zip_with f xs ys).
Proof. intros E. unfold broadcast0. rewrite E, Nat.eqb_refl. reflexivity. Qed.

Lemma Forall_zip_with_nonneg (xs ys : list Q) :
  Forall (fun x => 0 <= x)%Q xs -> Forall (fun y => 0 <= y)%Q ys ->
  Forall (fun z => 0 <= z)%Q (zip_with Qmult xs ys).
Proof.
  intros Hx. revert ys. induction Hx as [|x xs Hx0 _ IH]; intros ys Hy.
  - constructor.
  - destruct Hy as [|y ys Hy0 Hys]; simpl; constructor.
    + apply Qmult_le_0_compat; assumption.
    + apply IH. assumption.
Qed.

Lemma Qsquare_nonneg (x : Q) : (0 <= x * x)%Q.
Proof. nra. Qed.

(** ** Non-negativity of the weighted variance *)

Section Variance.
Variable qsqrt : Q -> Q.
Local Hint Extern 0 (Float64 Q) => exact (Q_Float64 qsqrt) : typeclass_instances.

Lemma fsum_Qsum (l : list Q) : (fsum l == Qsum l)%Q.
Proof. unfold fsum. simpl. rewrite fold_left_Qplus. ring. Qed.

Lemma calculate_mean_Q (dt q : list Q) (total : Q) :
  length q = length dt ->
  calculate_mean dt total q = Ok (fsum (zip_with Qmult q dt) / total)%Q.
Proof.
  intros E. unfold calculate_mean. rewrite broadcast0_same_length by exact E.
  reflexivity.
Qed.

Lemma calculate_var_Q (dt q : list Q) (total : Q) :
  length q = length dt ->
  calculate_var dt total q =
  Ok (fsum (zip_with Qmult
              (map (fun x => let d := x - fsum (zip_with Qmult q dt) / total in d * d) q)
              dt) / total)%Q.
Proof.
  intros E. unfold calculate_var. rewrite calculate_mean_Q by exact E.
  simpl. rewrite calculate_mean_Q by (rewrite length_map; exact E).
  reflexivity.
Qed.

Lemma calculate_var_nonneg_pos_total (dt q : list Q) (total : Q) :
  length q = length dt ->
  Forall (fun d => 0 <= d)%Q dt ->
  (0 < total)%Q ->
  exists v, calculate_var dt total q = Ok v /\ (0 <= v)%Q.
Proof.
  intros E Hdt Hpos. eexists. split; [apply calculate_var_Q; exact E|].
  apply Qle_shift_div_l; [exact Hpos|].
  rewrite Qmult_0_l, fsum_Qsum. apply Qsum_nonneg.
  apply Forall_zip_with_nonneg; [|exact Hdt].
  apply Forall_map, Forall_forall. intros x _. apply Qsquare_nonneg.
Qed.

Lemma Forall_tabulate2 {A} (P : A -> Prop) (n m : nat) (f : nat -> nat -> A) :
  (forall i j, P (f i j)) -> Forall (Forall P) (tabulate2 n m f).
Proof.
  intros Hf. unfold tabulate2. apply Forall_forall. intros row Hrow.
  apply list_elem_of_In, in_map_iff in Hrow as (i & <- & _).
  apply Forall_forall. intros x Hx.
  apply list_elem_of_In, in_map_iff in Hx as (j & <- & _). apply Hf.
Qed.

Lemma lat_get_nonneg (lat : list (list Q)) (i j : nat) :
  Forall (Forall (fun x => 0 <= x)%Q) lat -> (0 <= lat_get 0%Q lat i j)%Q.
Proof.
  intros Hlat. unfold lat_get.
  destruct (Nat.lt_ge_cases i (length lat)) as [Hi|Hi].
  - rewrite Forall_forall in Hlat.
    specialize (Hlat (nth i lat []) (proj2 (list_elem_of_In _ _) (nth_In _ _ Hi))).
    destruct (Nat.lt_ge_cases j (length (nth i lat []))) as [Hj|Hj].
    + rewrite Forall_forall in Hlat. apply Hlat, list_elem_of_In, nth_In. exact Hj.
    + rewrite nth_overflow by exact Hj. apply Qle_refl.
  - rewrite (nth_overflow lat) by exact Hi. destruct j; apply Qle_refl.
Qed.

Lemma squares_row_nonneg (xs ms : list Q) :
  Forall (fun z => 0 <= z)%Q (zip_with (fun x m => (x - m) * (x - m))%Q xs ms).
Proof.
  revert ms. induction xs as [|x xs IH]; intros [|m ms]; simpl; constructor.
  - apply Qsquare_nonneg.
  - apply IH.
Qed.

Lemma squares_lattice_nonneg (lat mean : list (list Q)) :
  Forall (Forall (fun z => 0 <= z)%Q)
    (lat_zip (fun x m => (x - m) * (x - m))%Q lat mean).
Proof.
  unfold lat_zip. revert mean.
  induction lat as [|row lat IH]; intros [|mrow mean]; simpl; constructor.
  - apply squares_row_nonneg.
  - apply IH.
Qed.

Lemma scaled_lattice_nonneg (lat : list (list Q)) (d : Q) :
  (0 <= d)%Q -> Forall (Forall (fun z => 0 <= z)%Q) lat ->
  Forall (Forall (fun z => 0 <= z)%Q) (lat_map (fun x => x * d)%Q lat).
Proof.
  intros Hd Hlat. unfold lat_map.
  induction Hlat as [|row lat Hrow _ IH]; simpl; constructor; [|exact IH].
  induction Hrow as [|x row Hx _ IHrow]; simpl; constructor; [|exact IHrow].
  apply Qmult_le_0_compat; assumption.
Qed.

Lemma weighted_squares_nonneg (mean : list (list Q)) (frames : list (list (list Q)))
    (dt : list Q) :
  Forall (fun d => 0 <= d)%Q dt ->
  Forall (Forall (Forall (fun x => 0 <= x)%Q))
    (zip_with (fun lat d => lat_map (fun x => x * d)%Q lat)
       (map (fun lat => lat_zip (fun x m => (x - m) * (x - m))%Q lat mean) frames)
       dt).
Proof.
  intros Hdt. revert frames.
  induction Hdt as [|d dt Hd _ IH]; intros [|lat frames]; simpl; constructor.
  - apply scaled_lattice_nonneg; [exact Hd | apply squares_lattice_nonneg].
  - apply IH.
Qed.

Lemma calculate_var3_nonneg_pos_total (dt : list Q) (q : ndarray3 Q) (total : Q) :
  length (nd_frames q) = length dt ->
  Forall (fun d => 0 <= d)%Q dt ->
  (0 < total)%Q ->
  exists v, calculate_var3 dt total q = Ok v
            /\ Forall (Forall (fun x => 0 <= x)%Q) v.
Proof.
  intros E Hdt Hpos. unfold calculate_var3, calculate_mean3.
  rewrite broadcast0_same_length by exact E.
  change (Ok ?a ≫= ?f) with (f a). cbv beta.
  change (Ok ?a ≫= ?f) with (f a). cbv beta.
  cbn [nd_frames nd_rows nd_cols].
  rewrite broadcast0_same_length by (rewrite length_map; exact E).
  change (Ok ?a ≫= ?f) with (f a). cbv beta.
  eexists. split; [reflexivity|].
  apply Forall_tabulate2. intros i j.
  apply Qle_shift_div_l; [exact Hpos|].
  rewrite Qmult_0_l, fsum_Qsum. apply Qsum_nonneg.
  apply Forall_forall. intros x Hx.
  apply list_elem_of_In, in_map_iff in Hx as (lat & <- & Hlat).
  apply lat_get_nonneg.
  pose proof (weighted_squares_nonneg
                (tabulate2 (nd_rows q) (nd_cols q)
                   (fun i j =>
                      fsum (map (fun lat => lat_get 0%Q lat i j)
                              (zip_with (fun lat d => lat_map (fun x => x * d)%Q lat)
                                 (nd_frames q) dt)) / total)%Q)
                (nd_frames q) dt Hdt) as Hall.
  rewrite Forall_forall in Hall. apply Hall, list_elem_of_In. exact Hlat.
Qed.

Lemma weighted_block_nonneg (blk : list Q) (d : Q) :
  (0 <= d)%Q -> Forall (fun x => 0 <= x)%Q blk ->
  Forall (fun x => 0 <= x)%Q (map (fun x => x * d)%Q blk).
Proof.
  intros Hd Hblk. induction Hblk as [|x blk Hx _ IH]; simpl; constructor;
    [apply Qmult_le_0_compat; assumption | exact IH].
Qed.

Lemma weighted_square_blocks_nonneg (mean : list Q) (blocks : list (list Q))
    (dt : list Q) :
  Forall (fun d => 0 <= d)%Q dt ->
  Forall (Forall (fun x => 0 <= x)%Q)
    (zip_with (fun blk d => map (fun x => x * d)%Q blk)
       (map (fun blk => zip_with (fun x m => (x - m) * (x - m))%Q blk mean) blocks)
       dt).
Proof.
  intros Hdt. revert blocks.
  induction Hdt as [|d dt Hd _ IH]; intros [|blk blocks]; simpl; constructor.
  - apply weighted_block_nonneg; [exact Hd | apply squares_row_nonneg].
  - apply IH.
Qed.

Lemma nth_nonneg (blk : list Q) (i : nat) :
  Forall (fun x => 0 <= x)%Q blk -> (0 <= nth i blk 0)%Q.
Proof.
  intros Hblk. destruct (Nat.lt_ge_cases i (length blk)) as [Hi|Hi].
  - rewrite Forall_forall in Hblk. apply Hblk, list_elem_of_In, nth_In. exact Hi.
  - rewrite nth_overflow by exact Hi. apply Qle_refl.
Qed.

Lemma calculate_varN_nonneg_pos_total (dt : list Q) (q : ndarrayN Q) (total : Q) :
  length (ndn_blocks q) = length dt ->
  Forall (fun d => 0 <= d)%Q dt ->
  (0 < total)%Q ->
  exists v, calculate_varN dt total q = Ok v
            /\ length v = shape_size (ndn_shape q)
            /\ Forall (fun x => 0 <= x)%Q v.
Proof.
  intros E Hdt Hpos. unfold calculate_varN, calculate_meanN.
  rewrite broadcast0_same_length by exact E.
  change (Ok ?a ≫= ?f) with (f a). cbv beta.
  change (Ok ?a ≫= ?f) with (f a). cbv beta.
  cbn [ndn_blocks ndn_shape].
  rewrite broadcast0_same_length by (rewrite length_map; exact E).
  change (Ok ?a ≫= ?f) with (f a). cbv beta.
  eexists. split; [reflexivity|]. split; [rewrite length_map, length_seq; reflexivity|].
  apply Forall_forall. intros x Hx.
  apply list_elem_of_In, in_map_iff in Hx as (i & <- & _).
  apply Qle_shift_div_l; [exact Hpos|].
  rewrite Qmult_0_l, fsum_Qsum. apply Qsum_nonneg.
  apply Forall_forall. intros y Hy.
  apply list_elem_of_In, in_map_iff in Hy as (blk & <- & Hblk).
  apply nth_nonneg.
  match goal with
  | H : In blk (zip_with _ (map (fun b => zip_with _ b ?mean) _) _) |- _ =>
      pose proof (weighted_square_blocks_nonneg mean (ndn_blocks q) dt Hdt) as Hall
  end.
  rewrite Forall_forall in Hall. apply Hall, list_elem_of_In. exact Hblk.
Qed.

End Variance.

(** On a rank-1 quantity the estimators of any rank are those of rank 1. *)
Lemma nth0_weighted_singletons {F : Type} `{Float64 F} (q dt : list F) :
  map (fun blk => nth 0 blk fzero)
    (zip_with (fun blk d => map (fun x => fmul x d) blk) (map (fun x => [x]) q) dt)
  = zip_with fmul q dt.
Proof.
  revert dt. induction q as [|x q IH]; intros [|d dt]; simpl; try reflexivity.
  f_equal. apply IH.
Qed.

Lemma calculate_meanN_rank1 {F : Type} `{Float64 F} (dt q : list F) (total : F) :
  calculate_meanN dt total (mk_ndarrayN [] (map (fun x => [x]) q))
  = (v ← calculate_mean dt total q; Ok [v]).
Proof.
  unfold calculate_meanN, calculate_mean, broadcast0. cbn [ndn_blocks ndn_shape].
  rewrite length_map.
  destruct (Nat.eqb (length q) (length dt)) eqn:E.
  - change (Ok ?a ≫= ?f) with (f a). cbv beta.
    change (Ok ?a ≫= ?f) with (f a). cbv beta.
    simpl. rewrite nth0_weighted_singletons. reflexivity.
  - destruct q as [|x [|x' q]]; destruct dt as [|d [|d' dt]]; try discriminate E;
      try reflexivity.
    + simpl. rewrite !map_map. reflexivity.
    + simpl. rewrite !map_map. simpl. reflexivity.
Qed.

Lemma calculate_varN_rank1 {F : Type} `{Float64 F} (dt q : list F) (total : F) :
  calculate_varN dt total (mk_ndarrayN [] (map (fun x => [x]) q))
  = (v ← calculate_var dt total q; Ok [v]).
Proof.
  unfold calculate_varN, calculate_var. rewrite calculate_meanN_rank1.
  destruct (calculate_mean dt total q) as [m|e]; [|reflexivity].
  change (Ok ?a ≫= ?f) with (f a). cbv beta.
  change (Ok ?a ≫= ?f) with (f a). cbv beta.
  cbn [ndn_blocks ndn_shape]. rewrite map_map. cbn [zip_with].
  rewrite <- (map_map (fun x => fsquare (fsub x m)) (fun y => [y])).
  apply calculate_meanN_rank1.
Qed.

(** C10, as the code has it, in exact arithmetic. For a per-frame
    quantity as long as the trajectory, with non-negative dwell times and
    a strictly positive totalSampleTime, equal or not to the sum of the
    dwell times, the weighted variance is computed and is non-negative in
    every element: for a series of numbers, for a sequence of lattices,
    and for a quantity of any rank, block by block. Only a total that
    is not positive gives a negative variance: the span of the time
    stamps of a clock that runs backward does, with non-negative dwell
    times. *)
Theorem calculate_var_nonneg (qsqrt : Q -> Q) :
  (forall (dt q : list Q) (total : Q),
     length q = length dt ->
     Forall (fun d => 0 <= d)%Q dt ->
     (0 < total)%Q ->
     exists v, calculate_var (H := Q_Float64 qsqrt) dt total q = Ok v /\ (0 <= v)%Q)
  /\
  (forall (dt : list Q) (q : ndarray3 Q) (total : Q),
     length (nd_frames q) = length dt ->
     Forall (fun d => 0 <= d)%Q dt ->
     (0 < total)%Q ->
     exists v, calculate_var3 (H := Q_Float64 qsqrt) dt total q = Ok v
               /\ Forall (Forall (fun x => 0 <= x)%Q) v)
  /\
  (forall (dt : list Q) (q : ndarrayN Q) (total : Q),
     length (ndn_blocks q) = length dt ->
     Forall (fun d => 0 <= d)%Q dt ->
     (0 < total)%Q ->
     exists v, calculate_varN (H := Q_Float64 qsqrt) dt total q = Ok v
               /\ length v = shape_size (ndn_shape q)
               /\ Forall (fun x => 0 <= x)%Q v)
  /\
  (exists (r : PottsResult Q) (v : Q),
     Forall (fun d => 0 <= d)%Q (trajDt r) /\
     totalTime (H := Q_Float64 qsqrt) r = Ok (totalSampleTime r) /\
     ~ (totalSampleTime r == Qsum (trajDt r))%Q /\
     (totalSampleTime r < 0)%Q /\
     calculate_var (H := Q_Float64 qsqrt) (trajDt r) (totalSampleTime r) (trajEnergy r)
     = Ok v /\
     (v < 0)%Q).
Proof.
  split; [|split; [|split]].
  - intros dt q total E Hdt Hpos.
    apply calculate_var_nonneg_pos_total; assumption.
  - intros dt q total E Hdt Hpos.
    apply calculate_var3_nonneg_pos_total; assumption.
  - intros dt q total E Hdt Hpos.
    apply calculate_varN_nonneg_pos_total; assumption.
  - exists backward_clock. eexists.
    split; [|split; [|split; [|split; [|split]]]].
    + repeat constructor; discriminate.
    + reflexivity.
    + intros E. vm_compute in E. discriminate E.
    + reflexivity.
    + vm_compute. reflexivity.
    + reflexivity.
Qed.

(** C10, as stated, fails in binary64: with dwell times [0; 1], whose
    sum 1 is the total, and the finite quantity [2^700; 0], the square of
    the first deviation overflows to infinity, its product with the dwell
    time 0 is not a number, and so is the variance; it is not
    non-negative. *)
Lemma calculate_var_nan_in_binary64 :
  Forall (fun d => PrimFloat.leb 0 d = true) [0; 1]%float /\
  PrimFloat.eqb (fsum [0; 1]%float) 1 = true /\
  PrimFloat.ltb 0 1 = true /\
  exists v,
    calculate_var [0; 1]%float 1%float [0x1p700; 0]%float = Ok v /\
    PrimFloat.is_nan v = true /\
    PrimFloat.leb 0 v = false.
Proof.
  split; [repeat constructor|]. split; [vm_compute; reflexivity|].
  split; [vm_compute; reflexivity|].
  eexists. split; [vm_compute; reflexivity|].
  split; vm_compute; reflexivity.
Qed.

Lemma calculate_var_nonneg_witness :
  exists v, calculate_var (H := Qx) [1; 2; 1]%Q 4%Q [0; 1; 1]%Q = Ok v /\ (0 <= v)%Q.
Proof.
  apply (proj1 (calculate_var_nonneg Qsqrt_z) [1; 2; 1]%Q [0; 1; 1]%Q 4%Q).
  - reflexivity.
  - repeat constructor; discriminate.
  - reflexivity.
Defined.

(** ** The log parser *)

Lemma split_aux_length (sep : ascii) (s : string) :
  forall cur, length (split_aux sep cur s) = S (count_char sep s).
Proof.
  induction s as [|c s IH]; intros cur; simpl; [reflexivity|].
  destruct (Ascii.eqb c sep); simpl; rewrite IH; reflexivity.
Qed.

Section LogParser.
Context {F : Type}.
Variable py_int : string -> result Z.
Variable py_float : string -> result F.

Lemma set_param_Ok (p p' : gmap string (pyval F)) (rawParam : string) :
  set_param py_int py_float p rawParam = Ok p' ->
  is_Some (PARAM_TRANS !! raw_key rawParam) /\
  exists x, p' = <[raw_key rawParam := x]> p.
Proof.
  unfold set_param, raw_key.
  destruct (split "=" rawParam) as [|a [|b [|c l]]]; simpl; try discriminate.
  destruct (PARAM_TRANS !! strip a) as [ty|]; [|discriminate].
  intros Hx. inv_bind Hx. injection Hx as <-. split; [eauto | eauto].
Qed.

(** What the loop leaves in the dictionary: the names it has read. *)
Lemma set_params_dom (rawParams : list string) :
  forall p p' : gmap string (pyval F),
    set_params py_int py_float rawParams p = Ok p' ->
    dom p' = dom p ∪ list_to_set (map raw_key rawParams).
Proof.
  induction rawParams as [|r rest IH]; intros p p' Hp; simpl in *.
  - injection Hp as <-. rewrite (right_id_L ∅ (∪)). reflexivity.
  - inv_bind Hp. apply set_param_Ok in Ha as [_ [x ->]].
    rewrite (IH _ _ Hp), dom_insert_L.
    rewrite (assoc_L (∪)), (comm_L (∪) (dom p)). reflexivity.
Qed.

Lemma set_params_known (rawParams : list string) :
  forall p p' : gmap string (pyval F),
    set_params py_int py_float rawParams p = Ok p' ->
    Forall (fun r => is_Some (PARAM_TRANS !! raw_key r)) rawParams.
Proof.
  induction rawParams as [|r rest IH]; intros p p' Hp; simpl in *.
  - constructor.
  - inv_bind Hp. constructor.
    + apply set_param_Ok in Ha as [Hk _]. exact Hk.
    + eapply IH. exact Hp.
Qed.

(** A log that parses holds exactly the enumerated fields, and every
    line of it that reads [identifier = value] names one of them. *)
Lemma from_log_Ok (logFile : string) (e : PottsExperiment F) :
  from_log py_int py_float logFile = Ok e ->
  dom (exp_params e) = dom PARAM_TRANS /\
  exists r, seek_params (open_rt logFile) = Ok r /\
    Forall (fun raw => is_Some (PARAM_TRANS !! raw_key raw))
      (findall_params (read r)).
Proof.
  unfold from_log. intros He. inv_bind He. inv_bind He.
  destruct (decide (dom a0 = dom PARAM_TRANS)) as [Hd|]; [|discriminate].
  injection He as <-. split; [exact Hd|].
  exists a. split; [exact Ha|]. eapply set_params_known. exact Ha0.
Qed.

Lemma set_params_app (raws1 raws2 : list string) :
  forall p,
    set_params py_int py_float (raws1 ++ raws2) p
    = (p' ← set_params py_int py_float raws1 p; set_params py_int py_float raws2 p').
Proof.
  induction raws1 as [|r raws1 IH]; intros p; [reflexivity|].
  cbn [app set_params].
  destruct (set_param py_int py_float p r) as [p1|e]; [|reflexivity].
  change (Ok ?a ≫= ?f) with (f a). cbv beta. apply IH.
Qed.

(** A line whose identifier is not registered: the unpacking of line 70
    comes first, then the lookup of line 71. *)
Lemma set_param_extra (p : gmap string (pyval F)) (rawParam : string) :
  PARAM_TRANS !! raw_key rawParam = None ->
  set_param py_int py_float p rawParam
  = Raise (if Nat.eqb (count_char "=" rawParam) 1 then KeyError else ValueError).
Proof.
  intros Hk. unfold set_param. unfold raw_key in Hk.
  pose proof (split_aux_length "=" rawParam []) as Hlen. fold (split "=" rawParam) in Hlen.
  destruct (split "=" rawParam) as [|a [|b [|c l]]]; simpl in Hlen |- *.
  - discriminate Hlen.
  - injection Hlen as Hlen. rewrite <- Hlen. reflexivity.
  - injection Hlen as Hlen. simpl in Hk. rewrite Hk, <- Hlen. reflexivity.
  - injection Hlen as Hlen. rewrite <- Hlen. reflexivity.
Qed.

Lemma from_log_at_extra (logFile : string) (r before after : list string)
    (rawParam : string) :
  seek_params (open_rt logFile) = Ok r ->
  findall_params (read r) = before ++ rawParam :: after ->
  PARAM_TRANS !! raw_key rawParam = None ->
  from_log py_int py_float logFile
  = match set_params py_int py_float before ∅ with
    | Ok _ =>
        Raise (if Nat.eqb (count_char "=" rawParam) 1 then KeyError else ValueError)
    | Raise e0 => Raise e0
    end.
Proof.
  intros Hr Hfound Hk. unfold from_log. rewrite Hr.
  change (Ok ?a ≫= ?f) with (f a). cbv beta zeta.
  rewrite Hfound, set_params_app.
  destruct (set_params py_int py_float before ∅) as [p|e0]; [|reflexivity].
  change (Ok ?a ≫= ?f) with (f a). cbv beta.
  cbn [set_params]. rewrite (set_param_extra p rawParam Hk). reflexivity.
Qed.

End LogParser.

(** C7, as the code has it. When the lines after the PARAMS marker
    include a line [identifier = value] whose identifier is not in the
    enumerated parameter set, parsing the log fails: no parameter set is
    returned. The error is that of the first line that fails: when the
    lines before the extra one are accepted, it is [KeyError], at the
    lookup of the type, for an extra line with a single [=], and
    [ValueError], at the unpacking, for one whose value holds a further
    [=]; when a line before it fails, it is the error of that line. *)
Theorem from_log_extra_field_raises {F : Type}
    (py_int : string -> result Z) (py_float : string -> result F)
    (logFile : string) (r : list string) (rawParam : string) :
  seek_params (open_rt logFile) = Ok r ->
  In rawParam (findall_params (read r)) ->
  PARAM_TRANS !! raw_key rawParam = None ->
  exists e,
    from_log py_int py_float logFile = Raise e /\
    forall before after,
      findall_params (read r) = before ++ rawParam :: after ->
      match set_params py_int py_float before ∅ with
      | Ok _ =>
          e = if Nat.eqb (count_char "=" rawParam) 1 then KeyError else ValueError
      | Raise e0 => e = e0
      end.
Proof.
  intros Hr Hin Hk.
  assert (Hat : forall before after,
             findall_params (read r) = before ++ rawParam :: after ->
             from_log py_int py_float logFile
             = match set_params py_int py_float before ∅ with
               | Ok _ =>
                   Raise (if Nat.eqb (count_char "=" rawParam) 1
                          then KeyError else ValueError)
               | Raise e0 => Raise e0
               end).
  { intros before after Hfound.
    exact (from_log_at_extra py_int py_float logFile r before after rawParam
             Hr Hfound Hk). }
  destruct (from_log py_int py_float logFile) as [x|e] eqn:He.
  - exfalso. apply in_split in Hin as (before & after & Hfound).
    specialize (Hat before after Hfound).
    destruct (set_params py_int py_float before ∅); discriminate Hat.
  - exists e. split; [reflexivity|]. intros before after Hfound.
    specialize (Hat before after Hfound).
    destruct (set_params py_int py_float before ∅); congruence.
Qed.

(** C7, as stated, fails: the log [ex_log] parses, and the same log with
    the further line [extra = 1] raises [KeyError]. *)
Lemma extra_field_not_ignored :
  from_log dec_int dec_float ex_log = Ok (mk_experiment ex_params) /\
  In "extra = 1"%string
     (findall_params
        (read (match seek_params (open_rt ex_log_extra) with
               | Ok r => r
               | Raise _ => []
               end))) /\
  from_log dec_int dec_float ex_log_extra = Raise KeyError.
Proof.
  split; [|split].
  - vm_compute. reflexivity.
  - vm_compute. tauto.
  - vm_compute. reflexivity.
Qed.

Lemma from_log_extra_field_raises_witness :
  from_log dec_int dec_float ex_log_extra = Raise KeyError /\
  from_log dec_int dec_float ex_log_extra_equals = Raise ValueError.
Proof.
  split.
  - destruct (from_log_extra_field_raises dec_int dec_float ex_log_extra
                (skipn 2 (open_rt ex_log_extra)) "extra = 1"%string)
      as (e & He & Hfirst).
    + vm_compute. reflexivity.
    + vm_compute. tauto.
    + vm_compute. reflexivity.
    + rewrite He. f_equal.
      pose proof (Hfirst (map field_line ex_fields) []) as Hm.
      vm_compute in Hm. apply Hm. reflexivity.
  - destruct (from_log_extra_field_raises dec_int dec_float ex_log_extra_equals
                (skipn 2 (open_rt ex_log_extra_equals)) "extra = a=b"%string)
      as (e & He & Hfirst).
    + vm_compute. reflexivity.
    + vm_compute. tauto.
    + vm_compute. reflexivity.
    + rewrite He. f_equal.
      pose proof (Hfirst (map field_line ex_fields) []) as Hm.
      vm_compute in Hm. apply Hm. reflexivity.
Defined.

(** ** Malformed input *)

Section Malformed.
Context {F : Type} `{Float64 F}.
Variable np_loadtxt : string -> result (ndval F).
Variable np_array_map_int : list string -> result (list Z).
Variable py_int : string -> result Z.
Variable py_float : string -> result F.

Lemma seek_params_no_marker (r : list string) :
  existsb (String.eqb PARAMS_line) r = false ->
  seek_params r = Raise ValueError.
Proof.
  induction r as [|line r IH]; [reflexivity|].
  cbn [existsb seek_params]. intros Hex.
  apply orb_false_elim in Hex as [Hl Hr].
  rewrite String.eqb_sym in Hl. rewrite Hl.
  apply IH. exact Hr.
Qed.

Lemma from_log_no_marker (logFile : string) :
  no_marker logFile = true -> raises (from_log py_int py_float logFile).
Proof.
  unfold no_marker. intros Hm. apply negb_true_iff in Hm.
  unfold from_log. rewrite (seek_params_no_marker _ Hm).
  exists ValueError. reflexivity.
Qed.

Lemma from_log_wrong_names (logFile : string) :
  wrong_names logFile = true -> raises (from_log py_int py_float logFile).
Proof.
  unfold wrong_names, parsed_names. intros Hw. apply bool_decide_eq_true in Hw.
  unfold from_log.
  destruct (seek_params (open_rt logFile)) as [r|e]; [|exists e; reflexivity].
  simpl.
  destruct (set_params py_int py_float (findall_params (read r)) ∅)
    as [p|e] eqn:Hp; [|exists e; reflexivity].
  simpl. apply set_params_dom in Hp. rewrite dom_empty_L, (left_id_L ∅ (∪)) in Hp.
  destruct (decide (dom p = dom PARAM_TRANS)) as [Hd|_].
  - exfalso. apply Hw. rewrite <- Hp. exact Hd.
  - exists ValueError. reflexivity.
Qed.

Lemma load_traj_no_type_mark (self : PottsResult F) (trajFile : string) :
  no_type_mark trajFile = true ->
  load_traj np_loadtxt np_array_map_int self trajFile = Raise KeyError.
Proof.
  unfold no_type_mark, first_line, load_traj.
  destruct (readline (open_rt trajFile)) as [line1 rest]. simpl.
  destruct (search_trajType line1); [discriminate | reflexivity].
Qed.

Lemma load_onlychange_no_initial_state (self : PottsResult F) (trajFile : string) :
  match split "=" (strip (second_line trajFile)) with
  | [k; _] => negb (contains "Initial State" k)
  | _ => true
  end = true ->
  raises (_load_onlychange_traj np_loadtxt np_array_map_int self trajFile).
Proof.
  unfold second_line, _load_onlychange_traj. intros Hno.
  destruct (param_int self "N") as [N|e]; [|exists e; reflexivity].
  destruct (param_int self "M") as [M|e]; [|exists e; reflexivity].
  simpl.
  destruct (readline (open_rt trajFile)) as [line1 r]. simpl in *.
  destruct (readline r) as [line2 r']. simpl in *.
  destruct (split "=" (strip line2)) as [|k [|v [|x l]]];
    try (exists ValueError; reflexivity).
  rewrite Hno. exists KeyError. reflexivity.
Qed.

Lemma load_traj_no_initial_state (self : PottsResult F) (trajFile : string) :
  no_initial_state trajFile = true ->
  raises (load_traj np_loadtxt np_array_map_int self trajFile).
Proof.
  unfold no_initial_state. intros Hno.
  destruct (search_trajType (first_line trajFile)) as [m|] eqn:Hm; [|discriminate].
  destruct (search_trajType_cases _ _ Hm) as [-> | ->]; [discriminate|].
  pose proof (load_onlychange_no_initial_state self trajFile Hno) as [e He].
  unfold load_traj. unfold first_line in Hm.
  destruct (readline (open_rt trajFile)) as [line1 rest]. simpl in Hm.
  rewrite Hm. simpl. rewrite He. exists e. reflexivity.
Qed.

End Malformed.

(** C8, as the code has it. Loading fails with an error whenever the
    input is malformed in one of the four ways: the log ends before a
    PARAMS line, the names read from the log are not the required set, the
    first line of the trajectory holds neither FullState nor OnlyChange,
    or the second line of an OnlyChange artifact has no Initial State
    entry. The constructor then returns no object: neither a parameter
    set nor a trajectory reaches the caller. *)
Theorem malformed_input_raises {F : Type} `{Float64 F}
    (np_loadtxt : string -> result (ndval F))
    (np_array_map_int : list string -> result (list Z))
    (py_int : string -> result Z) (py_float : string -> result F)
    (logFile trajFile path_ : string) :
  malformed logFile trajFile = true ->
  raises (PottsResult_init np_loadtxt np_array_map_int py_int py_float
            logFile trajFile path_)
  /\ (no_marker logFile || wrong_names logFile = true ->
      raises (from_log py_int py_float logFile)).
Proof.
  intros Hm. split.
  - unfold malformed in Hm. unfold PottsResult_init.
    destruct (from_log py_int py_float logFile) as [e|x] eqn:He;
      [|exists x; reflexivity].
    simpl.
    repeat (apply orb_true_iff in Hm as [Hm | Hm]).
    + apply (from_log_no_marker py_int py_float) in Hm as [x Hx]. congruence.
    + apply (from_log_wrong_names py_int py_float) in Hm as [x Hx]. congruence.
    + exists KeyError. apply load_traj_no_type_mark. exact Hm.
    + apply load_traj_no_initial_state. exact Hm.
  - intros Hlog. apply orb_true_iff in Hlog as [Hlog | Hlog].
    + apply from_log_no_marker. exact Hlog.
    + apply from_log_wrong_names. exact Hlog.
Qed.

(** C8, as stated, fails in the direction "only when": a log and a
    FullState artifact with none of the four defects, whose table lacks
    the energy column, raise [IndexError]. *)
Lemma well_marked_input_raises :
  malformed ex_log ex_narrow = false /\
  PottsResult_init (H := Qx) loadtxt_dec np_array_map_int_py3 dec_int dec_float
    ex_log ex_narrow "./" = Raise IndexError.
Proof. split; vm_compute; reflexivity. Qed.

Lemma malformed_input_raises_witness :
  raises (PottsResult_init (H := Qx) loadtxt_dec np_array_map_int_py3
            dec_int dec_float ex_no_marker ex_fullstate "./")
  /\ (no_marker ex_no_marker || wrong_names ex_no_marker = true ->
      raises (from_log dec_int dec_float ex_no_marker)).
Proof.
  apply (malformed_input_raises (H := Qx) loadtxt_dec np_array_map_int_py3
           dec_int dec_float ex_no_marker ex_fullstate "./").
  vm_compute. reflexivity.
Defined.

(** ** Slices *)

Lemma slice_indices_Ok (sl : pyslice) (len : Z) :
  default 1 (sl_step sl) <> 0 ->
  exists start stop,
    slice_indices sl len = Ok (start, stop, default 1 (sl_step sl)).
Proof.
  intros Hstep. unfold slice_indices.
  destruct (Z.eqb_spec (default 1 (sl_step sl)) 0) as [E|_]; [contradiction|].
  eauto.
Qed.

Lemma adjust_bound_range (len step b : Z) :
  0 <= len -> step <> 0 ->
  (0 < step -> 0 <= adjust_bound len step b <= len) /\
  (step < 0 -> -1 <= adjust_bound len step b <= len - 1).
Proof.
  intros Hlen Hstep. unfold adjust_bound.
  repeat match goal with
         | |- context [?a <? ?b] => destruct (Z.ltb_spec a b)
         | |- context [?a <=? ?b] => destruct (Z.leb_spec a b)
         end; lia.
Qed.

(** Every position a slice selects lies inside the array. *)
Lemma slice_positions_lt (sl : pyslice) (n : nat) (pos : list nat) :
  slice_positions sl n = Ok pos -> Forall (fun p => (p < n)%nat) pos.
Proof.
  unfold slice_positions, slice_indices.
  destruct (Z.eqb_spec (default 1 (sl_step sl)) 0) as [|Hstep]; [discriminate|].
  simpl. intros [= <-].
  set (step := default 1 (sl_step sl)) in *.
  set (len := Z.of_nat n).
  assert (Hlen : 0 <= len) by (unfold len; lia).
  set (start := match sl_start sl with
                | Some b => adjust_bound len step b
                | None => if step <? 0 then len - 1 else 0
                end).
  set (stop := match sl_stop sl with
               | Some b => adjust_bound len step b
               | None => if step <? 0 then -1 else len
               end).
  assert (Hstart : (0 < step -> 0 <= start <= len) /\
                   (step < 0 -> -1 <= start <= len - 1)).
  { unfold start. destruct (sl_start sl) as [b|].
    - apply adjust_bound_range; assumption.
    - destruct (Z.ltb_spec step 0); lia. }
  assert (Hstop : (0 < step -> 0 <= stop <= len) /\
                  (step < 0 -> -1 <= stop <= len - 1)).
  { unfold stop. destruct (sl_stop sl) as [b|].
    - apply adjust_bound_range; assumption.
    - destruct (Z.ltb_spec step 0); lia. }
  apply Forall_forall. intros p Hp. apply list_elem_of_In, in_map_iff in Hp.
  destruct Hp as (k & <- & Hk). apply in_seq in Hk.
  unfold slice_length in Hk.
  destruct (Z.ltb_spec step 0) as [Hneg|Hnonneg].
  - destruct (Z.ltb_spec stop start) as [Hlt|]; [|simpl in Hk; lia].
    assert (Hq := Z.mul_div_le (start - stop - 1) (- step) ltac:(lia)).
    assert (0 <= (start - stop - 1) / - step) by (apply Z.div_pos; lia).
    assert (Z.of_nat k <= (start - stop - 1) / - step) by lia.
    assert (Z.of_nat k * - step <= start - stop - 1) by nia.
    assert (0 <= Z.of_nat k * - step) by nia.
    lia.
  - assert (0 < step) by lia.
    destruct (Z.ltb_spec start stop) as [Hlt|]; [|simpl in Hk; lia].
    assert (Hq := Z.mul_div_le (stop - start - 1) step ltac:(lia)).
    assert (0 <= (stop - start - 1) / step) by (apply Z.div_pos; lia).
    assert (Z.of_nat k <= (stop - start - 1) / step) by lia.
    assert (Z.of_nat k * step <= stop - start - 1) by nia.
    assert (0 <= Z.of_nat k * step) by nia.
    lia.
Qed.

Lemma omap_lookup_length {A} (l : list A) (pos : list nat) :
  Forall (fun p => (p < length l)%nat) pos ->
  length (omap (M := list) (fun i : nat => l !! i) pos) = length pos.
Proof.
  induction 1 as [|p pos Hp _ IH]; [reflexivity|].
  destruct (lookup_lt_is_Some_2 l p Hp) as [x Hx].
  simpl. rewrite Hx. simpl. f_equal. exact IH.
Qed.

(** A slice with a non-zero step raises nothing, and selects as many
    elements as it has positions. *)
Lemma py_slice_Ok {A} (sl : pyslice) (l : list A) :
  default 1 (sl_step sl) <> 0 ->
  exists pos l',
    slice_positions sl (length l) = Ok pos /\ py_slice sl l = Ok l' /\
    length l' = length pos.
Proof.
  intros Hstep. unfold py_slice.
  destruct (slice_positions sl (length l)) as [pos|e] eqn:Hpos.
  - exists pos. eexists. split; [reflexivity|]. split; [reflexivity|].
    apply omap_lookup_length. eapply slice_positions_lt. exact Hpos.
  - exfalso. unfold slice_positions in Hpos.
    destruct (slice_indices_Ok sl (Z.of_nat (length l)) Hstep) as (a & b & Hab).
    rewrite Hab in Hpos. discriminate.
Qed.

(** ** Slicing a result *)

Section Slicing.
Context {F : Type} `{Float64 F}.

Lemma py_slice_nonempty {A} (sl : pyslice) (l l' : list A) (n : nat) :
  selects sl n = true -> length l = n -> py_slice sl l = Ok l' -> l' <> [].
Proof.
  unfold selects. intros Hsel <- Hl'.
  destruct (slice_positions sl (length l)) as [[|p ps]|e] eqn:Hpos;
    try discriminate.
  unfold py_slice in Hl'. rewrite Hpos in Hl'.
  apply slice_positions_lt in Hpos.
  assert (Hlen : length l' = length (p :: ps)).
  { injection Hl' as <-. exact (omap_lookup_length l (p :: ps) Hpos). }
  intros ->. discriminate Hlen.
Qed.

Lemma totalTime_nonempty (o : PottsResult F) :
  trajT o <> [] -> trajDt o <> [] -> exists x, totalTime o = Ok x.
Proof.
  unfold totalTime, index_last, index_first. intros HT HD.
  destruct (trajT o) as [|t0 ts] eqn:ET; [contradiction|].
  destruct (trajDt o) as [|d0 ds] eqn:ED; [contradiction|].
  destruct (last_is_Some (t0 :: ts)) as [_ [tl ->]]; [discriminate|].
  destruct (last_is_Some (d0 :: ds)) as [_ [dl ->]]; [discriminate|].
  simpl. eauto.
Qed.

Lemma update_obj_insert (h : gmap positive (PottsResult F)) (l : positive)
    (o o' : PottsResult F) (f : PottsResult F -> result (PottsResult F)) :
  f o = Ok o' -> update_obj (<[l := o]> h) l f = Ok (<[l := o']> h).
Proof.
  intros Hf. unfold update_obj. rewrite lookup_insert_eq, Hf. simpl.
  rewrite insert_insert_eq. reflexivity.
Qed.

Lemma retotal_Ok (o : PottsResult F) (b : bool) (total : F) :
  recordFreq_is_1 o = Ok b ->
  (if b then totalTime o else Ok (fsum (trajDt o))) = Ok total ->
  retotal o = Ok (set_totalSampleTime o total).
Proof. unfold retotal. intros -> Htot. simpl. rewrite Htot. reflexivity. Qed.

Lemma slice_frames_Ok (sl : pyslice) (o : PottsResult F) :
  default 1 (sl_step sl) <> 0 ->
  exists idx frames t dt e,
    py_slice sl (trajIdx o) = Ok idx /\
    py_slice sl (nd_frames (traj o)) = Ok frames /\
    py_slice sl (trajT o) = Ok t /\
    py_slice sl (trajDt o) = Ok dt /\
    py_slice sl (trajEnergy o) = Ok e /\
    slice_frames sl o =
    Ok (set_trajectory o idx
          (mk_ndarray3 (nd_rows (traj o)) (nd_cols (traj o)) frames) t dt e).
Proof.
  intros Hstep. unfold slice_frames.
  destruct (py_slice_Ok sl (trajIdx o) Hstep) as (? & idx & _ & -> & _).
  destruct (py_slice_Ok sl (nd_frames (traj o)) Hstep) as (? & frames & _ & -> & _).
  destruct (py_slice_Ok sl (trajT o) Hstep) as (? & t & _ & -> & _).
  destruct (py_slice_Ok sl (trajDt o) Hstep) as (? & dt & _ & -> & _).
  destruct (py_slice_Ok sl (trajEnergy o) Hstep) as (? & e & _ & -> & _).
  exists idx, frames, t, dt, e. simpl. repeat split; reflexivity.
Qed.

Lemma py_slice_step_zero {A} (sl : pyslice) (l : list A) :
  default 1 (sl_step sl) = 0 -> py_slice sl l = Raise ValueError.
Proof.
  intros Hstep. unfold py_slice, slice_positions, slice_indices.
  rewrite Hstep. reflexivity.
Qed.

Lemma py_slice_empty {A} (sl : pyslice) (l : list A) (n : nat) :
  default 1 (sl_step sl) <> 0 -> selects sl n = false -> length l = n ->
  py_slice sl l = Ok [].
Proof.
  intros Hstep Hsel <-. unfold selects in Hsel.
  destruct (py_slice_Ok sl l Hstep) as (pos & l' & Hpos & _ & _).
  unfold py_slice. rewrite Hpos in Hsel |- *.
  destruct pos as [|p pos]; [reflexivity | discriminate Hsel].
Qed.

Lemma update_obj_Raise (h : gmap positive (PottsResult F)) (l : positive)
    (o : PottsResult F) (f : PottsResult F -> result (PottsResult F)) (e : pyexc) :
  f o = Raise e -> update_obj (<[l := o]> h) l f = Raise e.
Proof.
  intros Hf. unfold update_obj. rewrite lookup_insert_eq, Hf. reflexivity.
Qed.

(** A slice of step 0 fails at the first array it is applied to. *)
Lemma getitem_step_zero (h : gmap positive (PottsResult F)) (self : positive)
    (o : PottsResult F) (sl : pyslice) :
  h !! self = Some o -> default 1 (sl_step sl) = 0 ->
  getitem h self sl = Raise ValueError.
Proof.
  intros Hself Hstep. unfold getitem. rewrite Hself.
  rewrite (update_obj_Raise h _ o (slice_frames sl) ValueError); [reflexivity|].
  unfold slice_frames. rewrite (py_slice_step_zero sl (trajIdx o) Hstep).
  reflexivity.
Qed.

(** A slice that selects nothing leaves no [time[-1]] to read. *)
Lemma getitem_empty_selection (h : gmap positive (PottsResult F)) (self : positive)
    (o : PottsResult F) (sl : pyslice) :
  h !! self = Some o -> frames_aligned o ->
  recordFreq_is_1 o = Ok true ->
  default 1 (sl_step sl) <> 0 ->
  selects sl (length (trajT o)) = false ->
  getitem h self sl = Raise IndexError.
Proof.
  intros Hself (HI & HS & HD & HE) Hfreq Hstep Hsel.
  destruct (slice_frames_Ok sl o Hstep)
    as (idx & frames & t & dt & e & Hidx & Hframes & Ht & Hdt & He & Hslice).
  rewrite (py_slice_empty sl (trajT o) _ Hstep Hsel eq_refl) in Ht.
  injection Ht as <-.
  unfold getitem. rewrite Hself.
  rewrite (update_obj_insert h _ o _ _ Hslice).
  change (Ok ?a ≫= ?f) with (f a). cbv beta.
  rewrite (update_obj_insert h _ _ _ (fun o => Ok (set_properties o ∅)) eq_refl).
  change (Ok ?a ≫= ?f) with (f a). cbv beta.
  rewrite (update_obj_Raise h _ _ retotal IndexError); [reflexivity|].
  unfold retotal.
  change (recordFreq_is_1 (set_properties (set_trajectory o idx _ [] dt e) ∅))
    with (recordFreq_is_1 o).
  rewrite Hfreq. reflexivity.
Qed.

End Slicing.

(** Slicing with a non-zero step, on a selection that is not empty when
    the record frequency is 1. *)
Lemma getitem_selection {F : Type} `{Float64 F}
    (h : gmap positive (PottsResult F)) (self : positive)
    (o : PottsResult F) (sl : pyslice) (b : bool) :
  h !! self = Some o ->
  frames_aligned o ->
  recordFreq_is_1 o = Ok b ->
  default 1 (sl_step sl) <> 0 ->
  (b = true -> selects sl (length (trajT o)) = true) ->
  exists (newItem : positive) (o' : PottsResult F),
    getitem h self sl = Ok (newItem, <[newItem := o']> h) /\
    h !! newItem = None /\
    (<[newItem := o']> h) !! self = Some o /\
    py_slice sl (trajIdx o) = Ok (trajIdx o') /\
    py_slice sl (nd_frames (traj o)) = Ok (nd_frames (traj o')) /\
    py_slice sl (trajT o) = Ok (trajT o') /\
    py_slice sl (trajDt o) = Ok (trajDt o') /\
    py_slice sl (trajEnergy o) = Ok (trajEnergy o') /\
    properties o' = ∅ /\
    params o' = params o /\
    (if b then totalTime o' = Ok (totalSampleTime o')
     else totalSampleTime o' = fsum (trajDt o')).
Proof.
  intros Hself (HI & HS & HD & HE) Hfreq Hstep Hsel.
  destruct (slice_frames_Ok sl o Hstep)
    as (idx & frames & t & dt & e & Hidx & Hframes & Ht & Hdt & He & Hslice).
  set (o1 := set_trajectory o idx
               (mk_ndarray3 (nd_rows (traj o)) (nd_cols (traj o)) frames) t dt e)
    in *.
  set (o2 := set_properties o1 ∅).
  assert (Hfresh : h !! fresh (dom h) = None).
  { apply not_elem_of_dom. apply is_fresh. }
  assert (Hne : self <> fresh (dom h)).
  { intros E. rewrite E in Hself. congruence. }
  assert (Htotal : exists total,
             (if b then totalTime o2 else Ok (fsum (trajDt o2))) = Ok total /\
             (b = true -> totalTime o2 = Ok total) /\
             (b = false -> total = fsum dt)).
  { destruct b.
    - destruct (totalTime_nonempty o2) as [x Hx].
      + simpl. eapply py_slice_nonempty; [apply Hsel; reflexivity| |exact Ht].
        reflexivity.
      + simpl. eapply py_slice_nonempty; [apply Hsel; reflexivity| |exact Hdt].
        exact HD.
      + exists x. split; [exact Hx|]. split; [auto | discriminate].
    - eexists. split; [reflexivity|]. split; [discriminate | reflexivity]. }
  destruct Htotal as (total & Htot & Htrue & Hfalse).
  exists (fresh (dom h)), (set_totalSampleTime o2 total).
  split; [|split; [exact Hfresh|split; [|repeat split; try assumption]]].
  - unfold getitem. rewrite Hself.
    rewrite (update_obj_insert h _ o o1 _ Hslice). simpl.
    rewrite (update_obj_insert h _ o1 o2 (fun o => Ok (set_properties o ∅)) eq_refl).
    simpl.
    rewrite (update_obj_insert h _ o2 (set_totalSampleTime o2 total) retotal).
    + reflexivity.
    + apply (retotal_Ok o2 b total); [exact Hfreq | exact Htot].
  - rewrite lookup_insert_ne by congruence. exact Hself.
  - destruct b; [apply Htrue; reflexivity | apply Hfalse; reflexivity].
Qed.

(** C9, as the code has it. For a loaded result and a slice with a
    non-zero step that, when the record frequency is 1, selects at least
    one frame, slicing returns a fresh object, independent of every
    object of the store: the five per-frame arrays are those of the
    source restricted to the slice, the cache of properties is empty, the
    parameters are those of the source, and the total sample time is
    time[-1] + dwellTime[-1] - time[0] of the sliced arrays when the
    record frequency is 1 and the sum of the sliced dwell times
    otherwise. The store changes at the new object only, so the source
    keeps its arrays, its cache and its total. With a record frequency
    of 1, every slice of non-zero step that selects no frame raises
    [IndexError]; every slice of step 0 raises [ValueError]. *)
Theorem getitem_independent_copy {F : Type} `{Float64 F}
    (h : gmap positive (PottsResult F)) (self : positive)
    (o : PottsResult F) (sl : pyslice) :
  h !! self = Some o ->
  (forall b : bool,
     frames_aligned o ->
     recordFreq_is_1 o = Ok b ->
     default 1 (sl_step sl) <> 0 ->
     (b = true -> selects sl (length (trajT o)) = true) ->
     exists (newItem : positive) (o' : PottsResult F),
       getitem h self sl = Ok (newItem, <[newItem := o']> h) /\
       h !! newItem = None /\
       (<[newItem := o']> h) !! self = Some o /\
       py_slice sl (trajIdx o) = Ok (trajIdx o') /\
       py_slice sl (nd_frames (traj o)) = Ok (nd_frames (traj o')) /\
       py_slice sl (trajT o) = Ok (trajT o') /\
       py_slice sl (trajDt o) = Ok (trajDt o') /\
       py_slice sl (trajEnergy o) = Ok (trajEnergy o') /\
       properties o' = ∅ /\
       params o' = params o /\
       (if b then totalTime o' = Ok (totalSampleTime o')
        else totalSampleTime o' = fsum (trajDt o')))
  /\
  (frames_aligned o ->
   recordFreq_is_1 o = Ok true ->
   default 1 (sl_step sl) <> 0 ->
   selects sl (length (trajT o)) = false ->
   getitem h self sl = Raise IndexError)
  /\
  (default 1 (sl_step sl) = 0 -> getitem h self sl = Raise ValueError).
Proof.
  intros Hself. split; [|split].
  - intros b Hal Hfreq Hstep Hsel.
    exact (getitem_selection h self o sl b Hself Hal Hfreq Hstep Hsel).
  - intros Hal Hfreq Hstep Hsel.
    exact (getitem_empty_selection h self o sl Hself Hal Hfreq Hstep Hsel).
  - intros Hstep. exact (getitem_step_zero h self o sl Hself Hstep).
Qed.

Example ex_loaded1_is_loaded :
  PottsResult_init (H := Qx) loadtxt_dec np_array_map_int_py3 dec_int dec_float
    ex_log1 ex_fullstate "./" = Ok ex_loaded1.
Proof. vm_compute. reflexivity. Qed.

(** C9, as stated, fails on a slice that selects no frame when the
    record frequency is 1 ([res[0:0]]): the new total is read from
    [time[-1]] of an empty array, an [IndexError]; and a slice of step 0
    is a [ValueError]. *)
Lemma empty_slice_raises :
  recordFreq_is_1 (H := Qx) ex_loaded1 = Ok true /\
  getitem (H := Qx) {[1%positive := ex_loaded1]} 1
    (mk_slice (Some 0) (Some 0) None) = Raise IndexError /\
  getitem (H := Qx) {[1%positive := ex_loaded1]} 1
    (mk_slice None None (Some 0)) = Raise ValueError.
Proof. repeat split; vm_compute; reflexivity. Qed.

Lemma getitem_independent_copy_witness :
  (exists (newItem : positive) (o' : PottsResult Q),
     getitem (H := Qx) {[1%positive := ex_loaded1]} 1 (mk_slice (Some 1) None None)
     = Ok (newItem, <[newItem := o']> {[1%positive := ex_loaded1]}) /\
     (<[newItem := o']> ({[1%positive := ex_loaded1]} : gmap positive (PottsResult Q)))
       !! 1%positive = Some ex_loaded1 /\
     py_slice (mk_slice (Some 1) None None) (trajT ex_loaded1) = Ok (trajT o') /\
     properties o' = ∅ /\
     totalTime (H := Qx) o' = Ok (totalSampleTime o')) /\
  getitem (H := Qx) {[1%positive := ex_loaded1]} 1 (mk_slice (Some 5) None None)
  = Raise IndexError /\
  getitem (H := Qx) {[1%positive := ex_loaded1]} 1 (mk_slice None None (Some 0))
  = Raise ValueError.
Proof.
  split; [|split].
  - destruct (getitem_independent_copy (H := Qx) {[1%positive := ex_loaded1]}
                1%positive ex_loaded1 (mk_slice (Some 1) None None))
      as (Hsel & _ & _); [reflexivity|].
    destruct (Hsel true)
      as (newItem & o' & Hget & _ & Hself & _ & _ & HT & _ & _ & Hprop & _ & Htotal).
    + repeat split; reflexivity.
    + reflexivity.
    + simpl. discriminate.
    + intros _. reflexivity.
    + exists newItem, o'. auto.
  - destruct (getitem_independent_copy (H := Qx) {[1%positive := ex_loaded1]}
                1%positive ex_loaded1 (mk_slice (Some 5) None None))
      as (_ & Hempty & _); [reflexivity|].
    apply Hempty.
    + repeat split; reflexivity.
    + reflexivity.
    + simpl. discriminate.
    + reflexivity.
  - destruct (getitem_independent_copy (H := Qx) {[1%positive := ex_loaded1]}
                1%positive ex_loaded1 (mk_slice None None (Some 0)))
      as (_ & _ & Hzero); [reflexivity|].
    apply Hzero. reflexivity.
Defined.

(** ** Lattices as tables *)

Lemma list_tabulate {A} (d : A) (n : nat) (l : list A) :
  length l = n -> l = map (fun i => nth i l d) (seq 0 n).
Proof.
  intros <-. apply (nth_ext _ _ d d).
  - rewrite length_map, length_seq. reflexivity.
  - intros i Hi.
    rewrite (nth_indep (map (fun i => nth i l d) (seq 0 (length l))) d (nth 0 l d))
      by (rewrite length_map, length_seq; exact Hi).
    rewrite (map_nth (fun i => nth i l d) (seq 0 (length l)) 0%nat i).
    rewrite seq_nth by exact Hi. reflexivity.
Qed.

Lemma tabulate2_get {A} (d : A) (n m : nat) (lat : list (list A)) :
  lattice_shaped n m lat -> lat = tabulate2 n m (lat_get d lat).
Proof.
  intros [Hn Hm]. unfold tabulate2, lat_get.
  rewrite (list_tabulate [] n lat Hn) at 1.
  apply map_ext_in. intros i Hi. apply in_seq in Hi.
  apply list_tabulate.
  rewrite Forall_forall in Hm. apply Hm, list_elem_of_In, nth_In. lia.
Qed.

Lemma lat_get_tabulate2 {A} (d : A) (n m : nat) (f : nat -> nat -> A) (i j : nat) :
  (i < n)%nat -> (j < m)%nat -> lat_get d (tabulate2 n m f) i j = f i j.
Proof.
  intros Hi Hj. unfold lat_get, tabulate2.
  rewrite (nth_indep _ [] (map (fun j => f 0%nat j) (seq 0 m)))
    by (rewrite length_map, length_seq; exact Hi).
  rewrite (map_nth (fun i => map (fun j => f i j) (seq 0 m)) (seq 0 n) 0%nat i).
  rewrite seq_nth by exact Hi. simpl.
  rewrite (nth_indep _ d (f i 0%nat)) by (rewrite length_map, length_seq; exact Hj).
  rewrite (map_nth (fun j => f i j) (seq 0 m) 0%nat j).
  rewrite seq_nth by exact Hj. reflexivity.
Qed.

Lemma tabulate2_shaped {A} (n m : nat) (f : nat -> nat -> A) :
  lattice_shaped n m (tabulate2 n m f).
Proof.
  split.
  - unfold tabulate2. rewrite length_map, length_seq. reflexivity.
  - unfold tabulate2. apply Forall_forall. intros row Hrow.
    apply list_elem_of_In, in_map_iff in Hrow as (i & <- & _).
    rewrite length_map, length_seq. reflexivity.
Qed.

Lemma zip_with_map_same {A B C X} (f : A -> B -> C) (g : X -> A) (k : X -> B)
    (l : list X) :
  zip_with f (map g l) (map k l) = map (fun x => f (g x) (k x)) l.
Proof. induction l as [|x l IH]; simpl; [reflexivity | rewrite IH; reflexivity]. Qed.

Lemma lat_zip_tabulate2 {A B C} (f : A -> B -> C) (n m : nat)
    (g : nat -> nat -> A) (k : nat -> nat -> B) :
  lat_zip f (tabulate2 n m g) (tabulate2 n m k)
  = tabulate2 n m (fun i j => f (g i j) (k i j)).
Proof.
  unfold lat_zip, tabulate2. rewrite zip_with_map_same.
  apply map_ext. intros i. apply zip_with_map_same.
Qed.

Lemma lat_map_tabulate2 {A B} (f : A -> B) (n m : nat) (g : nat -> nat -> A) :
  lat_map f (tabulate2 n m g) = tabulate2 n m (fun i j => f (g i j)).
Proof.
  unfold lat_map, tabulate2. rewrite map_map. apply map_ext. intros i.
  apply map_map.
Qed.

Lemma tabulate2_ext {A} (n m : nat) (f g : nat -> nat -> A) :
  (forall i j, (i < n)%nat -> (j < m)%nat -> f i j = g i j) ->
  tabulate2 n m f = tabulate2 n m g.
Proof.
  intros Hfg. unfold tabulate2. apply map_ext_in. intros i Hi.
  apply map_ext_in. intros j Hj. apply in_seq in Hi, Hj. apply Hfg; lia.
Qed.

Lemma roll_0 {A} (l : list A) : roll l 0 = l.
Proof.
  unfold roll. destruct l as [|x l]; [reflexivity|].
  change (- 0) with 0. rewrite Z.mod_0_l by (simpl; lia).
  simpl. rewrite app_nil_r. reflexivity.
Qed.

Lemma roll2_0 {A} (lat : list (list A)) : roll2 lat 0 0 = lat.
Proof.
  unfold roll2. change (- 0) with 0. rewrite roll_0.
  rewrite <- (map_id lat) at 2. apply map_ext. intros row. apply roll_0.
Qed.

(** ** Double sums *)

Lemma Qsum_app (l1 l2 : list Q) : (Qsum (l1 ++ l2) == Qsum l1 + Qsum l2)%Q.
Proof.
  induction l1 as [|x l1 IH]; simpl; [ring | rewrite IH; ring].
Qed.

Lemma Qsum_concat (ls : list (list Q)) : (Qsum (concat ls) == Qsum (map Qsum ls))%Q.
Proof.
  induction ls as [|l ls IH]; simpl; [reflexivity|].
  rewrite Qsum_app, IH. reflexivity.
Qed.

Lemma Qsum_map_ext {X} (f g : X -> Q) (l : list X) :
  (forall x, In x l -> (f x == g x)%Q) -> (Qsum (map f l) == Qsum (map g l))%Q.
Proof.
  induction l as [|x l IH]; intros Hfg; simpl; [reflexivity|].
  rewrite (Hfg x) by (left; reflexivity).
  rewrite IH by (intros y Hy; apply Hfg; right; exact Hy). reflexivity.
Qed.

Lemma Qsum_map_plus {X} (f g : X -> Q) (l : list X) :
  (Qsum (map (fun x => f x + g x) l) == Qsum (map f l) + Qsum (map g l))%Q.
Proof. induction l as [|x l IH]; simpl; [ring | rewrite IH; ring]. Qed.

Lemma Qsum_map_scale {X} (c : Q) (f : X -> Q) (l : list X) :
  (Qsum (map (fun x => c * f x) l) == c * Qsum (map f l))%Q.
Proof. induction l as [|x l IH]; simpl; [ring | rewrite IH; ring]. Qed.

Lemma Qsum2_ext (n m : nat) (f g : nat -> nat -> Q) :
  (forall i j, (i < n)%nat -> (j < m)%nat -> (f i j == g i j)%Q) ->
  (Qsum2 n m f == Qsum2 n m g)%Q.
Proof.
  intros Hfg. unfold Qsum2. apply Qsum_map_ext. intros i Hi.
  apply Qsum_map_ext. intros j Hj. apply in_seq in Hi, Hj. apply Hfg; lia.
Qed.

Lemma Qsum2_plus (n m : nat) (f g : nat -> nat -> Q) :
  (Qsum2 n m (fun i j => f i j + g i j) == Qsum2 n m f + Qsum2 n m g)%Q.
Proof.
  unfold Qsum2. rewrite <- Qsum_map_plus. apply Qsum_map_ext. intros i _.
  apply Qsum_map_plus.
Qed.

Lemma Qsum2_scale (n m : nat) (c : Q) (f : nat -> nat -> Q) :
  (Qsum2 n m (fun i j => c * f i j) == c * Qsum2 n m f)%Q.
Proof.
  unfold Qsum2. rewrite <- Qsum_map_scale. apply Qsum_map_ext. intros i _.
  apply Qsum_map_scale.
Qed.

Lemma Qsum2_zero (n m : nat) : (Qsum2 n m (fun _ _ => 0) == 0)%Q.
Proof.
  unfold Qsum2.
  assert (Hrow : forall k, (Qsum (map (fun _ : nat => 0%Q) (seq 0 k)) == 0)%Q).
  { intros k. induction (seq 0 k) as [|x l IH]; simpl; [reflexivity|].
    rewrite IH. ring. }
  rewrite (Qsum_map_ext _ (fun _ => 0%Q)) by (intros i _; apply Hrow).
  apply Hrow.
Qed.

(** A weighted sum over frames of double sums is the double sum of the
    weighted sums over frames. *)
Lemma Qsum_Qsum2_exchange {X} (n m : nat) (c : X -> Q)
    (g : X -> nat -> nat -> Q) (l : list X) :
  (Qsum (map (fun t => c t * Qsum2 n m (g t)) l)
   == Qsum2 n m (fun i j => Qsum (map (fun t => c t * g t i j) l)))%Q.
Proof.
  induction l as [|t l IH]; simpl.
  - rewrite Qsum2_zero. reflexivity.
  - rewrite IH, <- Qsum2_scale, <- Qsum2_plus. reflexivity.
Qed.

(** ** The correlation at zero offset *)

Lemma wrap64_small (z : Z) : - 2 ^ 63 <= z < 2 ^ 63 -> wrap64 z = z.
Proof.
  intros Hz. unfold wrap64. rewrite Z.mod_small by lia. lia.
Qed.

Lemma spins_bounded_get (a : ndarray3 Z) (frame : list (list Z)) (i j : nat) :
  spins_bounded a -> In frame (nd_frames a) ->
  Z.abs (lat_get 0 frame i j) <= 2 ^ 31.
Proof.
  unfold spins_bounded, lat_get. intros Hb Hin.
  rewrite Forall_forall in Hb. specialize (Hb frame (proj2 (list_elem_of_In _ _) Hin)).
  destruct (Nat.lt_ge_cases i (length frame)) as [Hi|Hi].
  - rewrite Forall_forall in Hb.
    specialize (Hb (nth i frame []) (proj2 (list_elem_of_In _ _) (nth_In _ _ Hi))).
    destruct (Nat.lt_ge_cases j (length (nth i frame []))) as [Hj|Hj].
    + rewrite Forall_forall in Hb.
      apply Hb, list_elem_of_In, nth_In. exact Hj.
    + rewrite nth_overflow by exact Hj. simpl. lia.
  - rewrite (nth_overflow frame) by exact Hi. destruct j; simpl; lia.
Qed.

Section SelfCorrelation.
Variable qsqrt : Q -> Q.
Local Hint Extern 0 (Float64 Q) => exact (Q_Float64 qsqrt) : typeclass_instances.

Lemma weighted_sum_pairs {X} (h : X -> Q) (xs : list X) (dt : list Q) :
  zip_with Qmult (map h xs) dt = map (fun p => h p.1 * p.2)%Q (zip xs dt).
Proof.
  revert dt. induction xs as [|x xs IH]; intros [|d dt]; simpl; try reflexivity.
  rewrite IH. reflexivity.
Qed.

(** The identity behind the variance: with [m] the weighted mean, the
    weighted sum of [(s - m)^2] is that of [s^2 - m^2]. *)
Lemma variance_identity {X} (s : X -> Q) (w : X -> Q) (l : list X) (m total : Q) :
  (total == Qsum (map w l))%Q ->
  (Qsum (map (fun x => s x * w x) l) == m * total)%Q ->
  (Qsum (map (fun x => ((s x - m) * (s x - m)) * w x) l)
   == Qsum (map (fun x => w x * (s x * s x - m * m)) l))%Q.
Proof.
  intros Htotal Hmean.
  assert (Hl : (Qsum (map (fun x => ((s x - m) * (s x - m)) * w x) l)
                == Qsum (map (fun x => s x * s x * w x) l)
                   - 2 * m * Qsum (map (fun x => s x * w x) l)
                   + m * m * Qsum (map w l))%Q).
  { clear. induction l as [|x l IH]; simpl; [ring | rewrite IH; ring]. }
  assert (Hr : (Qsum (map (fun x => w x * (s x * s x - m * m)) l)
                == Qsum (map (fun x => s x * s x * w x) l)
                   - m * m * Qsum (map w l))%Q).
  { clear. induction l as [|x l IH]; simpl; [ring | rewrite IH; ring]. }
  rewrite Hl, Hr, Hmean, <- Htotal. ring.
Qed.

Lemma lat_get_lat_map {A B} (d : A) (d' : B) (f : A -> B) (n m : nat)
    (lat : list (list A)) (i j : nat) :
  lattice_shaped n m lat -> (i < n)%nat -> (j < m)%nat ->
  lat_get d' (lat_map f lat) i j = f (lat_get d lat i j).
Proof.
  intros Hlat Hi Hj.
  rewrite (tabulate2_get d n m lat Hlat) at 1.
  rewrite lat_map_tabulate2. apply lat_get_tabulate2; assumption.
Qed.

Lemma lat_map_shaped {A B} (f : A -> B) (n m : nat) (lat : list (list A)) :
  lattice_shaped n m lat -> lattice_shaped n m (lat_map f lat).
Proof.
  intros [Hn Hm]. unfold lat_map. split.
  - rewrite length_map. exact Hn.
  - apply Forall_forall. intros row Hrow.
    apply list_elem_of_In, in_map_iff in Hrow as (row0 & <- & Hrow0).
    rewrite length_map. rewrite Forall_forall in Hm.
    apply Hm, list_elem_of_In. exact Hrow0.
Qed.

Lemma site_weighted (n m : nat) (frames : list (list (list Z))) (dt : list Q)
    (i j : nat) :
  Forall (lattice_shaped n m) frames -> (i < n)%nat -> (j < m)%nat ->
  map (fun lat => lat_get 0%Q lat i j)
      (zip_with (fun lat d => lat_map (fun x => x * d)%Q lat)
                (map (lat_map inject_Z) frames) dt)
  = zip_with Qmult (map (fun frame => inject_Z (lat_get 0 frame i j)) frames) dt.
Proof.
  intros Hwf Hi Hj. revert dt.
  induction Hwf as [|frame frames Hframe _ IH]; intros [|d dt]; simpl;
    try reflexivity.
  rewrite IH. f_equal.
  rewrite (lat_get_lat_map 0%Q 0%Q (fun x => x * d)%Q n m)
    by (try assumption; apply lat_map_shaped; assumption).
  rewrite (lat_get_lat_map 0 0%Q inject_Z n m) by assumption.
  reflexivity.
Qed.

(** The mean lattice, site by site, is the weighted mean of the site's
    series. *)
Lemma calculate_mean3_sites (a : ndarray3 Z) (dt : list Q) (total : Q) :
  wf_ndarray3 a -> length (nd_frames a) = length dt ->
  calculate_mean3 dt total (as_double a)
  = Ok (tabulate2 (nd_rows a) (nd_cols a)
          (fun i j => fsum (zip_with Qmult (site_series a i j) dt) / total)%Q).
Proof.
  intros Hwf Hlen. unfold calculate_mean3, as_double. simpl.
  rewrite broadcast0_same_length by (rewrite length_map; exact Hlen).
  simpl. f_equal. apply tabulate2_ext. intros i j Hi Hj.
  unfold site_series. rewrite (site_weighted (nd_rows a) (nd_cols a)) by assumption.
  reflexivity.
Qed.

(** The spatial mean of line 264 on one frame, as a double sum. *)
Lemma corrMean_table (n m : nat) (mean : nat -> nat -> Q) (g : nat -> nat -> Z) :
  (forall i j, (Z.abs (g i j) <= 2 ^ 31)%Z) ->
  (lat_mean n m
     (netCorr_frame (tabulate2 n m mean) (roll2 (tabulate2 n m mean) 0 0) 0 0
        (tabulate2 n m g))
   == Qsum2 n m (fun i j => inject_Z (g i j) * inject_Z (g i j) - mean i j * mean i j)
      / inject_Z (Z.of_nat (n * m)))%Q.
Proof.
  intros Hb. unfold lat_mean, netCorr_frame. rewrite !roll2_0.
  rewrite !lat_zip_tabulate2, lat_map_tabulate2, lat_zip_tabulate2.
  simpl. rewrite fsum_Qsum, Qsum_concat. unfold tabulate2. rewrite map_map.
  apply Qmult_comp; [|reflexivity].
  unfold Qsum2. apply Qsum_map_ext. intros i Hi. apply Qsum_map_ext. intros j Hj.
  rewrite wrap64_small.
  - rewrite inject_Z_mult. reflexivity.
  - specialize (Hb i j). nia.
Qed.

Lemma corrMean_frame (n m : nat) (mean : nat -> nat -> Q) (frame : list (list Z)) :
  lattice_shaped n m frame ->
  (forall i j, (Z.abs (lat_get 0%Z frame i j) <= 2 ^ 31)%Z) ->
  (lat_mean n m
     (netCorr_frame (tabulate2 n m mean) (roll2 (tabulate2 n m mean) 0 0) 0 0 frame)
   == Qsum2 n m (fun i j =>
                   inject_Z (lat_get 0%Z frame i j) * inject_Z (lat_get 0%Z frame i j)
                   - mean i j * mean i j)
      / inject_Z (Z.of_nat (n * m)))%Q.
Proof.
  intros Hframe Hb.
  rewrite (tabulate2_get 0%Z n m frame Hframe) at 1.
  apply corrMean_table. exact Hb.
Qed.

Lemma In_zip_l {A B} (xs : list A) (ys : list B) (p : A * B) :
  In p (zip xs ys) -> In p.1 xs.
Proof.
  revert ys. induction xs as [|x xs IH]; intros [|y ys]; simpl; try tauto.
  intros [<- | Hp]; [left; reflexivity | right; eapply IH; exact Hp].
Qed.

Lemma map_snd_zip {A B} (xs : list A) (ys : list B) :
  length xs = length ys -> map snd (zip xs ys) = ys.
Proof.
  revert ys. induction xs as [|x xs IH]; intros [|y ys]; simpl; try discriminate.
  - reflexivity.
  - intros [= E]. rewrite IH by exact E. reflexivity.
Qed.

Lemma calculate_var_of_mean_Ok (dt q : list Q) (total : Q) :
  length q = length dt -> exists v, calculate_var_of_mean dt total q = Ok v.
Proof.
  intros E. unfold calculate_var_of_mean. rewrite calculate_mean_Q by exact E.
  simpl. rewrite broadcast0_same_length by (rewrite length_map; exact E).
  simpl. eauto.
Qed.

(** The value of [_calculate_spatial_correlation(0, 0)]. *)
Lemma self_correlation_value (self : PottsResult Q) :
  is_Ok (param_int self "N") = true ->
  is_Ok (param_int self "M") = true ->
  wf_ndarray3 (traj self) ->
  length (nd_frames (traj self)) = length (trajDt self) ->
  exists err,
    _calculate_spatial_correlation self 0 0
    = Ok ((fsum (zip_with Qmult
                   (map (fun frame =>
                           let mean :=
                             tabulate2 (nd_rows (traj self)) (nd_cols (traj self))
                               (fun i j =>
                                  fsum (zip_with Qmult (site_series (traj self) i j)
                                          (trajDt self))
                                  / totalSampleTime self) in
                           lat_mean (nd_rows (traj self)) (nd_cols (traj self))
                             (netCorr_frame mean (roll2 mean 0 0) 0 0 frame))
                        (nd_frames (traj self)))
                   (trajDt self))
           / totalSampleTime self)%Q, err).
Proof.
  intros HN HM Hwf Hlen. unfold _calculate_spatial_correlation.
  destruct (param_int self "N") as [N|]; [|discriminate].
  destruct (param_int self "M") as [M|]; [|discriminate].
  rewrite (calculate_mean3_sites _ _ _ Hwf Hlen).
  change (Ok ?a ≫= ?f) with (f a). cbv beta.
  change (Ok ?a ≫= ?f) with (f a). cbv beta.
  change (Ok ?a ≫= ?f) with (f a). cbv beta.
  rewrite calculate_mean_Q by (rewrite length_map; exact Hlen).
  change (Ok ?a ≫= ?f) with (f a). cbv beta.
  match goal with
  | |- context [calculate_var_of_mean ?d ?t ?q] =>
      destruct (calculate_var_of_mean_Ok d q t) as [v ->];
      [rewrite length_map; exact Hlen|]
  end.
  change (Ok ?a ≫= ?f) with (f a). cbv beta.
  eexists. reflexivity.
Qed.

(** C6, as the code has it, in exact arithmetic. For a valid trajectory
    whose total sample time is the sum of its dwell times and is not
    zero, the correlation
    at zero offset C(0,0) is the spatial mean, over the sites, of the
    time-weighted variance of each site's spin along the frames
    ([calculate_var] of the site's series): the correlator subtracts the
    square of the site-wise time mean, not of the per-frame spatial
    mean. *)
Theorem self_correlation_is_site_variance (self : PottsResult Q) :
  is_Ok (param_int self "N") = true ->
  is_Ok (param_int self "M") = true ->
  wf_ndarray3 (traj self) ->
  spins_bounded (traj self) ->
  length (nd_frames (traj self)) = length (trajDt self) ->
  (totalSampleTime self == Qsum (trajDt self))%Q ->
  ~ (totalSampleTime self == 0)%Q ->
  exists (corr err : Q) (vars : list (list Q)),
    _calculate_spatial_correlation self 0 0 = Ok (corr, err) /\
    lattice_shaped (nd_rows (traj self)) (nd_cols (traj self)) vars /\
    (forall i j, (i < nd_rows (traj self))%nat -> (j < nd_cols (traj self))%nat ->
       calculate_var (trajDt self) (totalSampleTime self)
         (site_series (traj self) i j)
       = Ok (lat_get 0%Q vars i j)) /\
    (corr == lat_mean (nd_rows (traj self)) (nd_cols (traj self)) vars)%Q.
Proof.
  intros HN HM Hwf Hb Hlen Htot Hnz.
  destruct (self_correlation_value self HN HM Hwf Hlen) as [err Hcorr].
  set (a := traj self) in *. set (R := nd_rows a) in *. set (C := nd_cols a) in *.
  set (dt := trajDt self) in *. set (T := totalSampleTime self) in *.
  set (mean := fun i j : nat =>
                 (fsum (zip_with Qmult (site_series a i j) dt) / T)%Q) in *.
  set (E := fun i j : nat =>
              (fsum (zip_with Qmult
                       (map (fun x => let d := x - mean i j in d * d)
                            (site_series a i j)) dt) / T)%Q).
  set (P := zip (nd_frames a) dt).
  set (S := fun (p : list (list Z) * Q) (i j : nat) =>
              inject_Z (lat_get 0%Z p.1 i j)).
  eexists _, err, (tabulate2 R C E).
  split; [exact Hcorr|]. split; [apply tabulate2_shaped|]. split.
  - intros i j Hi Hj. rewrite lat_get_tabulate2 by assumption.
    rewrite calculate_var_Q by (unfold site_series; rewrite length_map; exact Hlen).
    reflexivity.
  - cbv zeta.
    (* the left-hand side, frame by frame *)
    rewrite fsum_Qsum, weighted_sum_pairs. fold P.
    rewrite (Qsum_map_ext _
               (fun p => (p.2 * / inject_Z (Z.of_nat (R * C)))
                         * Qsum2 R C (fun i j => S p i j * S p i j
                                                 - mean i j * mean i j))%Q).
    2:{ intros p Hp. apply In_zip_l in Hp.
        rewrite corrMean_frame.
        - unfold S, Qdiv. ring.
        - unfold wf_ndarray3 in Hwf. rewrite Forall_forall in Hwf.
          apply Hwf, list_elem_of_In. exact Hp.
        - intros i j. apply (spins_bounded_get a); assumption. }
    rewrite Qsum_Qsum2_exchange.
    (* the right-hand side, site by site *)
    unfold lat_mean. rewrite fsum_Qsum, Qsum_concat. unfold tabulate2 at 1.
    rewrite map_map.
    match goal with
    | |- (?lhs == _)%Q =>
        change (lhs == Qsum2 R C E / inject_Z (Z.of_nat (R * C)))%Q
    end.
    unfold Qdiv.
    rewrite (Qmult_comm _ (/ T)), (Qmult_comm _ (/ inject_Z (Z.of_nat (R * C)))).
    rewrite <- !Qsum2_scale.
    apply Qsum2_ext. intros i j Hi Hj.
    unfold E, site_series. rewrite map_map, fsum_Qsum, weighted_sum_pairs.
    fold P. cbv zeta.
    match goal with
    | |- (_ == _ * (Qsum ?X / _))%Q =>
        assert (Hvar : (Qsum X
                        == Qsum (map (fun p => p.2 * (S p i j * S p i j
                                                      - mean i j * mean i j)) P))%Q)
    end.
    { apply (variance_identity (fun p => S p i j) snd P (mean i j) T).
      - unfold P. rewrite map_snd_zip by exact Hlen. exact Htot.
      - unfold mean, site_series. rewrite fsum_Qsum, weighted_sum_pairs. fold P.
        unfold S.
        match goal with
        | |- (?X == _)%Q => change (X == X / T * T)%Q
        end.
        field. exact Hnz. }
    rewrite Hvar.
    rewrite (Qsum_map_ext (fun p => p.2 * / inject_Z (Z.of_nat (R * C))
                                    * (S p i j * S p i j - mean i j * mean i j))
               (fun p => / inject_Z (Z.of_nat (R * C))
                         * (p.2 * (S p i j * S p i j - mean i j * mean i j))))%Q
      by (intros p _; ring).
    rewrite Qsum_map_scale. unfold Qdiv. ring.
Qed.

End SelfCorrelation.

Example ex_loaded_is_loaded :
  PottsResult_init (H := Qx) loadtxt_dec np_array_map_int_py3 dec_int dec_float
    ex_log ex_fullstate "./" = Ok ex_loaded.
Proof. vm_compute. reflexivity. Qed.

(** C6, as stated, fails on the loaded artifact [ex_fullstate]: C(0,0) is
    3/32, the time-weighted mean of the per-frame spatial variance is
    3/16. *)
Lemma self_correlation_is_not_frame_variance :
  (_calculate_spatial_correlation (H := Qx) ex_loaded 0 0
     ≫= fun c => Ok (Qred c.1)) = Ok (3 # 32)%Q /\
  (calculate_mean (H := Qx) (trajDt ex_loaded) (totalSampleTime ex_loaded)
     (map (frame_spatial_variance (H := Qx) 1 2) (nd_frames (traj ex_loaded)))
     ≫= fun v => Ok (Qred v)) = Ok (3 # 16)%Q /\
  ~ (3 # 32 == 3 # 16)%Q.
Proof.
  split; [|split].
  - vm_compute. reflexivity.
  - vm_compute. reflexivity.
  - intros E. discriminate E.
Qed.

Lemma self_correlation_is_site_variance_witness :
  exists (corr err : Q) (vars : list (list Q)),
    _calculate_spatial_correlation (H := Qx) ex_loaded 0 0 = Ok (corr, err) /\
    lattice_shaped 1 2 vars /\
    (forall i j, (i < 1)%nat -> (j < 2)%nat ->
       calculate_var (H := Qx) (trajDt ex_loaded) (totalSampleTime ex_loaded)
         (site_series (H := Qx) (traj ex_loaded) i j)
       = Ok (lat_get 0%Q vars i j)) /\
    (corr == lat_mean (H := Qx) 1 2 vars)%Q.
Proof.
  apply (self_correlation_is_site_variance Qsqrt_z ex_loaded).
  - reflexivity.
  - reflexivity.
  - repeat constructor.
  - repeat constructor; discriminate.
  - reflexivity.
  - reflexivity.
  - intros E. discriminate E.
Defined.

(** ** The cache of shape-dependent observables *)

Section Cache.
Context {F : Type} `{Float64 F}.

Lemma param_int_set_properties (self : PottsResult F)
    (p : gmap string (ndval F * ndval F)) (k : string) :
  param_int (set_properties self p) k = param_int self k.
Proof. reflexivity. Qed.

Lemma correlation_bounds_set_properties (self : PottsResult F)
    (p : gmap string (ndval F * ndval F)) (cutoff : cutoff_t) :
  correlation_bounds (set_properties self p) cutoff = correlation_bounds self cutoff.
Proof. destruct cutoff; reflexivity. Qed.

Lemma recalculate_spatial_correlation_Ok (self self' : PottsResult F)
    (cutoff : cutoff_t) (v : pyret F) :
  recalculate_spatial_correlation self cutoff = Ok (v, self') ->
  exists bounds corr err,
    correlation_bounds self cutoff = Ok bounds /\
    v = RArray (Mat corr) /\
    self' = set_properties self
              (<["spatialCorrelation"%string := (Mat corr, Mat err)]> (properties self)).
Proof.
  unfold recalculate_spatial_correlation. intros Hr.
  inv_bind Hr. destruct a as [Nmax Mmax]. inv_bind Hr. inv_bind Hr.
  injection Hr as <- <-. eauto 6.
Qed.

Lemma get_lambda_cutoff (self : PottsResult F) (c : Z) :
  get_lambda self (Some c) = Raise UnboundLocalError.
Proof.
  unfold get_lambda. simpl.
  destruct (properties self !! "Lambda"%string); reflexivity.
Qed.

End Cache.

(** C4 at its failing input. With an explicit cutoff the Lambda
    computation never returns: the bound [Nmax] is assigned only when the
    cutoff is [None], so [np.zeros(Nmax)] reads an unbound local. *)
Theorem recalculate_lambda_cutoff_raises {F : Type} `{Float64 F}
    (self : PottsResult F) (c : Z) :
  recalculate_lambda self (Some c) = Raise UnboundLocalError.
Proof. reflexivity. Qed.

(** C5 at its failing input. Once the spatial correlation is cached by
    [recalculate_spatial_correlation], the getter called with the same
    cutoff raises [AttributeError]: the cache entry is a tuple, and the
    getter asks it for its [shape]. The getter of Lambda raises
    [UnboundLocalError] on every explicit cutoff. *)
Theorem cached_correlation_getter_raises {F : Type} `{Float64 F}
    (self self' : PottsResult F) (cutoff : cutoff_t) (v : pyret F) :
  recalculate_spatial_correlation self cutoff = Ok (v, self') ->
  get_spatial_correlation self' cutoff = Raise AttributeError
  /\ forall c, get_lambda self' (Some c) = Raise UnboundLocalError.
Proof.
  intros Hr. split; [|intros c; apply get_lambda_cutoff].
  apply recalculate_spatial_correlation_Ok in Hr
    as (bounds & corr & err & Hb & _ & ->).
  unfold get_spatial_correlation.
  rewrite correlation_bounds_set_properties, Hb. destruct bounds as [Nmax Mmax].
  simpl. rewrite lookup_insert_eq. reflexivity.
Qed.

Example ex_loaded22_is_loaded :
  PottsResult_init (H := Qx) loadtxt_dec np_array_map_int_py3 dec_int dec_float
    ex_log22 ex_fullstate22 "./" = Ok ex_loaded22.
Proof. vm_compute. reflexivity. Qed.

Example recalculate_lambda_ex :
  first_value (recalculate_lambda (H := Qx) ex_loaded22 None) = Ok (3 # 64)%Q /\
  recalculate_lambda (H := Qx) ex_loaded22 (Some 1) = Raise UnboundLocalError.
Proof. split; vm_compute; reflexivity. Qed.

Lemma cached_correlation_getter_raises_witness :
  exists (v : pyret Q) (self' : PottsResult Q),
    recalculate_spatial_correlation (H := Qx) ex_loaded22 CNone = Ok (v, self') /\
    get_spatial_correlation (H := Qx) self' CNone = Raise AttributeError /\
    forall c, get_lambda (H := Qx) self' (Some c) = Raise UnboundLocalError.
Proof.
  destruct (recalculate_spatial_correlation (H := Qx) ex_loaded22 CNone)
    as [[v self']|e] eqn:Hr.
  - exists v, self'. split; [reflexivity|].
    exact (cached_correlation_getter_raises (H := Qx) ex_loaded22 self' CNone v Hr).
  - exfalso. vm_compute in Hr. discriminate Hr.
Defined.

(** ** Lambda on the default bound *)

Lemma mapM_Ok {A B} (f : A -> result B) (l : list A) (ys : list B) :
  mapM f l = Ok ys ->
  length ys = length l /\
  forall i x, l !! i = Some x -> exists y, f x = Ok y /\ ys !! i = Some y.
Proof.
  revert ys. induction l as [|a l IH]; intros ys Hys; simpl in Hys.
  - injection Hys as <-. split; [reflexivity|]. intros i x Hx. discriminate.
  - inv_bind Hys. inv_bind Hys. injection Hys as <-.
    destruct (IH _ Ha1) as [Hlen Hlook]. split; [simpl; congruence|].
    intros [|i] x Hx; simpl in Hx.
    + injection Hx as <-. eauto.
    + apply Hlook. exact Hx.
Qed.

Lemma mapM_total {A B} (f : A -> result B) (l : list A) :
  (forall x, In x l -> exists y, f x = Ok y) -> exists ys, mapM f l = Ok ys.
Proof.
  induction l as [|a l IH]; intros Hf; simpl.
  - eauto.
  - destruct (Hf a (or_introl eq_refl)) as [y ->].
    destruct IH as [ys ->]; [intros x Hx; apply Hf; right; exact Hx|].
    simpl. eauto.
Qed.

Lemma range_lookup (n k : Z) :
  0 <= k < n -> range n !! Z.to_nat k = Some k.
Proof.
  intros Hk. unfold range. rewrite list_lookup_fmap.
  rewrite lookup_seq_lt by lia. simpl. f_equal. lia.
Qed.

Lemma length_range (n : Z) : length (range n) = Z.to_nat n.
Proof. unfold range. rewrite length_map, length_seq. reflexivity. Qed.

Section LambdaDefault.
Context {F : Type} `{Float64 F}.

(** The correlation of one offset is computed on every result whose
    parameters hold [N] and [M] and whose frames and dwell times have
    one length. *)
Lemma _calculate_spatial_correlation_total (self : PottsResult F) (i j : Z) :
  is_Ok (param_int self "N") = true ->
  is_Ok (param_int self "M") = true ->
  length (nd_frames (traj self)) = length (trajDt self) ->
  exists c, _calculate_spatial_correlation self i j = Ok c.
Proof.
  intros HN HM Hlen. unfold _calculate_spatial_correlation.
  destruct (param_int self "N") as [N|]; [|discriminate].
  destruct (param_int self "M") as [M|]; [|discriminate].
  unfold calculate_mean3, calculate_mean, calculate_var_of_mean, calculate_mean.
  simpl.
  rewrite broadcast0_same_length by (rewrite length_map; exact Hlen).
  simpl.
  rewrite broadcast0_same_length by (rewrite length_map; exact Hlen).
  simpl.
  rewrite broadcast0_same_length by (rewrite !length_map; exact Hlen).
  simpl. eauto.
Qed.

(** With no cutoff, on every result with parameters [N >= 0] and
    [M >= 0] and as many frames as dwell times, the Lambda computation
    returns, caches what it returns, and for every [k] below
    [min(N // 2, M // 2)] its value is [(C(k,0) + C(0,k)) / 2] and its
    error [sqrt((err(C(k,0))^2 + err(C(0,k))^2) / 2)]. *)
Theorem recalculate_lambda_default (self : PottsResult F) (N M : Z) :
  param_int self "N" = Ok N ->
  param_int self "M" = Ok M ->
  0 <= N -> 0 <= M ->
  length (nd_frames (traj self)) = length (trajDt self) ->
  exists (lam err : list F) (self' : PottsResult F),
    recalculate_lambda self None = Ok (RTuple (Vec lam, Vec err), self') /\
    properties self' !! "Lambda"%string = Some (Vec lam, Vec err) /\
    length lam = Z.to_nat (Z.min (N / 2) (M / 2)) /\
    length err = Z.to_nat (Z.min (N / 2) (M / 2)) /\
    forall k, 0 <= k < Z.min (N / 2) (M / 2) ->
      exists c1 e1 c2 e2,
        _calculate_spatial_correlation self k 0 = Ok (c1, e1) /\
        _calculate_spatial_correlation self 0 k = Ok (c2, e2) /\
        lam !! Z.to_nat k = Some (fdiv (fadd c1 c2) (of_int 2)) /\
        err !! Z.to_nat k
        = Some (fpow_half (fdiv (fadd (fsquare e1) (fsquare e2)) (of_int 2))).
Proof.
  intros HN HM HN0 HM0 Hlen.
  set (Nmax := Z.min (N / 2) (M / 2)).
  assert (HNmax : 0 <= Nmax).
  { unfold Nmax. apply Z.min_glb; apply Z.div_pos; lia. }
  assert (Htot : forall i j, exists c, _calculate_spatial_correlation self i j = Ok c).
  { intros i j. apply _calculate_spatial_correlation_total;
      [rewrite HN | rewrite HM | exact Hlen]; reflexivity. }
  destruct (mapM_total (fun i => _calculate_spatial_correlation self i 0) (range Nmax))
    as [V HV]; [intros x _; apply Htot|].
  destruct (mapM_total (fun j => _calculate_spatial_correlation self 0 j) (range Nmax))
    as [Hc HHc]; [intros x _; apply Htot|].
  destruct (mapM_Ok _ _ _ HV) as [HVlen HVlook].
  destruct (mapM_Ok _ _ _ HHc) as [HHlen HHlook].
  eexists _, _, _. split; [|split; [|split; [|split]]].
  - unfold recalculate_lambda, lambda_bound. rewrite HN, HM. simpl.
    fold Nmax. unfold np_zeros_check. simpl.
    destruct (Z.leb_spec 0 Nmax) as [_|Hneg]; [|lia]. simpl.
    rewrite HV. simpl. rewrite HHc. simpl. reflexivity.
  - simpl. apply lookup_insert_eq.
  - rewrite length_zip_with, HVlen, HHlen, length_range. lia.
  - rewrite length_zip_with, HVlen, HHlen, length_range. lia.
  - intros k Hk.
    destruct (HVlook _ _ (range_lookup Nmax k Hk)) as ([c1 e1] & Hc1 & HVk).
    destruct (HHlook _ _ (range_lookup Nmax k Hk)) as ([c2 e2] & Hc2 & HHk).
    exists c1, e1, c2, e2. split; [exact Hc1|]. split; [exact Hc2|].
    rewrite !lookup_zip_with, HVk, HHk. simpl. split; reflexivity.
Qed.

End LambdaDefault.

Lemma recalculate_lambda_default_witness :
  exists (lam err : list Q) (self' : PottsResult Q),
    recalculate_lambda (H := Qx) ex_loaded22 None
    = Ok (RTuple (Vec lam, Vec err), self') /\
    length lam = 1%nat /\
    exists c1 e1 c2 e2,
      _calculate_spatial_correlation (H := Qx) ex_loaded22 0 0 = Ok (c1, e1) /\
      _calculate_spatial_correlation (H := Qx) ex_loaded22 0 0 = Ok (c2, e2) /\
      lam !! 0%nat = Some ((c1 + c2) / 2)%Q.
Proof.
  destruct (recalculate_lambda_default (H := Qx) ex_loaded22 2 2)
    as (lam & err & self' & Hr & _ & Hlen & _ & Hk); try reflexivity; try lia.
  exists lam, err, self'. split; [exact Hr|]. split; [exact Hlen|].
  destruct (Hk 0 ltac:(vm_compute; split; [discriminate | reflexivity]))
    as (c1 & e1 & c2 & e2 & H1 & H2 & Hl & _).
  exists c1, e1, c2, e2. auto.
Defined.

(** ** Decoding an OnlyChange artifact *)

(** C2 at its failing input. Under Python 3 no OnlyChange artifact is
    decoded: the loader raises on every one, and on a well-formed one
    (integer parameters [N] and [M], an Initial State entry on the second
    line) the exception is the [TypeError] of
    [np.array(map(int, ...), dtype=np.int64)] on line 136, before any
    flip is replayed. *)
Theorem onlychange_never_loads {F : Type} `{Float64 F}
    (np_loadtxt : string -> result (ndval F))
    (self : PottsResult F) (trajFile : string) :
  search_trajType (first_line trajFile) = Some "OnlyChange"%string ->
  raises (load_traj np_loadtxt np_array_map_int_py3 self trajFile)
  /\ (is_Ok (param_int self "N") = true ->
      is_Ok (param_int self "M") = true ->
      no_initial_state trajFile = false ->
      load_traj np_loadtxt np_array_map_int_py3 self trajFile = Raise TypeError).
Proof.
  intros Hmark.
  assert (Hload : load_traj np_loadtxt np_array_map_int_py3 self trajFile
                  = (_load_onlychange_traj np_loadtxt np_array_map_int_py3 self trajFile
                     ≫= fun self' => totalTime self'
                     ≫= fun total => Ok (set_totalSampleTime self' total))).
  { unfold load_traj. unfold first_line in Hmark.
    destruct (readline (open_rt trajFile)) as [line1 rest]. simpl in Hmark.
    rewrite Hmark. reflexivity. }
  assert (Hcases : raises (_load_onlychange_traj np_loadtxt np_array_map_int_py3
                             self trajFile)
                   /\ (is_Ok (param_int self "N") = true ->
                       is_Ok (param_int self "M") = true ->
                       no_initial_state trajFile = false ->
                       _load_onlychange_traj np_loadtxt np_array_map_int_py3
                         self trajFile = Raise TypeError)).
  { unfold no_initial_state. rewrite Hmark.
    unfold _load_onlychange_traj, second_line.
    destruct (param_int self "N") as [N|e];
      [|split; [exists e; reflexivity | discriminate]].
    destruct (param_int self "M") as [M|e];
      [|split; [exists e; reflexivity | discriminate]].
    simpl. destruct (readline (open_rt trajFile)) as [line1 r]. simpl.
    destruct (readline r) as [line2 r']. simpl.
    destruct (split "=" (strip line2)) as [|k [|v [|x l]]];
      try (split; [exists ValueError; reflexivity | discriminate]).
    destruct (contains "Initial State" k); simpl.
    - split; [exists TypeError; reflexivity | reflexivity].
    - split; [exists KeyError; reflexivity | discriminate]. }
  destruct Hcases as [[e He] Htype]. rewrite Hload. split.
  - exists e. rewrite He. reflexivity.
  - intros HN HM Hinit. rewrite (Htype HN HM Hinit). reflexivity.
Qed.

Lemma onlychange_never_loads_witness :
  raises (load_traj (H := Qx) loadtxt_dec np_array_map_int_py3
            (unloaded (H := Qx) ex_params) ex_onlychange)
  /\ load_traj (H := Qx) loadtxt_dec np_array_map_int_py3
       (unloaded (H := Qx) ex_params) ex_onlychange = Raise TypeError.
Proof.
  destruct (onlychange_never_loads (H := Qx) loadtxt_dec
              (unloaded (H := Qx) ex_params) ex_onlychange)
    as [Hraises Htype]; [reflexivity|].
  split; [exact Hraises|]. apply Htype; reflexivity.
Defined.

(** ** Contiguous slices and reshaping *)

Lemma np_index_nat (n i : nat) : (i < n)%nat -> np_index n (Z.of_nat i) = Ok i.
Proof.
  intros Hi. unfold np_index.
  destruct (Z.leb_spec 0 (Z.of_nat i)); [|lia].
  destruct (Z.ltb_spec (Z.of_nat i) (Z.of_nat n)); [|lia].
  simpl. rewrite Nat2Z.id. reflexivity.
Qed.

Lemma omap_lookup_seq {A} (l : list A) (n : nat) :
  forall a, (a + n <= length l)%nat ->
    omap (M := list) (fun i : nat => l !! i) (seq a n) = take n (drop a l).
Proof.
  induction n as [|n IH]; intros a Ha.
  - reflexivity.
  - destruct (lookup_lt_is_Some_2 l a ltac:(lia)) as [x Hx].
    rewrite (drop_S l x a Hx). cbn [seq take].
    change (omap (M := list) (fun i : nat => l !! i) (a :: seq (S a) n))
      with (match l !! a with
            | Some y => y :: omap (M := list) (fun i : nat => l !! i) (seq (S a) n)
            | None => omap (M := list) (fun i : nat => l !! i) (seq (S a) n)
            end).
    rewrite Hx, IH by lia. reflexivity.
Qed.

Lemma map_seq_offset (a n : nat) :
  forall s, map (fun k => Z.to_nat (Z.of_nat a + Z.of_nat k * 1)) (seq s n)
            = seq (a + s) n.
Proof.
  induction n as [|n IH]; intros s; [reflexivity|].
  cbn [seq map]. rewrite IH. f_equal; [lia | f_equal; lia].
Qed.

(** A slice of step one is a [take] of a [drop]. *)
Lemma py_slice_unit {A} (sl : pyslice) (l : list A) (a b : nat) :
  slice_indices sl (Z.of_nat (length l)) = Ok (Z.of_nat a, Z.of_nat b, 1) ->
  (a <= b <= length l)%nat ->
  py_slice sl l = Ok (take (b - a) (drop a l)).
Proof.
  intros Hidx Hab. unfold py_slice, slice_positions. rewrite Hidx.
  change (Ok ?x ≫= ?f) with (f x). cbv beta iota.
  change (Ok ?x ≫= ?f) with (f x). cbv beta.
  f_equal.
  assert (Hlen : Z.to_nat (slice_length (Z.of_nat a) (Z.of_nat b) 1) = (b - a)%nat).
  { unfold slice_length. simpl.
    destruct (Z.ltb_spec (Z.of_nat a) (Z.of_nat b)).
    - rewrite Z.div_1_r. lia.
    - lia. }
  rewrite Hlen.
  assert (Hpos : map (fun k => Z.to_nat (Z.of_nat a + Z.of_nat k * 1)) (seq 0 (b - a))
                 = seq a (b - a)).
  { rewrite (map_seq_offset a (b - a) 0), Nat.add_0_r. reflexivity. }
  rewrite Hpos. apply omap_lookup_seq. lia.
Qed.

Lemma reshape_concat {A} (k : nat) (ls : list (list A)) :
  Forall (fun l => length l = k) ls ->
  reshape (replicate (length ls) k) (concat ls) = ls.
Proof.
  induction 1 as [|l ls Hl _ IH]; [reflexivity|].
  cbn [length replicate concat reshape].
  rewrite take_app_length' by (symmetry; exact Hl).
  rewrite drop_app_length' by (symmetry; exact Hl). rewrite IH. reflexivity.
Qed.

Lemma length_concat_uniform {A} (k : nat) (ls : list (list A)) :
  Forall (fun l => length l = k) ls -> length (concat ls) = (length ls * k)%nat.
Proof.
  induction 1 as [|l ls Hl _ IH]; [reflexivity|].
  simpl. rewrite length_app, IH, Hl. reflexivity.
Qed.

Lemma mapM_Ok_map {A B} (f : A -> result B) (g : A -> B) (l : list A) :
  (forall x, In x l -> f x = Ok (g x)) -> mapM f l = Ok (map g l).
Proof.
  induction l as [|a l IH]; intros Hf; [reflexivity|].
  simpl. rewrite (Hf a (or_introl eq_refl)). simpl.
  rewrite IH by (intros x Hx; apply Hf; right; exact Hx). reflexivity.
Qed.

Lemma to_int64_of_int (qsqrt : Q -> Q) (z : Z) :
  in_int64 z -> to_int64 (Float64 := Q_Float64 qsqrt) (inject_Z z) = z.
Proof.
  intros [Hlo Hhi]. simpl. unfold Qtrunc, trunc_to_int64. simpl.
  rewrite Z.quot_1_r.
  destruct (Z.leb_spec int64_min z); [|lia].
  destruct (Z.leb_spec z int64_max); [|lia]. reflexivity.
Qed.

(** ** The FullState table of a dense sequence *)

Lemma slice_indices_between (len a b : Z) :
  0 <= a <= b -> b <= len ->
  slice_indices (mk_slice (Some a) (Some b) None) len = Ok (a, b, 1).
Proof.
  intros Hab Hb. unfold slice_indices, adjust_bound. simpl.
  repeat match goal with
         | |- context [?x <? ?y] => destruct (Z.ltb_spec x y); try lia
         | |- context [?x <=? ?y] => destruct (Z.leb_spec x y); try lia
         end; repeat f_equal; lia.
Qed.

Section Columns.
Context {F : Type} `{Float64 F}.

Lemma column_Ok (table : list (list F)) (w k : nat) :
  table <> [] -> Forall (fun r => length r = w) table -> (k < w)%nat ->
  column (Mat table) (Z.of_nat k) = Ok (map (fun r => nth k r fzero) table).
Proof.
  intros Hne Hw Hk. unfold column.
  assert (Hn : ncols table = w).
  { destruct table as [|r table]; [contradiction|].
    simpl. apply (Forall_inv Hw). }
  rewrite Hn, (np_index_nat w k Hk). reflexivity.
Qed.

Lemma block_Ok (table : list (list F)) (w a b r1 : nat) (rs cs : pyslice) :
  Forall (fun r => length r = w) table ->
  slice_indices rs (Z.of_nat (length table)) = Ok (0, Z.of_nat r1, 1) ->
  (r1 <= length table)%nat ->
  slice_indices cs (Z.of_nat w) = Ok (Z.of_nat a, Z.of_nat b, 1) ->
  (a <= b <= w)%nat ->
  block (Mat table) rs cs
  = Ok (map (fun r => take (b - a) (drop a r)) (take r1 table)).
Proof.
  intros Hw Hrs Hr1 Hcs Hab. unfold block.
  rewrite (py_slice_unit rs table 0 r1) by (try exact Hrs; lia).
  rewrite Nat.sub_0_r, drop_0.
  change (Ok ?x ≫= ?f) with (f x). cbv beta.
  apply mapM_Ok_map. intros r Hr.
  assert (Hlen : length r = w).
  { rewrite Forall_forall in Hw. apply Hw.
    apply (subseteq_take r1 table), list_elem_of_In. exact Hr. }
  apply py_slice_unit; rewrite Hlen; assumption.
Qed.

End Columns.

Section Rows.
Variables rows cols : nat.

Lemma length_concat_shaped {A} (s : list (list A)) :
  lattice_shaped rows cols s -> length (concat s) = (rows * cols)%nat.
Proof.
  intros [Hn Hm]. rewrite (length_concat_uniform cols s Hm), Hn. reflexivity.
Qed.

Lemma reshape_concat_shaped {A} (s : list (list A)) :
  lattice_shaped rows cols s -> reshape (replicate rows cols) (concat s) = s.
Proof.
  intros [Hn Hm]. rewrite <- Hn. apply reshape_concat. exact Hm.
Qed.

Lemma fullstate_row_parts (d : frame_record) :
  lattice_shaped rows cols (fr_state d) ->
  length (fullstate_row d) = (rows * cols + 4)%nat /\
  nth 0 (fullstate_row d) 0%Q = inject_Z (fr_index d) /\
  take (rows * cols) (drop 1 (fullstate_row d))
  = map inject_Z (concat (fr_state d)) /\
  nth (rows * cols + 1) (fullstate_row d) 0%Q = (fr_clock d).1.1 /\
  nth (rows * cols + 2) (fullstate_row d) 0%Q = (fr_clock d).1.2 /\
  nth (rows * cols + 3) (fullstate_row d) 0%Q = (fr_clock d).2.
Proof.
  intros Hs. pose proof (length_concat_shaped _ Hs) as Hlen.
  assert (Hl : length (map inject_Z (concat (fr_state d))) = (rows * cols)%nat)
    by (rewrite length_map; exact Hlen).
  unfold fullstate_row, triple_fields.
  split; [simpl; rewrite length_app, Hl; simpl; lia|].
  split; [reflexivity|].
  split; [simpl; rewrite drop_0; apply take_app_length'; symmetry; exact Hl|].
  repeat split.
  - replace (rows * cols + 1)%nat with (S (rows * cols)) by lia. cbn [nth].
    rewrite app_nth2 by lia. rewrite Hl, Nat.sub_diag. reflexivity.
  - replace (rows * cols + 2)%nat with (S (rows * cols + 1)) by lia. cbn [nth].
    rewrite app_nth2 by lia. rewrite Hl.
    replace (rows * cols + 1 - rows * cols)%nat with 1%nat by lia. reflexivity.
  - replace (rows * cols + 3)%nat with (S (rows * cols + 2)) by lia. cbn [nth].
    rewrite app_nth2 by lia. rewrite Hl.
    replace (rows * cols + 2 - rows * cols)%nat with 2%nat by lia. reflexivity.
Qed.

(** [reshape(-1, N, M)] of the flattened frames gives the frames back. *)
Lemma reshape_frames_dense (states : list (list (list Z))) :
  (0 < rows)%nat -> (0 < cols)%nat ->
  Forall (lattice_shaped rows cols) states ->
  reshape_frames (Z.of_nat rows) (Z.of_nat cols) (map (@concat Z) states)
  = Ok (mk_ndarray3 rows cols states).
Proof.
  intros Hr Hc Hs. unfold reshape_frames.
  assert (Hflat : Forall (fun l : list Z => length l = (rows * cols)%nat)
                    (map (@concat Z) states)).
  { apply Forall_forall. intros l Hl.
    apply list_elem_of_In, in_map_iff in Hl as (s & <- & Hin).
    apply length_concat_shaped. rewrite Forall_forall in Hs.
    apply Hs, list_elem_of_In. exact Hin. }
  rewrite (length_concat_uniform _ _ Hflat), length_map.
  rewrite <- Nat2Z.inj_mul.
  destruct (Z.ltb_spec 0 (Z.of_nat rows)); [|lia].
  destruct (Z.ltb_spec 0 (Z.of_nat cols)); [|lia].
  rewrite Nat2Z.inj_mul, Z.mod_mul by lia. simpl.
  rewrite Z.div_mul by lia. rewrite !Nat2Z.id.
  f_equal. f_equal.
  rewrite <- (length_map (@concat Z) states), (reshape_concat _ _ Hflat), map_map.
  rewrite <- (map_id states) at 2. apply map_ext_in. intros s Hin.
  apply reshape_concat_shaped. rewrite Forall_forall in Hs.
  apply Hs, list_elem_of_In. exact Hin.
Qed.

End Rows.

Section RoundTrip.
Variable qsqrt : Q -> Q.
Local Hint Extern 0 (Float64 Q) => exact (Q_Float64 qsqrt) : typeclass_instances.
Variable np_loadtxt : string -> result (ndval Q).
Variable np_array_map_int : list string -> result (list Z).
Variables rows cols : nat.
Variable data : list frame_record.
Variable self : PottsResult Q.
Hypothesis Hrows : (0 < rows)%nat.
Hypothesis Hcols : (0 < cols)%nat.
Hypothesis HN : param_int self "N" = Ok (Z.of_nat rows).
Hypothesis HM : param_int self "M" = Ok (Z.of_nat cols).
Hypothesis Hshape : Forall (fun d => lattice_shaped rows cols (fr_state d)) data.
Hypothesis Hrange :
  Forall (fun d => in_int64 (fr_index d)
                   /\ Forall (Forall in_int64) (fr_state d)) data.
Hypothesis Hdata : data <> [].

Lemma fullstate_table_width :
  Forall (fun r => length r = (rows * cols + 4)%nat) (map fullstate_row data).
Proof.
  apply Forall_forall. intros r Hr.
  apply list_elem_of_In, in_map_iff in Hr as (d & <- & Hd).
  rewrite Forall_forall in Hshape.
  apply (fullstate_row_parts rows cols d), Hshape, list_elem_of_In, Hd.
Qed.

Lemma fullstate_column (k : nat) (f : frame_record -> Q) :
  (k < rows * cols + 4)%nat ->
  (forall d, lattice_shaped rows cols (fr_state d) ->
             nth k (fullstate_row d) 0%Q = f d) ->
  column (Mat (map fullstate_row data)) (Z.of_nat k) = Ok (map f data).
Proof.
  intros Hk Hf.
  rewrite (column_Ok _ (rows * cols + 4) k); [| |apply fullstate_table_width|exact Hk].
  - rewrite map_map. f_equal. apply map_ext_in. intros d Hd.
    apply Hf. rewrite Forall_forall in Hshape. apply Hshape, list_elem_of_In, Hd.
  - destruct data; [contradiction | discriminate].
Qed.

Lemma to_int64_frame (d : frame_record) :
  Forall (Forall in_int64) (fr_state d) ->
  map to_int64 (map inject_Z (concat (fr_state d))) = concat (fr_state d).
Proof.
  intros Hd. rewrite map_map. rewrite <- (map_id (concat (fr_state d))) at 2.
  apply map_ext_in. intros z Hz. apply to_int64_of_int.
  apply in_concat in Hz as (row & Hrow & Hz).
  rewrite Forall_forall in Hd.
  specialize (Hd row (proj2 (list_elem_of_In _ _) Hrow)).
  rewrite Forall_forall in Hd. apply Hd, list_elem_of_In, Hz.
Qed.

Lemma load_fullstate_dense (trajFile : string) :
  np_loadtxt trajFile = Ok (Mat (map fullstate_row data)) ->
  _load_fullstate_traj np_loadtxt self trajFile
  = Ok (dense_trajectory rows cols data self (map fr_index data)).
Proof.
  intros Hfile. unfold _load_fullstate_traj. rewrite Hfile, HN, HM.
  repeat (change (Ok ?a ≫= ?f) with (f a); cbv beta).
  (* the frame ordinals *)
  change 0 with (Z.of_nat 0).
  rewrite (fullstate_column 0 (fun d => inject_Z (fr_index d)))
    by (try lia; intros d Hd; apply (fullstate_row_parts rows cols d Hd)).
  change (Ok ?a ≫= ?f) with (f a); cbv beta.
  (* the block of states *)
  replace (Z.of_nat rows * Z.of_nat cols + 1) with (Z.of_nat (rows * cols + 1)) by lia.
  rewrite (block_Ok (map fullstate_row data) (rows * cols + 4) 1 (rows * cols + 1)
             (length (map fullstate_row data)));
    [|apply fullstate_table_width|reflexivity|lia
     |apply slice_indices_between; lia|lia].
  change (Ok ?a ≫= ?f) with (f a); cbv beta.
  rewrite firstn_all, Nat.add_sub.
  match goal with
  | |- context [reshape_frames _ _ ?blk] =>
      replace blk with (map (@concat Z) (map fr_state data))
  end.
  2:{ rewrite !map_map. apply map_ext_in. intros d Hd.
      rewrite Forall_forall in Hshape, Hrange.
      apply list_elem_of_In in Hd.
      destruct (fullstate_row_parts rows cols d (Hshape d Hd)) as (_ & _ & -> & _).
      symmetry. apply to_int64_frame. apply (Hrange d Hd). }
  rewrite (reshape_frames_dense rows cols (map fr_state data) Hrows Hcols).
  2:{ apply Forall_forall. intros s Hs.
      apply list_elem_of_In, in_map_iff in Hs as (d & <- & Hd).
      rewrite Forall_forall in Hshape. apply Hshape, list_elem_of_In, Hd. }
  change (Ok ?a ≫= ?f) with (f a); cbv beta.
  (* time, dwell time, energy *)
  replace (Z.of_nat rows * Z.of_nat cols + 1) with (Z.of_nat (rows * cols + 1)) by lia.
  replace (Z.of_nat rows * Z.of_nat cols + 2) with (Z.of_nat (rows * cols + 2)) by lia.
  replace (Z.of_nat rows * Z.of_nat cols + 3) with (Z.of_nat (rows * cols + 3)) by lia.
  rewrite (fullstate_column (rows * cols + 1) (fun d => (fr_clock d).1.1))
    by (try lia; intros d Hd; apply (fullstate_row_parts rows cols d Hd)).
  change (Ok ?a ≫= ?f) with (f a); cbv beta.
  rewrite (fullstate_column (rows * cols + 2) (fun d => (fr_clock d).1.2))
    by (try lia; intros d Hd; apply (fullstate_row_parts rows cols d Hd)).
  change (Ok ?a ≫= ?f) with (f a); cbv beta.
  rewrite (fullstate_column (rows * cols + 3) (fun d => (fr_clock d).2))
    by (try lia; intros d Hd; apply (fullstate_row_parts rows cols d Hd)).
  change (Ok ?a ≫= ?f) with (f a); cbv beta.
  unfold dense_trajectory. f_equal. f_equal.
  rewrite map_map. apply map_ext_in. intros d Hd.
  apply to_int64_of_int. rewrite Forall_forall in Hrange.
  apply (Hrange d), list_elem_of_In, Hd.
Qed.

(** X1. The round trip of the FullState encoding. Let [np.loadtxt]
    return the table that holds, for every frame of a dense sequence of
    [rows x cols] lattices, the ordinal of the frame, its lattice in
    row-major order, its time, its dwell time and its energy, and let the
    first line of the file name FullState. Then [load_traj] returns a
    trajectory whose states are the sequence itself, whose frame
    ordinals, times, dwell times and energies are the columns of the
    table, and whose total sample time is the sum of the dwell times;
    the parameters and the cache are those of the object before. *)
Theorem fullstate_round_trip (trajFile : string) :
  np_loadtxt trajFile = Ok (Mat (map fullstate_row data)) ->
  search_trajType (first_line trajFile) = Some "FullState"%string ->
  exists r : PottsResult Q,
    load_traj np_loadtxt np_array_map_int self trajFile = Ok r /\
    traj r = mk_ndarray3 rows cols (map fr_state data) /\
    trajIdx r = map fr_index data /\
    trajT r = map (fun d => (fr_clock d).1.1) data /\
    trajDt r = map (fun d => (fr_clock d).1.2) data /\
    trajEnergy r = map (fun d => (fr_clock d).2) data /\
    totalSampleTime r = fsum (trajDt r) /\
    params r = params self /\
    properties r = properties self.
Proof.
  intros Hfile Hmark. unfold load_traj. unfold first_line in Hmark.
  destruct (readline (open_rt trajFile)) as [line1 rest].
  cbn [fst] in Hmark. rewrite Hmark.
  change (String.eqb "FullState" "FullState") with true. cbv iota.
  rewrite (load_fullstate_dense trajFile Hfile).
  change (Ok ?a ≫= ?f) with (f a). cbv beta.
  eexists. split; [reflexivity|]. repeat split; reflexivity.
Qed.

End RoundTrip.

Lemma fullstate_round_trip_witness :
  exists r : PottsResult Q,
    load_traj (H := Qx) loadtxt_dec np_array_map_int_py3
      (unloaded (H := Qx) ex_params) ex_fullstate_eq = Ok r /\
    traj r = mk_ndarray3 1 2 [[[0; 1]]; [[1; 1]]; [[1; 0]]] /\
    trajIdx r = [0; 1; 2] /\
    trajT r = [0; 10; 20]%Q /\
    trajDt r = [1; 2; 1]%Q /\
    trajEnergy r = [0; 1; 1]%Q /\
    totalSampleTime r = fsum (H := Qx) (trajDt r).
Proof.
  destruct (fullstate_round_trip Qsqrt_z loadtxt_dec np_array_map_int_py3
              1 2 ex_data (unloaded (H := Qx) ex_params))
    with (trajFile := ex_fullstate_eq)
    as (r & Hr & Htraj & Hidx & HT & HDt & HE & Htot & _).
  - lia.
  - lia.
  - reflexivity.
  - reflexivity.
  - repeat constructor.
  - unfold in_int64, int64_min, int64_max.
    repeat (constructor; try (simpl; lia)).
  - discriminate.
  - vm_compute. reflexivity.
  - vm_compute. reflexivity.
  - exists r. repeat split; assumption.
Defined.

(** ** Weighted means lie within the range of the data *)

Lemma weighted_sum_bounds (lo hi : Q) (q dt : list Q) :
  length q = length dt ->
  Forall (fun d => 0 <= d)%Q dt ->
  Forall (fun x => lo <= x /\ x <= hi)%Q q ->
  (lo * Qsum dt <= Qsum (zip_with Qmult q dt)
   /\ Qsum (zip_with Qmult q dt) <= hi * Qsum dt)%Q.
Proof.
  intros E Hdt. revert q E.
  induction Hdt as [|d dt Hd _ IH]; intros [|x q] E Hq; simpl in *;
    try discriminate.
  - split; lra.
  - apply Forall_cons in Hq as [[Hlo Hhi] Hq].
    destruct (IH q ltac:(lia) Hq) as [IHlo IHhi]. split; nra.
Qed.

Lemma Qsum_bounds (lo hi : Q) (l : list Q) :
  Forall (fun x => lo <= x /\ x <= hi)%Q l ->
  (lo * inject_Z (Z.of_nat (length l)) <= Qsum l
   /\ Qsum l <= hi * inject_Z (Z.of_nat (length l)))%Q.
Proof.
  induction 1 as [|x l [Hlo Hhi] _ [IHlo IHhi]].
  - simpl. change (inject_Z (Z.of_nat 0)) with 0%Q. split; lra.
  - cbn [length Qsum fold_right]. rewrite Nat2Z.inj_succ. unfold Z.succ.
    rewrite inject_Z_plus. change (fold_right Qplus 0%Q l) with (Qsum l).
    change (inject_Z 1) with 1%Q. split; nra.
Qed.

Section MeanBounds.
Variable qsqrt : Q -> Q.
Local Hint Extern 0 (Float64 Q) => exact (Q_Float64 qsqrt) : typeclass_instances.

Lemma calculate_mean_bounds (lo hi : Q) (dt q : list Q) (total : Q) :
  length q = length dt ->
  Forall (fun d => 0 <= d)%Q dt ->
  (total == Qsum dt)%Q ->
  (0 < total)%Q ->
  Forall (fun x => lo <= x /\ x <= hi)%Q q ->
  exists m, calculate_mean dt total q = Ok m /\ (lo <= m /\ m <= hi)%Q.
Proof.
  intros E Hdt Htot Hpos Hq. eexists. split; [apply calculate_mean_Q; exact E|].
  destruct (weighted_sum_bounds lo hi q dt E Hdt Hq) as [Hlo Hhi].
  rewrite fsum_Qsum. rewrite <- Htot in Hlo, Hhi. split.
  - apply Qle_shift_div_l; [exact Hpos | exact Hlo].
  - apply Qle_shift_div_r; [exact Hpos | exact Hhi].
Qed.

Lemma calculate_var_of_mean_nonneg (dt q : list Q) (total : Q) :
  length q = length dt ->
  exists v, calculate_var_of_mean dt total q = Ok v /\ (0 <= v)%Q.
Proof.
  intros E. unfold calculate_var_of_mean. rewrite calculate_mean_Q by exact E.
  change (Ok ?a ≫= ?f) with (f a). cbv beta zeta.
  rewrite broadcast0_same_length by (rewrite length_map; exact E).
  change (Ok ?a ≫= ?f) with (f a). cbv beta.
  eexists. split; [reflexivity|].
  assert (Hnum : (0 <= fsum (map fsquare
                    (zip_with fmul
                       (map (fun x => fsub x (fsum (zip_with Qmult q dt) / total)%Q) q)
                       dt)))%Q).
  { rewrite fsum_Qsum. apply Qsum_nonneg. apply Forall_map, Forall_forall.
    intros x _. apply Qsquare_nonneg. }
  destruct (Qeq_dec total 0) as [Hz|Hnz].
  - unfold fdiv, fsquare, fmul. simpl. unfold Qdiv.
    assert (Hinv : (/ (total * total) == 0)%Q) by (rewrite Hz; reflexivity).
    rewrite Hinv. lra.
  - apply Qle_shift_div_l; [|lra].
    simpl. nra.
Qed.

End MeanBounds.

(** ** Average energy and magnetization *)

Section ScalarBounds.
Variable qsqrt : Q -> Q.
Local Hint Extern 0 (Float64 Q) => exact (Q_Float64 qsqrt) : typeclass_instances.

Lemma frame_means_bounds (lo hi : Z) (a : ndarray3 Z) :
  wf_ndarray3 a -> (0 < nd_rows a * nd_cols a)%nat -> spins_within lo hi a ->
  Forall (fun x => inject_Z lo <= x /\ x <= inject_Z hi)%Q (frame_means a).
Proof.
  intros Hwf Hpos Hb. unfold frame_means. apply Forall_map.
  unfold wf_ndarray3 in Hwf. unfold spins_within in Hb.
  rewrite Forall_forall in Hwf, Hb. apply Forall_forall. intros frame Hin.
  specialize (Hwf frame Hin). specialize (Hb frame Hin).
  assert (Hall : Forall (fun x => inject_Z lo <= x /\ x <= inject_Z hi)%Q
                   (concat (lat_map inject_Z frame))).
  { apply Forall_concat. unfold lat_map. apply Forall_map.
    eapply Forall_impl; [exact Hb|]. intros row Hrow. apply Forall_map.
    eapply Forall_impl; [exact Hrow|]. intros s [Hlo Hhi]. simpl.
    rewrite <- !Zle_Qle. split; assumption. }
  apply Qsum_bounds in Hall.
  rewrite (length_concat_shaped (nd_rows a) (nd_cols a)) in Hall
    by (apply lat_map_shaped; exact Hwf).
  unfold lat_mean. rewrite fsum_Qsum. simpl.
  assert (Hn : (0 < inject_Z (Z.of_nat (nd_rows a * nd_cols a)))%Q).
  { change 0%Q with (inject_Z 0). rewrite <- Zlt_Qlt. lia. }
  destruct Hall as [Hlo Hhi]. split.
  - apply Qle_shift_div_l; assumption.
  - apply Qle_shift_div_r; assumption.
Qed.

End ScalarBounds.

(** X3. On a trajectory with as many energies as dwell times, whose
    dwell times are non-negative and whose total sample time is their
    sum and is positive, [recalculate_average_energy] returns and caches
    under ["aveEnergy"] a pair (mean, error): the mean lies between the
    smallest and the largest energy of the trajectory, and the error is
    the square root of a non-negative number. *)
Theorem average_energy_within_range (qsqrt : Q -> Q) (self : PottsResult Q)
    (lo hi : Q) :
  length (trajEnergy self) = length (trajDt self) ->
  Forall (fun d => 0 <= d)%Q (trajDt self) ->
  (totalSampleTime self == Qsum (trajDt self))%Q ->
  (0 < totalSampleTime self)%Q ->
  Forall (fun e => lo <= e /\ e <= hi)%Q (trajEnergy self) ->
  exists m v : Q,
    recalculate_average_energy (H := Q_Float64 qsqrt) self
    = Ok (RTuple (Scalar m, Scalar (qsqrt v)),
          set_properties self
            (<["aveEnergy"%string := (Scalar m, Scalar (qsqrt v))]> (properties self)))
    /\ (lo <= m /\ m <= hi)%Q /\ (0 <= v)%Q.
Proof.
  intros E Hdt Htot Hpos Hq.
  destruct (calculate_mean_bounds qsqrt lo hi _ _ _ E Hdt Htot Hpos Hq)
    as (m & Hm & Hrange).
  destruct (calculate_var_of_mean_nonneg qsqrt _ _ (totalSampleTime self) E)
    as (v & Hv & Hv0).
  exists m, v. unfold recalculate_average_energy. rewrite Hm, Hv.
  split; [reflexivity|]. split; assumption.
Qed.

Lemma average_energy_within_range_witness :
  exists m v : Q,
    recalculate_average_energy (H := Qx) ex_loaded22
    = Ok (RTuple (Scalar m, Scalar (Qsqrt_z v)),
          set_properties ex_loaded22
            (<["aveEnergy"%string := (Scalar m, Scalar (Qsqrt_z v))]>
               (properties ex_loaded22)))
    /\ (0 <= m /\ m <= 1)%Q /\ (0 <= v)%Q.
Proof.
  apply (average_energy_within_range Qsqrt_z ex_loaded22 0%Q 1%Q).
  - reflexivity.
  - repeat constructor; discriminate.
  - reflexivity.
  - reflexivity.
  - repeat constructor; discriminate.
Defined.

(** X4. On a well-shaped trajectory of a non-empty lattice, with integer
    parameters [N] and [M], non-negative dwell times and a positive
    total sample time equal to their sum, [recalculate_magnetization]
    returns and caches under ["magnetization"] a pair whose first entry,
    the mean magnetization, lies between the smallest and the largest
    spin value of the trajectory. *)
Theorem magnetization_within_spin_range (qsqrt : Q -> Q) (self : PottsResult Q)
    (N M lo hi : Z) :
  param_int self "N" = Ok N ->
  param_int self "M" = Ok M ->
  wf_ndarray3 (traj self) ->
  (0 < nd_rows (traj self) * nd_cols (traj self))%nat ->
  length (nd_frames (traj self)) = length (trajDt self) ->
  Forall (fun d => 0 <= d)%Q (trajDt self) ->
  (totalSampleTime self == Qsum (trajDt self))%Q ->
  (0 < totalSampleTime self)%Q ->
  spins_within lo hi (traj self) ->
  exists m v : Q,
    recalculate_magnetization (H := Q_Float64 qsqrt) self
    = Ok (RTuple (Scalar m, Scalar (qsqrt (v / inject_Z (N * M))%Q)),
          set_properties self
            (<["magnetization"%string :=
                 (Scalar m, Scalar (qsqrt (v / inject_Z (N * M))%Q))]>
               (properties self)))
    /\ (inject_Z lo <= m /\ m <= inject_Z hi)%Q /\ (0 <= v)%Q.
Proof.
  intros HN HM Hwf Hsize Hlen Hdt Htot Hpos Hb.
  assert (E : length (frame_means (H := Q_Float64 qsqrt) (traj self))
              = length (trajDt self)).
  { unfold frame_means. rewrite length_map. exact Hlen. }
  destruct (calculate_mean_bounds qsqrt (inject_Z lo) (inject_Z hi) _ _ _ E Hdt Htot Hpos
              (frame_means_bounds qsqrt lo hi _ Hwf Hsize Hb))
    as (m & Hm & Hrange).
  destruct (calculate_var_of_mean_nonneg qsqrt _ _ (totalSampleTime self) E)
    as (v & Hv & Hv0).
  exists m, v. unfold recalculate_magnetization. rewrite HN, HM.
  change (Ok ?a ≫= ?f) with (f a). cbv beta.
  change (Ok ?a ≫= ?f) with (f a). cbv beta zeta.
  rewrite Hm, Hv.
  split; [reflexivity|]. split; assumption.
Qed.

Lemma magnetization_within_spin_range_witness :
  exists m v : Q,
    recalculate_magnetization (H := Qx) ex_loaded22
    = Ok (RTuple (Scalar m, Scalar (Qsqrt_z (v / inject_Z (2 * 2))%Q)),
          set_properties ex_loaded22
            (<["magnetization"%string :=
                 (Scalar m, Scalar (Qsqrt_z (v / inject_Z (2 * 2))%Q))]>
               (properties ex_loaded22)))
    /\ (inject_Z 0 <= m /\ m <= inject_Z 1)%Q /\ (0 <= v)%Q.
Proof.
  apply (magnetization_within_spin_range Qsqrt_z ex_loaded22 2 2 0 1).
  - reflexivity.
  - reflexivity.
  - repeat constructor.
  - simpl. lia.
  - reflexivity.
  - repeat constructor; discriminate.
  - reflexivity.
  - reflexivity.
  - repeat constructor; lia.
Defined.

(** ** The cache of the scalar observables *)

Section ScalarCache.
Context {F : Type} `{Float64 F}.
Variable py_pow2 : F -> outcome F.
Variable float_of_int : Z -> outcome F.

Lemma bind_Done {A B} (m : outcome A) (f : A -> outcome B) (b : B) :
  m ≫= f = Done b -> exists a, m = Done a /\ f a = Done b.
Proof. destruct m as [a|e]; simpl; intros Hb; [eauto | discriminate]. Qed.

Lemma lift_Done {A} (r : result A) (a : A) : lift r = Done a -> r = Ok a.
Proof. destruct r; simpl; intros [= <-]; reflexivity. Qed.

Lemma recalculate_average_energy_Ok (self self' : PottsResult F) (v : pyret F) :
  recalculate_average_energy self = Ok (v, self') ->
  exists c, v = RTuple c /\
            self' = set_properties self (<["aveEnergy"%string := c]> (properties self)).
Proof.
  unfold recalculate_average_energy. intros Hr.
  inv_bind Hr. inv_bind Hr. injection Hr as <- <-. eauto.
Qed.

Lemma recalculate_magnetization_Ok (self self' : PottsResult F) (v : pyret F) :
  recalculate_magnetization self = Ok (v, self') ->
  exists c, v = RTuple c /\
            self' = set_properties self
                      (<["magnetization"%string := c]> (properties self)).
Proof.
  unfold recalculate_magnetization. intros Hr.
  inv_bind Hr. inv_bind Hr. inv_bind Hr. inv_bind Hr. injection Hr as <- <-. eauto.
Qed.

Lemma recalculate_heat_capacity_Done (self self' : PottsResult F) (v : pyret F) :
  recalculate_heat_capacity py_pow2 float_of_int self = Done (v, self') ->
  exists c, v = RTuple c /\
            self' = set_properties self
                      (<["heatCapacity"%string := c]> (properties self)).
Proof.
  unfold recalculate_heat_capacity. intros Hr.
  do 9 (apply bind_Done in Hr as (? & _ & Hr)).
  injection Hr as <- <-. eauto.
Qed.

End ScalarCache.

(** X5. The getters of the scalar observables: when [get_average_energy],
    [get_magnetication] or [get_heat_capacity] returns a pair, the pair
    is cached under the observable's name in the object it leaves, the
    object is otherwise the one it was called on, and a second call
    returns the same pair from the cache and changes nothing. *)
Theorem scalar_getters_cache {F : Type} `{Float64 F}
    (py_pow2 : F -> outcome F) (float_of_int : Z -> outcome F)
    (self self' : PottsResult F) (v : pyret F) :
  (get_average_energy self = Ok (v, self') ->
   exists c, v = RTuple c /\ properties self' !! "aveEnergy"%string = Some c /\
             self' = set_properties self (properties self') /\
             get_average_energy self' = Ok (v, self'))
  /\
  (get_magnetication self = Ok (v, self') ->
   exists c, v = RTuple c /\ properties self' !! "magnetization"%string = Some c /\
             self' = set_properties self (properties self') /\
             get_magnetication self' = Ok (v, self'))
  /\
  (get_heat_capacity py_pow2 float_of_int self = Done (v, self') ->
   exists c, v = RTuple c /\ properties self' !! "heatCapacity"%string = Some c /\
             self' = set_properties self (properties self') /\
             get_heat_capacity py_pow2 float_of_int self' = Done (v, self')).
Proof.
  split; [|split].
  - unfold get_average_energy.
    destruct (properties self !! "aveEnergy"%string) as [c|] eqn:Hc.
    + intros [= <- <-]. exists c. rewrite Hc. destruct self; auto.
    + intros Hr. apply recalculate_average_energy_Ok in Hr as (c & -> & ->).
      exists c. cbn [properties set_properties]. rewrite lookup_insert_eq. auto.
  - unfold get_magnetication.
    destruct (properties self !! "magnetization"%string) as [c|] eqn:Hc.
    + intros [= <- <-]. exists c. rewrite Hc. destruct self; auto.
    + intros Hr. apply recalculate_magnetization_Ok in Hr as (c & -> & ->).
      exists c. cbn [properties set_properties]. rewrite lookup_insert_eq. auto.
  - unfold get_heat_capacity.
    destruct (properties self !! "heatCapacity"%string) as [c|] eqn:Hc.
    + intros [= <- <-]. exists c. rewrite Hc. destruct self; auto.
    + intros Hr. apply recalculate_heat_capacity_Done in Hr as (c & -> & ->).
      exists c. cbn [properties set_properties]. rewrite lookup_insert_eq. auto.
Qed.

Lemma scalar_getters_cache_witness :
  exists v self',
    get_average_energy (H := Qx) ex_loaded22 = Ok (v, self') /\
    exists c, v = RTuple c /\ properties self' !! "aveEnergy"%string = Some c /\
              self' = set_properties ex_loaded22 (properties self') /\
              get_average_energy (H := Qx) self' = Ok (v, self').
Proof.
  eexists _, _. split; [vm_compute; reflexivity|].
  apply (proj1 (scalar_getters_cache (H := Qx) (fun x => Done (x * x)%Q)
                  (fun z => Done (inject_Z z)) ex_loaded22 _ _)).
  vm_compute. reflexivity.
Defined.

(** ** Rolls *)

Lemma roll_In {A} (l : list A) (s : Z) (x : A) : In x (roll l s) -> In x l.
Proof.
  unfold roll. destruct l as [|y l]; [tauto|].
  set (r := Z.to_nat (- s mod Z.of_nat (length (y :: l)))).
  intros Hx. apply in_app_or in Hx.
  rewrite <- (take_drop r (y :: l)). apply in_or_app. tauto.
Qed.

Lemma roll_periodic {A} (l : list A) (s k : Z) :
  roll l (s + k * Z.of_nat (length l)) = roll l s.
Proof.
  unfold roll. destruct l as [|y l]; [reflexivity|].
  replace (- (s + k * Z.of_nat (length (y :: l))))
    with (- s + (- k) * Z.of_nat (length (y :: l))) by ring.
  rewrite Z.mod_add by (simpl; lia). reflexivity.
Qed.

Lemma roll2_periodic {A} (n m : nat) (lat : list (list A)) (i j a b : Z) :
  lattice_shaped n m lat ->
  roll2 lat (i + a * Z.of_nat n) (j + b * Z.of_nat m) = roll2 lat i j.
Proof.
  intros [Hn Hm]. unfold roll2.
  replace (- (i + a * Z.of_nat n)) with (- i + (- a) * Z.of_nat (length lat))
    by (rewrite Hn; ring).
  rewrite roll_periodic. apply map_ext_in. intros row Hrow.
  apply roll_In in Hrow. rewrite Forall_forall in Hm.
  specialize (Hm row (proj2 (list_elem_of_In _ _) Hrow)).
  replace (- (j + b * Z.of_nat m)) with (- j + (- b) * Z.of_nat (length row))
    by (rewrite Hm; ring).
  apply roll_periodic.
Qed.

(** X6. The correlation is periodic in its two offsets, with the periods
    of the lattice: on a well-shaped trajectory of [rows] x [cols]
    lattices, [_calculate_spatial_correlation(i + a*rows, j + b*cols)]
    is [_calculate_spatial_correlation(i, j)], value and error, for all
    integers [a] and [b]. *)
Theorem spatial_correlation_periodic {F : Type} `{Float64 F}
    (self : PottsResult F) (i j a b : Z) :
  wf_ndarray3 (traj self) ->
  _calculate_spatial_correlation self
    (i + a * Z.of_nat (nd_rows (traj self))) (j + b * Z.of_nat (nd_cols (traj self)))
  = _calculate_spatial_correlation self i j.
Proof.
  intros Hwf. unfold _calculate_spatial_correlation.
  destruct (param_int self "N") as [N|e]; [|reflexivity].
  destruct (param_int self "M") as [M|e]; [|reflexivity].
  change (Ok ?x ≫= ?f) with (f x). cbv beta.
  change (Ok ?x ≫= ?f) with (f x). cbv beta.
  unfold calculate_mean3.
  destruct (broadcast0 _ (nd_frames (as_double (traj self))) (trajDt self))
    as [weighted|e]; [|reflexivity].
  change (Ok ?x ≫= ?f) with (f x). cbv beta.
  change (Ok ?x ≫= ?f) with (f x). cbv beta zeta.
  cbn [as_double nd_rows nd_cols].
  rewrite (roll2_periodic (nd_rows (traj self)) (nd_cols (traj self)))
    by apply tabulate2_shaped.
  match goal with
  | |- (calculate_mean _ _ ?l1 ≫= _) = (calculate_mean _ _ ?l2 ≫= _) =>
      assert (El : l1 = l2); [|rewrite El; reflexivity]
  end.
  apply map_ext_in. intros frame Hframe. unfold netCorr_frame.
  rewrite (roll2_periodic (nd_rows (traj self)) (nd_cols (traj self))).
  - reflexivity.
  - unfold wf_ndarray3 in Hwf. rewrite Forall_forall in Hwf.
    apply Hwf, list_elem_of_In. exact Hframe.
Qed.

Lemma spatial_correlation_periodic_witness :
  _calculate_spatial_correlation (H := Qx) ex_loaded22 (1 + 1 * 2) (0 + (-1) * 2)
  = _calculate_spatial_correlation (H := Qx) ex_loaded22 1 0.
Proof.
  apply (spatial_correlation_periodic (H := Qx) ex_loaded22 1 0 1 (-1)).
  repeat constructor.
Defined.

(** ** Rolls of tables *)

Lemma shifted_lt (n : nat) (s : Z) (a : nat) : (0 < n)%nat -> (shifted n s a < n)%nat.
Proof.
  intros Hn. unfold shifted.
  pose proof (Z.mod_pos_bound (Z.of_nat a + s) (Z.of_nat n) ltac:(lia)). lia.
Qed.

Lemma shifted_inverse (n : nat) (s : Z) (a : nat) :
  (a < n)%nat -> shifted n s (shifted n (- s) a) = a.
Proof.
  intros Ha. unfold shifted.
  pose proof (Z.mod_pos_bound (Z.of_nat a + - s) (Z.of_nat n) ltac:(lia)).
  rewrite Z2Nat.id by lia. rewrite Z.add_mod_idemp_l by lia.
  replace (Z.of_nat a + - s + s) with (Z.of_nat a) by ring.
  rewrite Z.mod_small by lia. lia.
Qed.

Lemma rotation_seq (n : nat) (s : Z) :
  map (shifted n s) (seq 0 n)
  = drop (Z.to_nat (s mod Z.of_nat n)) (seq 0 n)
    ++ take (Z.to_nat (s mod Z.of_nat n)) (seq 0 n).
Proof.
  destruct (Nat.eq_dec n 0%nat) as [->|Hn0];
    [simpl; rewrite drop_nil, take_nil; reflexivity|].
  assert (Hn : 0 < Z.of_nat n) by lia.
  pose proof (Z.mod_pos_bound s (Z.of_nat n) Hn) as Hr.
  set (r := Z.to_nat (s mod Z.of_nat n)).
  assert (Hrz : Z.of_nat r = s mod Z.of_nat n) by (unfold r; lia).
  apply list_eq. intros k.
  rewrite list_lookup_fmap.
  destruct (Nat.lt_ge_cases k n) as [Hk|Hk].
  - rewrite lookup_seq_lt by exact Hk. simpl.
    assert (Hs : (Z.of_nat k + s) mod Z.of_nat n
                 = (Z.of_nat k + Z.of_nat r) mod Z.of_nat n).
    { rewrite Hrz, Z.add_mod_idemp_r by lia. reflexivity. }
    destruct (Nat.lt_ge_cases k (n - r)) as [Hk1|Hk1].
    + rewrite lookup_app_l by (rewrite length_drop, length_seq; exact Hk1).
      rewrite lookup_drop, lookup_seq_lt by lia. f_equal.
      unfold shifted. rewrite Hs, Z.mod_small by lia. lia.
    + rewrite lookup_app_r by (rewrite length_drop, length_seq; exact Hk1).
      rewrite length_drop, length_seq.
      rewrite lookup_take_lt by lia. rewrite lookup_seq_lt by lia. f_equal.
      unfold shifted. rewrite Hs.
      replace (Z.of_nat k + Z.of_nat r)
        with (Z.of_nat k + Z.of_nat r - Z.of_nat n + 1 * Z.of_nat n) by ring.
      rewrite Z.mod_add, Z.mod_small by lia. lia.
  - rewrite lookup_seq_ge by exact Hk. simpl. symmetry.
    apply lookup_ge_None.
    rewrite length_app, length_drop, length_take, length_seq. lia.
Qed.

Lemma roll_map_seq {A} (f : nat -> A) (n : nat) (s : Z) :
  roll (map f (seq 0 n)) (- s) = map (fun a => f (shifted n s a)) (seq 0 n).
Proof.
  unfold roll. destruct (map f (seq 0 n)) as [|x l] eqn:E.
  - destruct n; [reflexivity | discriminate].
  - rewrite <- E. rewrite length_map, length_seq, Z.opp_involutive.
    change (map f) with (fmap (M := list) f).
    rewrite <- fmap_drop, <- fmap_take, <- fmap_app.
    change (fmap (M := list) f) with (map f).
    rewrite <- rotation_seq, map_map. reflexivity.
Qed.

Lemma roll2_tabulate2 {A} (n m : nat) (f : nat -> nat -> A) (i j : Z) :
  roll2 (tabulate2 n m f) i j
  = tabulate2 n m (fun a b => f (shifted n i a) (shifted m j b)).
Proof.
  unfold roll2, tabulate2.
  rewrite (roll_map_seq (fun a => map (fun b => f a b) (seq 0 m)) n i).
  rewrite map_map. apply map_ext. intros a.
  apply (roll_map_seq (fun b => f (shifted n i a) b) m j).
Qed.

Lemma Qsum_rotation (f : nat -> Q) (n : nat) (s : Z) :
  (Qsum (map (fun a => f (shifted n s a)) (seq 0 n)) == Qsum (map f (seq 0 n)))%Q.
Proof.
  rewrite <- (map_map (shifted n s) f), rotation_seq.
  set (r := Z.to_nat (s mod Z.of_nat n)).
  rewrite <- (take_drop r (seq 0 n)) at 3.
  rewrite !map_app, !Qsum_app. ring.
Qed.

Lemma Qsum2_rotation (g : nat -> nat -> Q) (n m : nat) (i j : Z) :
  (Qsum2 n m (fun a b => g (shifted n i a) (shifted m j b)) == Qsum2 n m g)%Q.
Proof.
  unfold Qsum2.
  rewrite (Qsum_rotation (fun a => Qsum (map (fun b => g a (shifted m j b)) (seq 0 m)))
             n i).
  apply Qsum_map_ext. intros a _. apply (Qsum_rotation (g a) m j).
Qed.

(** ** The symmetry of the correlation *)

Lemma Qsum_weighted_ext (l1 l2 dt : list Q) :
  Forall2 Qeq l1 l2 ->
  (Qsum (zip_with Qmult l1 dt) == Qsum (zip_with Qmult l2 dt))%Q.
Proof.
  intros Hl. revert dt.
  induction Hl as [|x y l1 l2 Hxy _ IH]; intros [|d dt]; simpl; try reflexivity.
  rewrite Hxy, IH. reflexivity.
Qed.

Lemma Qsum_weighted_squares_ext (l1 l2 dt : list Q) (m1 m2 : Q) :
  Forall2 Qeq l1 l2 -> (m1 == m2)%Q ->
  (Qsum (map (fun y => y * y) (zip_with Qmult (map (fun x => x - m1) l1) dt))
   == Qsum (map (fun y => y * y) (zip_with Qmult (map (fun x => x - m2) l2) dt)))%Q.
Proof.
  intros Hl Hm. revert dt.
  induction Hl as [|x y l1 l2 Hxy _ IH]; intros [|d dt]; simpl; try reflexivity.
  rewrite Hxy, Hm, IH. reflexivity.
Qed.

Lemma Forall2_map_same {X} (f g : X -> Q) (l : list X) :
  (forall x, In x l -> (f x == g x)%Q) -> Forall2 Qeq (map f l) (map g l).
Proof.
  induction l as [|x l IH]; intros Hfg; simpl; constructor.
  - apply Hfg. left. reflexivity.
  - apply IH. intros y Hy. apply Hfg. right. exact Hy.
Qed.

Section Symmetry.
Variable qsqrt : Q -> Q.
Local Hint Extern 0 (Float64 Q) => exact (Q_Float64 qsqrt) : typeclass_instances.

(** The spatial mean of line 264 on one frame, at any offset. *)
Lemma netCorr_table (n m : nat) (h : nat -> nat -> Q) (g : nat -> nat -> Z) (i j : Z) :
  (lat_mean n m
     (netCorr_frame (tabulate2 n m h) (roll2 (tabulate2 n m h) i j) i j
        (tabulate2 n m g))
   == Qsum2 n m (fun a b =>
                   inject_Z (wrap64 (g (shifted n i a) (shifted m j b) * g a b))
                   - h a b * h (shifted n i a) (shifted m j b))
      / inject_Z (Z.of_nat (n * m)))%Q.
Proof.
  unfold lat_mean, netCorr_frame. rewrite !roll2_tabulate2.
  rewrite !lat_zip_tabulate2, lat_map_tabulate2, lat_zip_tabulate2.
  simpl. rewrite fsum_Qsum, Qsum_concat. unfold tabulate2. rewrite map_map.
  reflexivity.
Qed.

Lemma netCorr_table_symmetric (n m : nat) (h : nat -> nat -> Q) (g : nat -> nat -> Z)
    (i j : Z) :
  (lat_mean n m
     (netCorr_frame (tabulate2 n m h) (roll2 (tabulate2 n m h) (- i) (- j)) (- i) (- j)
        (tabulate2 n m g))
   == lat_mean n m
        (netCorr_frame (tabulate2 n m h) (roll2 (tabulate2 n m h) i j) i j
           (tabulate2 n m g)))%Q.
Proof.
  rewrite !netCorr_table. apply Qmult_comp; [|reflexivity].
  rewrite <- (Qsum2_rotation
                (fun a b =>
                   inject_Z (wrap64 (g (shifted n i a) (shifted m j b) * g a b))
                   - h a b * h (shifted n i a) (shifted m j b))%Q
                n m (- i) (- j)).
  apply Qsum2_ext. intros a b Ha Hb.
  rewrite !(shifted_inverse n i a Ha), !(shifted_inverse m j b Hb).
  rewrite (Z.mul_comm (g a b)). ring.
Qed.

Lemma netCorr_frame_symmetric (n m : nat) (h : nat -> nat -> Q)
    (frame : list (list Z)) (i j : Z) :
  lattice_shaped n m frame ->
  (lat_mean n m
     (netCorr_frame (tabulate2 n m h) (roll2 (tabulate2 n m h) (- i) (- j)) (- i) (- j)
        frame)
   == lat_mean n m
        (netCorr_frame (tabulate2 n m h) (roll2 (tabulate2 n m h) i j) i j frame))%Q.
Proof.
  intros Hframe. rewrite (tabulate2_get 0%Z n m frame Hframe).
  apply netCorr_table_symmetric.
Qed.

End Symmetry.

(** X7. The symmetry that the docstring of [recalculate_lambda] relies
    on: on a well-shaped trajectory with as many frames as dwell times,
    the correlation at the offset [(-i, -j)] equals the correlation at
    [(i, j)], and so do the radicands of the two errors; in particular
    Corr[0, k] = Corr[0, -k] and Corr[k, 0] = Corr[-k, 0]. *)
Theorem spatial_correlation_symmetric (qsqrt : Q -> Q) (self : PottsResult Q)
    (N M i j : Z) :
  param_int self "N" = Ok N ->
  param_int self "M" = Ok M ->
  wf_ndarray3 (traj self) ->
  length (nd_frames (traj self)) = length (trajDt self) ->
  exists c1 v1 c2 v2 : Q,
    _calculate_spatial_correlation (H := Q_Float64 qsqrt) self i j
    = Ok (c1, qsqrt (v1 / inject_Z (N * M))%Q) /\
    _calculate_spatial_correlation (H := Q_Float64 qsqrt) self (- i) (- j)
    = Ok (c2, qsqrt (v2 / inject_Z (N * M))%Q) /\
    (c1 == c2)%Q /\ (v1 == v2)%Q.
Proof.
  intros HN HM Hwf Hlen. unfold _calculate_spatial_correlation.
  rewrite HN, HM.
  rewrite (calculate_mean3_sites qsqrt _ _ _ Hwf Hlen).
  repeat (change (Ok ?a ≫= ?f) with (f a); cbv beta zeta).
  set (R := nd_rows (traj self)). set (C := nd_cols (traj self)).
  set (h := fun a b : nat =>
              (fsum (H := Q_Float64 qsqrt)
                 (zip_with Qmult (site_series (H := Q_Float64 qsqrt) (traj self) a b)
                    (trajDt self))
               / totalSampleTime self)%Q).
  set (L1 := map (fun frame =>
                    lat_mean (H := Q_Float64 qsqrt) R C
                      (netCorr_frame (H := Q_Float64 qsqrt) (tabulate2 R C h)
                         (roll2 (tabulate2 R C h) i j) i j frame))
                 (nd_frames (traj self))).
  set (L2 := map (fun frame =>
                    lat_mean (H := Q_Float64 qsqrt) R C
                      (netCorr_frame (H := Q_Float64 qsqrt) (tabulate2 R C h)
                         (roll2 (tabulate2 R C h) (- i) (- j)) (- i) (- j) frame))
                 (nd_frames (traj self))).
  assert (HL : Forall2 Qeq L1 L2).
  { apply Forall2_map_same. intros frame Hin. symmetry.
    apply netCorr_frame_symmetric.
    unfold wf_ndarray3 in Hwf. rewrite Forall_forall in Hwf.
    apply Hwf, list_elem_of_In. exact Hin. }
  assert (E1 : length L1 = length (trajDt self))
    by (unfold L1; rewrite length_map; exact Hlen).
  assert (E2 : length L2 = length (trajDt self))
    by (unfold L2; rewrite length_map; exact Hlen).
  unfold calculate_var_of_mean.
  rewrite !(calculate_mean_Q qsqrt _ L1) by exact E1.
  rewrite !(calculate_mean_Q qsqrt _ L2) by exact E2.
  repeat (change (Ok ?a ≫= ?f) with (f a); cbv beta zeta).
  rewrite !broadcast0_same_length by (rewrite length_map; assumption).
  repeat (change (Ok ?a ≫= ?f) with (f a); cbv beta zeta).
  eexists _, _, _, _. split; [reflexivity|]. split; [reflexivity|].
  assert (Hmean : (fsum (H := Q_Float64 qsqrt) (zip_with Qmult L1 (trajDt self))
                   / totalSampleTime self
                   == fsum (H := Q_Float64 qsqrt) (zip_with Qmult L2 (trajDt self))
                      / totalSampleTime self)%Q).
  { rewrite !fsum_Qsum. apply Qmult_comp; [|reflexivity].
    apply Qsum_weighted_ext. exact HL. }
  split; [exact Hmean|].
  apply Qmult_comp; [|reflexivity].
  etransitivity; [apply fsum_Qsum|].
  symmetry. etransitivity; [apply fsum_Qsum|]. symmetry.
  exact (Qsum_weighted_squares_ext L1 L2 (trajDt self) _ _ HL Hmean).
Qed.

Lemma spatial_correlation_symmetric_witness :
  exists c1 v1 c2 v2 : Q,
    _calculate_spatial_correlation (H := Qx) ex_loaded22 1 0
    = Ok (c1, Qsqrt_z (v1 / inject_Z (2 * 2))%Q) /\
    _calculate_spatial_correlation (H := Qx) ex_loaded22 (- 1) (- 0)
    = Ok (c2, Qsqrt_z (v2 / inject_Z (2 * 2))%Q) /\
    (c1 == c2)%Q /\ (v1 == v2)%Q.
Proof.
  apply (spatial_correlation_symmetric Qsqrt_z ex_loaded22 2 2 1 0).
  - reflexivity.
  - reflexivity.
  - repeat constructor.
  - reflexivity.
Defined.

(** ** Ordered dictionaries *)

Lemma dict_in_In {V} (k : string) (d : pydict V) :
  dict_in k d = true <-> In k (map fst d).
Proof.
  unfold dict_in. rewrite existsb_exists. split.
  - intros (k' & Hin & Hk). apply String.eqb_eq in Hk. subst k'. exact Hin.
  - intros Hin. exists k. split; [exact Hin | apply String.eqb_refl].
Qed.

Lemma filter_dict_set {V} (P : string -> bool) (d : pydict V) (k : string) (v : V) :
  List.filter (fun kv => P kv.1) (dict_set d k v)
  = if P k then dict_set (List.filter (fun kv => P kv.1) d) k v
    else List.filter (fun kv => P kv.1) d.
Proof.
  induction d as [|[k' v'] d IH]; simpl.
  - destruct (P k); reflexivity.
  - destruct (String.eqb k' k) eqn:Ek.
    + apply String.eqb_eq in Ek. subst k'. simpl.
      destruct (P k); simpl; [rewrite String.eqb_refl|]; reflexivity.
    + simpl. rewrite IH. destruct (P k'), (P k); simpl; try rewrite Ek; reflexivity.
Qed.

Lemma filter_dict_update {V} (P : string -> bool) (p d : pydict V) :
  List.filter (fun kv => P kv.1) (dict_update d p)
  = dict_update (List.filter (fun kv => P kv.1) d) (List.filter (fun kv => P kv.1) p).
Proof.
  unfold dict_update. revert d.
  induction p as [|[k v] p IH]; intros d; simpl; [reflexivity|].
  rewrite IH, filter_dict_set. simpl. destruct (P k); reflexivity.
Qed.

Lemma dict_set_keys {V} (d : pydict V) (k : string) (v : V) :
  In k (map fst d) -> map fst (dict_set d k v) = map fst d.
Proof.
  induction d as [|[k' v'] d IH]; simpl; [tauto|].
  intros Hin. destruct (String.eqb k' k) eqn:Ek; simpl; [reflexivity|].
  f_equal. apply IH. destruct Hin as [->|Hin]; [|exact Hin].
  rewrite String.eqb_refl in Ek. discriminate.
Qed.

Lemma dict_set_to_map {V} (d : pydict V) (k : string) (v : V) :
  NoDup (map fst d) ->
  (list_to_map (dict_set d k v) : gmap string V) = <[k := v]> (list_to_map d).
Proof.
  induction d as [|[k' v'] d IH]; simpl; intros Hnd; [reflexivity|].
  apply NoDup_cons in Hnd as [Hk' Hnd].
  destruct (String.eqb k' k) eqn:Ek; simpl.
  - apply String.eqb_eq in Ek. subst k'. rewrite insert_insert_eq. reflexivity.
  - apply String.eqb_neq in Ek. rewrite IH by exact Hnd.
    apply insert_insert_ne. congruence.
Qed.

Lemma dict_update_snoc {V} (d p : pydict V) (k : string) (v : V) :
  dict_update d (p ++ [(k, v)]) = dict_set (dict_update d p) k v.
Proof. unfold dict_update. rewrite fold_left_app. reflexivity. Qed.

Lemma map_update_snoc {V} (m : gmap string V) (p : pydict V) (k : string) (v : V) :
  map_update m (p ++ [(k, v)]) = <[k := v]> (map_update m p).
Proof. unfold map_update. rewrite fold_left_app. reflexivity. Qed.

(** Updating by entries whose keys are all present keeps the keys in
    their places, and gives every key its last value. *)
Lemma dict_update_present {V} (d p : pydict V) :
  NoDup (map fst d) ->
  Forall (fun kv => In kv.1 (map fst d)) p ->
  map fst (dict_update d p) = map fst d /\
  (list_to_map (dict_update d p) : gmap string V) = map_update (list_to_map d) p.
Proof.
  intros Hnd. induction p as [|[k v] p IH] using rev_ind; intros Hp.
  - split; reflexivity.
  - apply Forall_app in Hp as [Hp Hkv]. apply Forall_cons in Hkv as [Hk _].
    destruct (IH Hp) as [IHk IHm]. simpl in Hk.
    rewrite dict_update_snoc, map_update_snoc. split.
    + rewrite dict_set_keys by (rewrite IHk; exact Hk). exact IHk.
    + rewrite dict_set_to_map by (rewrite IHk; exact Hnd). rewrite IHm. reflexivity.
Qed.

Lemma map_update_filter {V} (P : string -> bool) (m : gmap string V) (p : pydict V)
    (k : string) :
  P k = true ->
  map_update m (List.filter (fun kv => P kv.1) p) !! k = map_update m p !! k.
Proof.
  intros Hk. induction p as [|[k0 v0] p IH] using rev_ind; [reflexivity|].
  rewrite List.filter_app, map_update_snoc. simpl.
  destruct (decide (k0 = k)) as [->|Hne].
  - rewrite Hk, map_update_snoc, !lookup_insert_eq. reflexivity.
  - rewrite lookup_insert_ne by exact Hne.
    destruct (P k0).
    + rewrite map_update_snoc, lookup_insert_ne by exact Hne. exact IH.
    + rewrite app_nil_r. exact IH.
Qed.

Lemma map_update_dom {V} (m : gmap string V) (p : pydict V) :
  dom m ⊆ dom (map_update m p).
Proof.
  induction p as [|[k v] p IH] using rev_ind; [reflexivity|].
  rewrite map_update_snoc, dom_insert_L.
  etrans; [exact IH | apply union_subseteq_r].
Qed.

(** ** Experiments from dictionaries *)

Section FromDict.
Context {F : Type} `{Float64 F}.
Variable py_int : string -> result Z.
Variable py_float : string -> result F.
Variable int_of_float : F -> outcome Z.
Variable float_of_int : Z -> outcome F.
Variable str_of_float : F -> string.

Lemma DEFAUT_PARAMS_names :
  dom PARAM_TRANS = list_to_set (map fst (DEFAUT_PARAMS (F := F))).
Proof. apply (bool_decide_unpack _). vm_compute. exact I. Qed.

Lemma DEFAUT_PARAMS_NoDup : NoDup (map fst (DEFAUT_PARAMS (F := F))).
Proof. apply (bool_decide_unpack _). vm_compute. exact I. Qed.

Lemma DEFAUT_PARAMS_known :
  List.filter (fun kv => dict_in kv.1 (DEFAUT_PARAMS (F := F))) (DEFAUT_PARAMS (F := F))
  = DEFAUT_PARAMS.
Proof. reflexivity. Qed.

Lemma from_dict_loop_filter (items : pydict (pyval F)) (acc : gmap string (pyval F)) :
  from_dict_loop py_int py_float int_of_float float_of_int str_of_float items acc
  = from_dict_loop py_int py_float int_of_float float_of_int str_of_float
      (List.filter (fun kv => dict_in kv.1 (DEFAUT_PARAMS (F := F))) items) acc.
Proof.
  revert acc. induction items as [|[k v] items IH]; intros acc; [reflexivity|].
  cbn [from_dict_loop List.filter fst].
  destruct (dict_in k DEFAUT_PARAMS) eqn:Ek.
  - cbn [from_dict_loop]. rewrite Ek.
    destruct (PARAM_TRANS !! k) as [ty|]; [|reflexivity].
    destruct (convert _ _ _ _ _ ty v); simpl; [apply IH | reflexivity].
  - apply IH.
Qed.

Lemma from_dict_filter (params : pydict (pyval F)) :
  from_dict py_int py_float int_of_float float_of_int str_of_float params
  = from_dict py_int py_float int_of_float float_of_int str_of_float
      (List.filter (fun kv => dict_in kv.1 (DEFAUT_PARAMS (F := F))) params).
Proof.
  unfold from_dict. cbv zeta.
  rewrite (from_dict_loop_filter (dict_update DEFAUT_PARAMS params)).
  rewrite (filter_dict_update (fun k => dict_in k (DEFAUT_PARAMS (F := F)))).
  rewrite DEFAUT_PARAMS_known. reflexivity.
Qed.

Lemma from_dict_loop_keeps (k : string) (items : pydict (pyval F)) :
  forall acc p',
    from_dict_loop py_int py_float int_of_float float_of_int str_of_float items acc
    = Done p' ->
    ~ In k (map fst items) -> p' !! k = acc !! k.
Proof.
  induction items as [|[k1 v1] items IH]; intros acc p' Hloop Hni.
  - injection Hloop as <-. reflexivity.
  - cbn [from_dict_loop] in Hloop. simpl in Hni.
    destruct (dict_in k1 DEFAUT_PARAMS).
    + destruct (PARAM_TRANS !! k1); [|discriminate].
      apply bind_Done in Hloop as (x1 & _ & Hloop).
      rewrite (IH _ _ Hloop) by tauto.
      apply lookup_insert_ne. intros ->. tauto.
    + apply (IH _ _ Hloop). tauto.
Qed.

(** The loop on items with distinct known keys. *)
Lemma from_dict_loop_Done (items : pydict (pyval F)) :
  NoDup (map fst items) ->
  Forall (fun kv => dict_in kv.1 (DEFAUT_PARAMS (F := F)) = true) items ->
  forall acc p',
    from_dict_loop py_int py_float int_of_float float_of_int str_of_float items acc
    = Done p' ->
    dom p' = dom acc ∪ list_to_set (map fst items) /\
    forall k v, In (k, v) items ->
      exists ty x, PARAM_TRANS !! k = Some ty /\
                   convert py_int py_float int_of_float float_of_int str_of_float ty v
                   = Done x /\
                   p' !! k = Some x.
Proof.
  induction items as [|[k v] items IH]; intros Hnd Hknown acc p' Hloop.
  - injection Hloop as <-. split; [|intros k v []].
    simpl. rewrite (right_id_L ∅ (∪)). reflexivity.
  - simpl in Hnd. apply NoDup_cons in Hnd as [Hk Hnd].
    apply Forall_cons in Hknown as [Ek Hknown]. simpl in Ek.
    cbn [from_dict_loop] in Hloop. rewrite Ek in Hloop.
    destruct (PARAM_TRANS !! k) as [ty|] eqn:Hty; [|discriminate].
    apply bind_Done in Hloop as (x & Hx & Hloop).
    destruct (IH Hnd Hknown _ _ Hloop) as [Hdom Hval]. split.
    + rewrite Hdom, dom_insert_L. simpl.
      rewrite (comm_L (∪) {[k]}), <- (assoc_L (∪)). reflexivity.
    + intros k0 v0 [[= <- <-] | Hin]; [|apply Hval; exact Hin].
      exists ty, x. split; [exact Hty|]. split; [exact Hx|].
      rewrite (from_dict_loop_keeps k _ _ _ Hloop)
        by (rewrite <- list_elem_of_In; exact Hk).
      apply lookup_insert_eq.
Qed.

Lemma from_dict_loop_total (items : pydict (pyval F)) :
  (forall k v, In (k, v) items ->
     exists ty x, PARAM_TRANS !! k = Some ty /\
                  convert py_int py_float int_of_float float_of_int str_of_float ty v
                  = Done x) ->
  forall acc, exists p',
    from_dict_loop py_int py_float int_of_float float_of_int str_of_float items acc
    = Done p'.
Proof.
  induction items as [|[k v] items IH]; intros Hconv acc.
  - eexists. reflexivity.
  - cbn [from_dict_loop].
    destruct (dict_in k DEFAUT_PARAMS).
    + destruct (Hconv k v (or_introl eq_refl)) as (ty & x & -> & ->). simpl.
      apply IH. intros k0 v0 Hin. apply Hconv. right. exact Hin.
    + apply IH. intros k0 v0 Hin. apply Hconv. right. exact Hin.
Qed.

(** The items that the loop of [from_dict] converts. *)
Lemma from_dict_items (params : pydict (pyval F)) :
  let items := dict_update (DEFAUT_PARAMS (F := F))
                 (List.filter (fun kv => dict_in kv.1 (DEFAUT_PARAMS (F := F))) params) in
  map fst items = map fst (DEFAUT_PARAMS (F := F)) /\
  forall k v, In (k, v) items <->
    (In k (map fst (DEFAUT_PARAMS (F := F))) /\
     map_update (list_to_map (DEFAUT_PARAMS (F := F))) params !! k = Some v).
Proof.
  intros items.
  destruct (dict_update_present (DEFAUT_PARAMS (F := F))
              (List.filter (fun kv => dict_in kv.1 (DEFAUT_PARAMS (F := F))) params)
              DEFAUT_PARAMS_NoDup) as [Hkeys Hmap].
  { apply Forall_forall. intros kv Hkv.
    apply list_elem_of_In, List.filter_In in Hkv as [_ Hkv].
    apply dict_in_In. exact Hkv. }
  split; [exact Hkeys|]. intros k v.
  assert (Hnd : NoDup (items.*1)).
  { change (items.*1) with (map fst items). unfold items. rewrite Hkeys.
    exact DEFAUT_PARAMS_NoDup. }
  rewrite <- list_elem_of_In.
  rewrite (elem_of_list_to_map (M := gmap string) items k v Hnd).
  unfold items in *. rewrite Hmap. split.
  - intros Hv. assert (Hk : In k (map fst (DEFAUT_PARAMS (F := F)))).
    { rewrite <- Hkeys. apply list_elem_of_In.
      apply (list_elem_of_fmap_2 fst _ (k, v)).
      apply (elem_of_list_to_map (M := gmap string) _ k v Hnd).
      rewrite Hmap. exact Hv. }
    split; [exact Hk|].
    rewrite <- (map_update_filter (fun k => dict_in k (DEFAUT_PARAMS (F := F))))
      by (apply dict_in_In; exact Hk).
    exact Hv.
  - intros [Hk Hv].
    rewrite (map_update_filter (fun k => dict_in k (DEFAUT_PARAMS (F := F))))
      by (apply dict_in_In; exact Hk).
    exact Hv.
Qed.

(** An experiment that [from_dict] returned. *)
Lemma from_dict_Done_inv (params : pydict (pyval F)) (e : PottsExperiment F) :
  from_dict py_int py_float int_of_float float_of_int str_of_float params = Done e ->
  dom (exp_params e) = dom PARAM_TRANS /\
  forall k ty, PARAM_TRANS !! k = Some ty ->
    exists v x,
      map_update (list_to_map DEFAUT_PARAMS) params !! k = Some v /\
      convert py_int py_float int_of_float float_of_int str_of_float ty v = Done x /\
      exp_params e !! k = Some x.
Proof.
  destruct (from_dict_items params) as [Hkeys Hitems].
  intros He. rewrite from_dict_filter in He. unfold from_dict in He.
  cbv zeta in He. apply bind_Done in He as (p & Hp & [= <-]).
  apply from_dict_loop_Done in Hp as [Hdom Hval].
  - cbn [exp_params]. split.
    + rewrite Hdom, Hkeys, dom_empty_L, (left_id_L ∅ (∪)).
      symmetry. apply DEFAUT_PARAMS_names.
    + intros k ty Hty.
      assert (Hk : In k (map fst (DEFAUT_PARAMS (F := F)))).
      { apply list_elem_of_In, (elem_of_list_to_set (C := gset string)).
        rewrite <- DEFAUT_PARAMS_names. apply elem_of_dom. eauto. }
      rewrite <- Hkeys in Hk. apply in_map_iff in Hk as ([k0 v] & Hk0 & Hin).
      simpl in Hk0. subst k0.
      destruct (Hval k v Hin) as (ty' & x & Hty' & Hx & Hlook).
      assert (ty' = ty) by congruence. subst ty'.
      exists v, x. split; [|split; assumption].
      apply Hitems in Hin as [_ Hv]. exact Hv.
  - rewrite Hkeys. apply DEFAUT_PARAMS_NoDup.
  - apply Forall_forall. intros [k v] Hin. apply list_elem_of_In in Hin.
    apply Hitems in Hin as [Hk _]. apply dict_in_In. exact Hk.
Qed.

(** [from_dict] returns when the values convert. *)
Lemma from_dict_converts (params : pydict (pyval F)) :
  (forall k ty v,
     PARAM_TRANS !! k = Some ty ->
     map_update (list_to_map DEFAUT_PARAMS) params !! k = Some v ->
     exists x,
       convert py_int py_float int_of_float float_of_int str_of_float ty v = Done x) ->
  exists e,
    from_dict py_int py_float int_of_float float_of_int str_of_float params = Done e.
Proof.
  destruct (from_dict_items params) as [Hkeys Hitems].
  intros Hconv. rewrite from_dict_filter. unfold from_dict. cbv zeta.
  destruct (from_dict_loop_total
              (dict_update DEFAUT_PARAMS
                 (List.filter (fun kv => dict_in kv.1 (DEFAUT_PARAMS (F := F))) params)))
    with (acc := (∅ : gmap string (pyval F))) as [p Hp].
  - intros k v Hin. apply Hitems in Hin as [Hk Hv].
    assert (Hty : is_Some (PARAM_TRANS !! k)).
    { apply elem_of_dom. rewrite DEFAUT_PARAMS_names.
      apply elem_of_list_to_set, list_elem_of_In. exact Hk. }
    destruct Hty as [ty Hty]. destruct (Hconv k ty v Hty Hv) as [x Hx]. eauto.
  - rewrite Hp. eexists. reflexivity.
Qed.

End FromDict.

(** X8. [from_dict] ignores the keys that are not parameter names: an
    entry under such a key, whatever its value and its place in the
    dictionary, changes neither the experiment that is built nor the
    exception that is raised. *)
Theorem from_dict_ignores_unknown_keys {F : Type} `{Float64 F}
    (py_int : string -> result Z) (py_float : string -> result F)
    (int_of_float : F -> outcome Z) (float_of_int : Z -> outcome F)
    (str_of_float : F -> string)
    (before after : pydict (pyval F)) (k : string) (v : pyval F) :
  dict_in k (DEFAUT_PARAMS (F := F)) = false ->
  from_dict py_int py_float int_of_float float_of_int str_of_float
    (before ++ (k, v) :: after)
  = from_dict py_int py_float int_of_float float_of_int str_of_float
      (before ++ after).
Proof.
  intros Hk.
  rewrite (from_dict_filter _ _ _ _ _ (before ++ (k, v) :: after)).
  rewrite (from_dict_filter _ _ _ _ _ (before ++ after)).
  rewrite !List.filter_app. cbn [List.filter fst]. rewrite Hk. reflexivity.
Qed.

Lemma from_dict_ignores_unknown_keys_witness :
  from_dict (H := Qx) dec_int dec_float Q_int_of_float Q_float_of_int Q_str
    ([("N", PInt 4); ("T", PStr "2.5")]%string ++ ("extra"%string, PInt 7) :: [])
  = from_dict (H := Qx) dec_int dec_float Q_int_of_float Q_float_of_int Q_str
      ([("N", PInt 4); ("T", PStr "2.5")]%string ++ []).
Proof.
  apply (from_dict_ignores_unknown_keys (H := Qx)). reflexivity.
Defined.

(** X9. What [from_dict] builds. When it returns, the experiment holds
    exactly the eleven parameter names, each with the conversion, by the
    type registered for the name, of the value that the dictionary gives
    it last, or of its default when the dictionary has none. It returns
    whenever each of these conversions does. *)
Theorem from_dict_values {F : Type} `{Float64 F}
    (py_int : string -> result Z) (py_float : string -> result F)
    (int_of_float : F -> outcome Z) (float_of_int : Z -> outcome F)
    (str_of_float : F -> string) (params : pydict (pyval F)) :
  (forall e,
     from_dict py_int py_float int_of_float float_of_int str_of_float params = Done e ->
     dom (exp_params e) = dom PARAM_TRANS /\
     forall k ty, PARAM_TRANS !! k = Some ty ->
       exists v x,
         map_update (list_to_map DEFAUT_PARAMS) params !! k = Some v /\
         convert py_int py_float int_of_float float_of_int str_of_float ty v = Done x /\
         exp_params e !! k = Some x)
  /\
  ((forall k ty v,
      PARAM_TRANS !! k = Some ty ->
      map_update (list_to_map DEFAUT_PARAMS) params !! k = Some v ->
      exists x,
        convert py_int py_float int_of_float float_of_int str_of_float ty v = Done x) ->
   exists e,
     from_dict py_int py_float int_of_float float_of_int str_of_float params = Done e).
Proof.
  split.
  - intros e He.
    exact (from_dict_Done_inv py_int py_float int_of_float float_of_int str_of_float
             params e He).
  - intros Hconv.
    exact (from_dict_converts py_int py_float int_of_float float_of_int str_of_float
             params Hconv).
Qed.

Lemma from_dict_values_witness :
  exists e,
    from_dict (H := Qx) dec_int dec_float Q_int_of_float Q_float_of_int Q_str ex_dict
    = Done e /\
    dom (exp_params e) = dom PARAM_TRANS /\
    forall k ty, PARAM_TRANS !! k = Some ty ->
      exists v x,
        map_update (list_to_map (DEFAUT_PARAMS (H := Qx))) ex_dict !! k = Some v /\
        convert dec_int dec_float Q_int_of_float Q_float_of_int Q_str ty v = Done x /\
        exp_params e !! k = Some x.
Proof.
  eexists. split; [vm_compute; reflexivity|].
  apply (proj1 (from_dict_values (H := Qx) dec_int dec_float Q_int_of_float
                  Q_float_of_int Q_str ex_dict)).
  vm_compute. reflexivity.
Defined.

(** ** Commands *)

Lemma mapM_first_Raise {A B} (f : A -> result B) (l : list A) (e : pyexc) :
  (forall x, In x l -> f x = Raise e \/ exists y, f x = Ok y) ->
  (exists x, In x l /\ f x = Raise e) ->
  mapM f l = Raise e.
Proof.
  induction l as [|x l IH]; intros Hall (x0 & Hin & Hx0); [destruct Hin|].
  cbn [mapM]. destruct (Hall x (or_introl eq_refl)) as [Hx | [y Hy]].
  - rewrite Hx. reflexivity.
  - rewrite Hy. change (Ok y ≫= ?g) with (g y). cbv beta.
    rewrite IH; [reflexivity | |].
    + intros z Hz. apply Hall. right. exact Hz.
    + destruct Hin as [-> | Hin]; [congruence|]. eauto.
Qed.

Lemma PARAM_FORMATS_names : dom PARAM_TRANS = list_to_set (map fst PARAM_FORMATS).
Proof. apply (bool_decide_unpack _). vm_compute. exact I. Qed.

Section CommandLemmas.
Context {F : Type}.
Variable str_of_float : F -> string.
Variable POTTSKMC_PATH : string.

Lemma format_args_Ok (m : gmap string (pyval F)) :
  dom PARAM_TRANS ⊆ dom m -> exists args, format_args str_of_float m = Ok args.
Proof.
  intros Hdom. unfold format_args. apply mapM_total. intros [k s] Hin.
  assert (Hk : k ∈ dom m).
  { apply Hdom. rewrite PARAM_FORMATS_names.
    apply elem_of_list_to_set, list_elem_of_In, in_map_iff. exists (k, s). auto. }
  apply elem_of_dom in Hk as [v Hv]. simpl. rewrite Hv. eauto.
Qed.

Lemma format_args_KeyError (m : gmap string (pyval F)) :
  ~ dom PARAM_TRANS ⊆ dom m -> format_args str_of_float m = Raise KeyError.
Proof.
  intros Hdom. unfold format_args. apply mapM_first_Raise.
  - intros [k s] _. simpl. destruct (m !! k); eauto.
  - destruct (decide (Forall (fun ks : string * string => is_Some (m !! ks.1))
                        PARAM_FORMATS)) as [Hall|Hex].
    + exfalso. apply Hdom. intros k Hk. rewrite PARAM_FORMATS_names in Hk.
      apply elem_of_list_to_set, list_elem_of_In, in_map_iff in Hk
        as ([k0 s] & <- & Hin).
      rewrite Forall_forall in Hall. apply elem_of_dom.
      apply (Hall (k0, s)), list_elem_of_In. exact Hin.
    + apply not_Forall_Exists in Hex; [|intros ks; apply _].
      apply Exists_exists in Hex as ([k s] & Hin & Hnone).
      exists (k, s). split; [apply list_elem_of_In; exact Hin|].
      simpl in *. destruct (m !! k); [exfalso; apply Hnone; eauto | reflexivity].
Qed.

End CommandLemmas.

(** X10. [get_command] depends on the presence of the eleven parameter
    names only: with all of them among the keys of the experiment and of
    the dictionary passed, it returns the words that [dict_to_run_args]
    gives for the merged dictionary, joined by single spaces; with one
    of them missing it raises [KeyError]. *)
Theorem get_command_defined {F : Type} (str_of_float : F -> string)
    (POTTSKMC_PATH : string) (self : PottsExperiment F)
    (params_arg : option (pydict (pyval F))) :
  let merged := match params_arg with
                | None => exp_params self
                | Some other => map_update (exp_params self) other
                end in
  (dom PARAM_TRANS ⊆ dom merged ->
   exists args,
     dict_to_run_args str_of_float POTTSKMC_PATH self merged = Ok args /\
     length args = 13%nat /\
     get_command str_of_float POTTSKMC_PATH self params_arg
     = Ok (String.concat " " args))
  /\
  (~ dom PARAM_TRANS ⊆ dom merged ->
   get_command str_of_float POTTSKMC_PATH self params_arg = Raise KeyError).
Proof.
  intros merged. unfold get_command, dict_to_run_args. fold merged. split.
  - intros Hdom. destruct (format_args_Ok str_of_float merged Hdom) as [args Hargs].
    rewrite Hargs. eexists. split; [reflexivity|]. split; [|reflexivity].
    apply mapM_Ok in Hargs as [Hlen _].
    rewrite length_app, length_app, Hlen. reflexivity.
  - intros Hdom. rewrite (format_args_KeyError str_of_float merged Hdom). reflexivity.
Qed.

Lemma get_command_defined_witness :
  exists args,
    dict_to_run_args Q_str "./PottsKMC" (mk_experiment ex_params)
      (map_update ex_params ex_dict) = Ok args /\
    length args = 13%nat /\
    get_command Q_str "./PottsKMC" (mk_experiment ex_params) (Some ex_dict)
    = Ok (String.concat " " args).
Proof.
  apply (proj1 (get_command_defined Q_str "./PottsKMC" (mk_experiment ex_params)
                  (Some ex_dict))).
  apply (bool_decide_unpack _). vm_compute. exact I.
Defined.

(** X11. The constructors establish what [get_command] needs: on an
    experiment that [from_log] or [from_dict] returned, [get_command]
    returns a command, whatever dictionary it is passed, or none. *)
Theorem get_command_of_parsed {F : Type} `{Float64 F}
    (py_int : string -> result Z) (py_float : string -> result F)
    (int_of_float : F -> outcome Z) (float_of_int : Z -> outcome F)
    (str_of_float : F -> string) (POTTSKMC_PATH : string)
    (e : PottsExperiment F) :
  (exists logFile, from_log py_int py_float logFile = Ok e) \/
  (exists params,
     from_dict py_int py_float int_of_float float_of_int str_of_float params = Done e) ->
  forall params_arg,
    exists command,
      get_command str_of_float POTTSKMC_PATH e params_arg = Ok command.
Proof.
  intros He params_arg.
  assert (Hdom : dom (exp_params e) = dom PARAM_TRANS).
  { destruct He as [[logFile He] | [params He]].
    - apply from_log_Ok in He as [Hdom _]. exact Hdom.
    - rewrite from_dict_filter in He. unfold from_dict in He. cbv zeta in He.
      apply bind_Done in He as (p & Hp & [= <-]).
      destruct (from_dict_items params) as [Hkeys Hitems].
      apply from_dict_loop_Done in Hp as [Hd _].
      + cbn [exp_params]. rewrite Hd, Hkeys, dom_empty_L, (left_id_L ∅ (∪)).
        symmetry. apply DEFAUT_PARAMS_names.
      + rewrite Hkeys. apply DEFAUT_PARAMS_NoDup.
      + apply Forall_forall. intros [k v] Hin. apply list_elem_of_In in Hin.
        apply Hitems in Hin as [Hk _]. apply dict_in_In. exact Hk. }
  unfold get_command.
  destruct (format_args_Ok str_of_float
              (match params_arg with
               | None => exp_params e
               | Some other => map_update (exp_params e) other
               end)) as [args Hargs].
  - destruct params_arg as [other|].
    + rewrite <- Hdom. apply map_update_dom.
    + rewrite Hdom. reflexivity.
  - rewrite Hargs. eexists. reflexivity.
Qed.

Lemma get_command_of_parsed_witness :
  exists command,
    get_command Q_str "./PottsKMC" (mk_experiment ex_params) (Some ex_dict)
    = Ok command.
Proof.
  apply (get_command_of_parsed (H := Qx) dec_int dec_float Q_int_of_float
           Q_float_of_int Q_str "./PottsKMC" (mk_experiment ex_params)).
  left. exists ex_log. vm_compute. reflexivity.
Defined.

(** ** Batch files *)

Lemma job_script_app (b i : Z) (l1 l2 : list string) :
  job_script b i (l1 ++ l2)
  = job_script b i l1 ++ job_script b (i + Z.of_nat (length l1)) l2.
Proof.
  revert i. induction l1 as [|c l1 IH]; intros i.
  - simpl. rewrite Z.add_0_r. reflexivity.
  - cbn [job_script app length]. rewrite IH.
    replace (i + 1 + Z.of_nat (length l1)) with (i + Z.of_nat (S (length l1))) by lia.
    rewrite <- !app_assoc. reflexivity.
Qed.

Lemma job_script_short (b i : Z) (l : list string) :
  0 < b -> (i - 1) mod b = 0 -> Z.of_nat (length l) < b ->
  job_script b i l = map job_line l.
Proof.
  intros Hb Hi. 
  assert (Hgen : forall (l : list string) (k : Z),
            0 <= k -> k + Z.of_nat (length l) < b ->
            job_script b (i + k) l = map job_line l).
  { clear l. induction l as [|c l IH]; intros k Hk Hlen; [reflexivity|].
    cbn [job_script map]. cbn [length] in Hlen.
    assert (Hmod : (i + k) mod b = k + 1).
    { apply Z.mod_divide in Hi as [q0 Hq0]; [|lia].
      replace (i + k) with (k + 1 + q0 * b) by lia.
      rewrite Z.mod_add by lia. apply Z.mod_small. lia. }
    rewrite Hmod.
    replace (k + 1 =? 0) with false by (symmetry; apply Z.eqb_neq; lia).
    rewrite andb_false_r. simpl.
    replace (i + k + 1) with (i + (k + 1)) by ring.
    rewrite IH by lia. reflexivity. }
  intros Hlen. rewrite <- (Z.add_0_r i). apply Hgen; lia.
Qed.

Lemma job_script_block (b i : Z) (l : list string) :
  0 < b -> (i - 1) mod b = 0 -> Z.of_nat (length l) = b ->
  job_script b i l = map job_line l ++ [wait_line].
Proof.
  intros Hb Hi Hlen.
  destruct l as [|c0 l0] using rev_ind; [simpl in Hlen; lia|]. clear IHl0.
  rewrite length_app in Hlen. simpl in Hlen.
  rewrite job_script_app, job_script_short by lia.
  rewrite map_app, <- app_assoc. f_equal. cbn [job_script map app].
  replace (i + Z.of_nat (length l0)) with ((i - 1) + 1 * b) by lia.
  rewrite Z.mod_add, Hi by lia.
  replace (0 <? b) with true by (symmetry; apply Z.ltb_lt; exact Hb).
  reflexivity.
Qed.

Lemma job_script_groups (b : Z) (n : nat) :
  0 < b ->
  forall (i : Z) (commands : list string),
    (length commands <= n)%nat -> (i - 1) mod b = 0 ->
    exists groups rest,
      commands = concat groups ++ rest /\
      Forall (fun g => length g = Z.to_nat b) groups /\
      (length rest < Z.to_nat b)%nat /\
      job_script b i commands
      = concat (map (fun g => map job_line g ++ [wait_line]) groups)
        ++ map job_line rest.
Proof.
  intros Hb. induction n as [|n IH]; intros i commands Hn Hi.
  - destruct commands; [|simpl in Hn; lia].
    exists [], []. simpl. repeat split; [constructor | lia].
  - destruct (Nat.lt_ge_cases (length commands) (Z.to_nat b)) as [Hshort|Hlong].
    + exists [], commands. simpl. split; [reflexivity|]. split; [constructor|].
      split; [exact Hshort|]. apply job_script_short; [assumption..|lia].
    + destruct (IH (i + b) (drop (Z.to_nat b) commands)) as (groups & rest & Hc & Hg & Hr & Hs).
      * rewrite length_drop. lia.
      * replace (i + b - 1) with ((i - 1) + 1 * b) by ring.
        rewrite Z.mod_add by lia. exact Hi.
      * exists (take (Z.to_nat b) commands :: groups), rest.
        assert (Htake : length (take (Z.to_nat b) commands) = Z.to_nat b)
          by (rewrite length_take; lia).
        split; [|split; [|split]].
        -- simpl. rewrite <- app_assoc, <- Hc, take_drop. reflexivity.
        -- constructor; assumption.
        -- exact Hr.
        -- rewrite <- (take_drop (Z.to_nat b) commands) at 1.
           rewrite job_script_app, Htake, Z2Nat.id by lia.
           rewrite (job_script_block b i) by (try assumption; lia).
           rewrite Hs. simpl. rewrite <- !app_assoc. reflexivity.
Qed.

Lemma job_script_unbatched (b i : Z) (l : list string) :
  b <= 0 -> job_script b i l = map job_line l.
Proof.
  intros Hb. revert i. induction l as [|c l IH]; intros i; [reflexivity|].
  cbn [job_script map].
  replace (0 <? b) with false by (symmetry; apply Z.ltb_ge; exact Hb).
  simpl. rewrite IH. reflexivity.
Qed.

Section BatchLemmas.
Context {F : Type}.
Variable str_of_float : F -> string.
Variable POTTSKMC_PATH : string.

Lemma write_jobs_script (expr : PottsExperiment F) (b : Z)
    (paramList : list (pydict (pyval F))) :
  forall i,
    write_jobs str_of_float POTTSKMC_PATH expr b i paramList
    = (commands ← mapM (fun p => get_command str_of_float POTTSKMC_PATH expr (Some p))
                    paramList;
       Ok (job_script b i commands)).
Proof.
  induction paramList as [|p rest IH]; intros i; [reflexivity|].
  cbn [write_jobs mapM].
  destruct (get_command str_of_float POTTSKMC_PATH expr (Some p)) as [c|e];
    [|reflexivity].
  change (Ok c ≫= ?g) with (g c). cbv beta zeta.
  rewrite IH.
  destruct (mapM _ rest) as [cs|e]; reflexivity.
Qed.

End BatchLemmas.

(** X12. The batch file. [writeBatchFile] returns exactly when
    [get_command] returns for every dictionary of the list; the file is
    then the line [#!/usr/bin/env bash], one line [command &] per
    dictionary in the order of the list, and joins: with a positive
    batch size, a line [wait] after every full batch of that many
    commands, so that no more than [batchSize] commands stand between
    two joins, and a last [wait] after the commands that are left
    (fewer than [batchSize], possibly none); with a batch size of zero
    or less, the last [wait] only. *)
Theorem writeBatchFile_batches {F : Type} (str_of_float : F -> string)
    (POTTSKMC_PATH : string) (expr : PottsExperiment F)
    (paramList : list (pydict (pyval F))) (batchSize : Z) :
  (forall e,
     mapM (fun p => get_command str_of_float POTTSKMC_PATH expr (Some p)) paramList
     = Raise e ->
     writeBatchFile str_of_float POTTSKMC_PATH expr paramList batchSize = Raise e)
  /\
  (forall commands,
     mapM (fun p => get_command str_of_float POTTSKMC_PATH expr (Some p)) paramList
     = Ok commands ->
     exists groups rest,
       commands = concat groups ++ rest /\
       Forall (fun g => 0 < batchSize /\ length g = Z.to_nat batchSize) groups /\
       (0 < batchSize -> (length rest < Z.to_nat batchSize)%nat) /\
       writeBatchFile str_of_float POTTSKMC_PATH expr paramList batchSize
       = Ok ([bash_line]
             ++ concat (map (fun g => map job_line g ++ [wait_line]) groups)
             ++ map job_line rest ++ [wait_line])).
Proof.
  unfold writeBatchFile. rewrite write_jobs_script. split.
  - intros e ->. reflexivity.
  - intros commands ->. change (Ok commands ≫= ?g) with (g commands). cbv beta.
    change (Ok ?a ≫= ?g) with (g a). cbv beta.
    destruct (Z.lt_ge_cases 0 batchSize) as [Hb|Hb].
    + assert (H1 : (1 - 1) mod batchSize = 0) by apply Zmod_0_l.
      destruct (job_script_groups batchSize (length commands) Hb 1 commands
                  (Nat.le_refl _) H1)
        as (groups & rest & Hc & Hg & Hr & Hs).
      exists groups, rest. split; [exact Hc|]. split; [|split; [intros _; exact Hr|]].
      * eapply Forall_impl; [exact Hg|]. intros g Hlen. split; assumption.
      * rewrite Hs, <- !app_assoc. reflexivity.
    + exists [], commands. split; [reflexivity|]. split; [constructor|].
      split; [intros Hpos; lia|].
      rewrite job_script_unbatched by exact Hb. reflexivity.
Qed.

Lemma writeBatchFile_batches_witness :
  exists commands groups rest,
    mapM (fun p => get_command Q_str "./PottsKMC" (mk_experiment ex_params) (Some p))
      [ex_dict; []; ex_dict; ex_dict; []] = Ok commands /\
    commands = concat groups ++ rest /\
    Forall (fun g => 0 < 2 /\ length g = Z.to_nat 2) groups /\
    (0 < 2 -> (length rest < Z.to_nat 2)%nat) /\
    writeBatchFile Q_str "./PottsKMC" (mk_experiment ex_params)
      [ex_dict; []; ex_dict; ex_dict; []] 2
    = Ok ([bash_line]
          ++ concat (map (fun g => map job_line g ++ [wait_line]) groups)
          ++ map job_line rest ++ [wait_line]).
Proof.
  eexists. 
  assert (Hc : mapM (fun p => get_command Q_str "./PottsKMC" (mk_experiment ex_params)
                                (Some p))
                 [ex_dict; []; ex_dict; ex_dict; []] = Ok _)
    by (vm_compute; reflexivity).
  destruct (proj2 (writeBatchFile_batches Q_str "./PottsKMC" (mk_experiment ex_params)
                     [ex_dict; []; ex_dict; ex_dict; []] 2) _ Hc)
    as (groups & rest & H1 & H2 & H3 & H4).
  exists groups, rest. split; [exact Hc|]. split; [exact H1|].
  split; [exact H2|]. split; [exact H3 | exact H4].
Defined.

(** ** Heat capacity and the whole analysis *)

Section Analysis.
Context {F : Type} `{Float64 F}.
Variable py_pow2 : F -> outcome F.
Variable float_of_int : Z -> outcome F.

Lemma calculate_mean_aligned (dt q : list F) (total : F) :
  length q = length dt ->
  calculate_mean dt total q = Ok (fdiv (fsum (zip_with fmul q dt)) total).
Proof.
  intros E. unfold calculate_mean. rewrite broadcast0_same_length by exact E.
  reflexivity.
Qed.

Lemma calculate_var_of_mean_aligned (dt q : list F) (total : F) :
  length q = length dt -> exists v, calculate_var_of_mean dt total q = Ok v.
Proof.
  intros E. unfold calculate_var_of_mean. rewrite calculate_mean_aligned by exact E.
  change (Ok ?a ≫= ?f) with (f a). cbv beta zeta.
  rewrite broadcast0_same_length by (rewrite length_map; exact E).
  eexists. reflexivity.
Qed.

Lemma recalculate_average_energy_total (self : PottsResult F) :
  length (trajEnergy self) = length (trajDt self) ->
  exists c,
    recalculate_average_energy self
    = Ok (RTuple c,
          set_properties self (<["aveEnergy"%string := c]> (properties self))).
Proof.
  intros E. unfold recalculate_average_energy.
  rewrite calculate_mean_aligned by exact E.
  destruct (calculate_var_of_mean_aligned (trajDt self) (trajEnergy self)
              (totalSampleTime self) E) as [v ->].
  eexists. reflexivity.
Qed.

Lemma recalculate_magnetization_total (self : PottsResult F) :
  is_Ok (param_int self "N") = true ->
  is_Ok (param_int self "M") = true ->
  length (nd_frames (traj self)) = length (trajDt self) ->
  exists c,
    recalculate_magnetization self
    = Ok (RTuple c,
          set_properties self (<["magnetization"%string := c]> (properties self))).
Proof.
  intros HN HM Hlen. unfold recalculate_magnetization.
  destruct (param_int self "N") as [N|]; [|discriminate].
  destruct (param_int self "M") as [M|]; [|discriminate].
  change (Ok ?a ≫= ?f) with (f a). cbv beta.
  change (Ok ?a ≫= ?f) with (f a). cbv beta zeta.
  assert (E : length (frame_means (traj self)) = length (trajDt self))
    by (unfold frame_means; rewrite length_map; exact Hlen).
  rewrite calculate_mean_aligned by exact E.
  destruct (calculate_var_of_mean_aligned (trajDt self) (frame_means (traj self))
              (totalSampleTime self) E) as [v ->].
  eexists. reflexivity.
Qed.

Lemma recalculate_spatial_correlation_total (self : PottsResult F) (N M : Z) :
  param_int self "N" = Ok N ->
  param_int self "M" = Ok M ->
  0 <= N -> 0 <= M ->
  length (nd_frames (traj self)) = length (trajDt self) ->
  exists v c,
    recalculate_spatial_correlation self CNone
    = Ok (v, set_properties self
               (<["spatialCorrelation"%string := c]> (properties self))).
Proof.
  intros HN HM HN0 HM0 Hlen.
  unfold recalculate_spatial_correlation, correlation_bounds. rewrite HN, HM.
  change (Ok ?a ≫= ?f) with (f a). cbv beta.
  change (Ok ?a ≫= ?f) with (f a). cbv beta.
  change (Ok ?a ≫= ?f) with (f a). cbv beta iota.
  unfold np_zeros_check. cbn [forallb].
  destruct (Z.leb_spec 0 (N / 2)) as [_|Hneg];
    [|pose proof (Z.div_pos N 2 HN0 ltac:(lia)); lia].
  destruct (Z.leb_spec 0 (M / 2)) as [_|Hneg];
    [|pose proof (Z.div_pos M 2 HM0 ltac:(lia)); lia].
  cbn [andb]. change (Ok ?a ≫= ?f) with (f a). cbv beta.
  destruct (mapM_total
              (fun i => mapM (fun j => _calculate_spatial_correlation self i j)
                          (range (M / 2)))
              (range (N / 2))) as [entries ->].
  - intros i _. apply mapM_total. intros j _.
    apply _calculate_spatial_correlation_total;
      [rewrite HN | rewrite HM | exact Hlen]; reflexivity.
  - eexists _, _. reflexivity.
Qed.

Lemma recalculate_lambda_total (self : PottsResult F) (N M : Z) :
  param_int self "N" = Ok N ->
  param_int self "M" = Ok M ->
  0 <= N -> 0 <= M ->
  length (nd_frames (traj self)) = length (trajDt self) ->
  exists c,
    recalculate_lambda self None
    = Ok (RTuple c, set_properties self (<["Lambda"%string := c]> (properties self))).
Proof.
  intros HN HM HN0 HM0 Hlen.
  assert (Htot : forall i j, exists c, _calculate_spatial_correlation self i j = Ok c).
  { intros i j. apply _calculate_spatial_correlation_total;
      [rewrite HN | rewrite HM | exact Hlen]; reflexivity. }
  unfold recalculate_lambda, lambda_bound. rewrite HN, HM.
  change (Ok ?a ≫= ?f) with (f a). cbv beta.
  change (Ok ?a ≫= ?f) with (f a). cbv beta.
  change (Ok ?a ≫= ?f) with (f a). cbv beta.
  cbn [read_local]. change (Ok ?a ≫= ?f) with (f a). cbv beta.
  unfold np_zeros_check. cbn [forallb].
  destruct (Z.leb_spec 0 (Z.min (N / 2) (M / 2))) as [_|Hneg];
    [|pose proof (Z.div_pos N 2 HN0 ltac:(lia));
      pose proof (Z.div_pos M 2 HM0 ltac:(lia)); lia].
  cbn [andb]. change (Ok ?a ≫= ?f) with (f a). cbv beta.
  destruct (mapM_total (fun i => _calculate_spatial_correlation self i 0)
              (range (Z.min (N / 2) (M / 2)))) as [V ->]; [intros x _; apply Htot|].
  change (Ok ?a ≫= ?f) with (f a). cbv beta.
  destruct (mapM_total (fun j => _calculate_spatial_correlation self 0 j)
              (range (Z.min (N / 2) (M / 2)))) as [Hc ->]; [intros x _; apply Htot|].
  eexists. reflexivity.
Qed.

(** The computation of the heat capacity up to its last division. *)
Lemma recalculate_heat_capacity_steps (self : PottsResult F) (N M : Z) (T T2 NM : F) :
  param_int self "N" = Ok N ->
  param_int self "M" = Ok M ->
  param_float self "T" = Ok T ->
  length (trajEnergy self) = length (trajDt self) ->
  py_pow2 T = Done T2 ->
  float_of_int (N * M) = Done NM ->
  exists varH v,
    calculate_var (trajDt self) (totalSampleTime self) (trajEnergy self) = Ok varH /\
    recalculate_heat_capacity py_pow2 float_of_int self
    = (factor ← py_truediv (kB self) (fmul NM T2);
       let heatCapacity := (Scalar (fmul varH factor),
                            Scalar (fmul (fpow_half v) factor)) in
       Done (RTuple heatCapacity,
             set_properties self
               (<["heatCapacity"%string := heatCapacity]> (properties self)))).
Proof.
  intros HN HM HT E Hpow Hconv.
  unfold recalculate_heat_capacity, calculate_var.
  rewrite HN, HM.
  cbn [lift]. repeat (change (Done ?a ≫= ?f) with (f a); cbv beta zeta).
  rewrite (calculate_mean_aligned _ (trajEnergy self)) by exact E.
  change (Ok ?a ≫= ?f) with (f a). cbv beta.
  cbn [lift]. repeat (change (Done ?a ≫= ?f) with (f a); cbv beta zeta).
  set (netE2 := map _ (trajEnergy self)).
  assert (E2 : length netE2 = length (trajDt self))
    by (unfold netE2; rewrite length_map; exact E).
  rewrite calculate_mean_aligned by exact E2.
  cbn [lift]. repeat (change (Done ?a ≫= ?f) with (f a); cbv beta zeta).
  destruct (calculate_var_of_mean_aligned (trajDt self) netE2 (totalSampleTime self) E2)
    as [v ->].
  cbn [lift]. repeat (change (Done ?a ≫= ?f) with (f a); cbv beta zeta).
  rewrite HT.
  cbn [lift]. repeat (change (Done ?a ≫= ?f) with (f a); cbv beta zeta).
  rewrite Hpow. repeat (change (Done ?a ≫= ?f) with (f a); cbv beta zeta).
  rewrite Hconv. repeat (change (Done ?a ≫= ?f) with (f a); cbv beta zeta).
  eexists _, v. split; reflexivity.
Qed.

End Analysis.

(** X13. The heat capacity. On a result with integer [N] and [M], a
    float [T] and as many energies as dwell times,
    [recalculate_heat_capacity] first computes the variance of the
    energy, which is [calculate_var] of it, and then the factor
    [kB / (N * M * T ** 2)] in Python's own arithmetic: when
    [N * M * T ** 2] is zero (a temperature of zero, say) it raises
    [ZeroDivisionError] and caches nothing; otherwise it returns and
    caches under ["heatCapacity"] the variance and its error, each
    multiplied by the factor. *)
Theorem heat_capacity_value {F : Type} `{Float64 F}
    (py_pow2 : F -> outcome F) (float_of_int : Z -> outcome F)
    (self : PottsResult F) (N M : Z) (T T2 NM : F) :
  param_int self "N" = Ok N ->
  param_int self "M" = Ok M ->
  param_float self "T" = Ok T ->
  length (trajEnergy self) = length (trajDt self) ->
  py_pow2 T = Done T2 ->
  float_of_int (N * M) = Done NM ->
  exists varH v,
    calculate_var (trajDt self) (totalSampleTime self) (trajEnergy self) = Ok varH /\
    (feqb (fmul NM T2) fzero = true ->
     recalculate_heat_capacity py_pow2 float_of_int self = Fail ZeroDivisionError) /\
    (feqb (fmul NM T2) fzero = false ->
     let factor := fdiv (kB self) (fmul NM T2) in
     let heatCapacity := (Scalar (fmul varH factor),
                          Scalar (fmul (fpow_half v) factor)) in
     recalculate_heat_capacity py_pow2 float_of_int self
     = Done (RTuple heatCapacity,
             set_properties self
               (<["heatCapacity"%string := heatCapacity]> (properties self)))).
Proof.
  intros HN HM HT E Hpow Hconv.
  destruct (recalculate_heat_capacity_steps py_pow2 float_of_int self N M T T2 NM
              HN HM HT E Hpow Hconv) as (varH & v & Hvar & Hsteps).
  exists varH, v. split; [exact Hvar|]. rewrite Hsteps. unfold py_truediv.
  split; intros ->; reflexivity.
Qed.

Lemma heat_capacity_value_witness :
  exists varH v,
    calculate_var (H := Qx) (trajDt ex_loaded22) (totalSampleTime ex_loaded22)
      (trajEnergy ex_loaded22) = Ok varH /\
    recalculate_heat_capacity (H := Qx) Q_pow2 Q_float_of_int ex_loaded22
    = Done (RTuple (Scalar (varH * (1 / (inject_Z (2 * 2) * (1 * 1))))%Q,
                    Scalar (Qsqrt_z v * (1 / (inject_Z (2 * 2) * (1 * 1))))%Q),
            set_properties ex_loaded22
              (<["heatCapacity"%string :=
                   (Scalar (varH * (1 / (inject_Z (2 * 2) * (1 * 1))))%Q,
                    Scalar (Qsqrt_z v * (1 / (inject_Z (2 * 2) * (1 * 1))))%Q)]>
                 (properties ex_loaded22))).
Proof.
  destruct (heat_capacity_value (H := Qx) Q_pow2 Q_float_of_int ex_loaded22
              2 2 1%Q (1 * 1)%Q (inject_Z (2 * 2)))
    as (varH & v & Hvar & _ & Hval); try reflexivity.
  exists varH, v. split; [exact Hvar|]. apply Hval. reflexivity.
Defined.

(** X14. The whole analysis. On a result with integer [N >= 0] and
    [M >= 0], a float [T], and as many energies and frames as dwell
    times: when [N * M * T ** 2] is zero, [run_all_analysis] raises
    [ZeroDivisionError]; otherwise it returns, and the object it leaves
    is the one it was called on with five more entries in its cache,
    under ["aveEnergy"], ["heatCapacity"], ["magnetization"],
    ["spatialCorrelation"] and ["Lambda"]. *)
Theorem run_all_analysis_caches {F : Type} `{Float64 F}
    (py_pow2 : F -> outcome F) (float_of_int : Z -> outcome F)
    (self : PottsResult F) (N M : Z) (T T2 NM : F) :
  param_int self "N" = Ok N ->
  param_int self "M" = Ok M ->
  0 <= N -> 0 <= M ->
  param_float self "T" = Ok T ->
  length (trajEnergy self) = length (trajDt self) ->
  length (nd_frames (traj self)) = length (trajDt self) ->
  py_pow2 T = Done T2 ->
  float_of_int (N * M) = Done NM ->
  (feqb (fmul NM T2) fzero = true ->
   run_all_analysis py_pow2 float_of_int self = Fail ZeroDivisionError)
  /\
  (feqb (fmul NM T2) fzero = false ->
   exists self',
     run_all_analysis py_pow2 float_of_int self = Done self' /\
     self' = set_properties self (properties self') /\
     dom (properties self')
     = {["Lambda"%string]} ∪ ({["spatialCorrelation"%string]}
       ∪ ({["magnetization"%string]} ∪ ({["heatCapacity"%string]}
       ∪ ({["aveEnergy"%string]} ∪ dom (properties self)))))).
Proof.
  intros HN HM HN0 HM0 HT E Hlen Hpow Hconv.
  destruct (recalculate_average_energy_total self E) as [c1 H1].
  set (s1 := set_properties self (<["aveEnergy"%string := c1]> (properties self))) in *.
  destruct (recalculate_heat_capacity_steps py_pow2 float_of_int s1 N M T T2 NM
              HN HM HT E Hpow Hconv) as (varH & v & _ & H2).
  unfold run_all_analysis. rewrite H1. cbn [lift].
  change (Done ?a ≫= ?f) with (f a). cbv beta. cbn [snd]. fold s1.
  rewrite H2. unfold py_truediv. split; intros ->; [reflexivity|].
  change (Done ?a ≫= ?f) with (f a). cbv beta zeta.
  change (Done ?a ≫= ?f) with (f a). cbv beta. cbn [snd].
  match goal with
  | |- context [recalculate_magnetization ?s] => set (s2 := s)
  end.
  destruct (recalculate_magnetization_total s2) as [c3 H3];
    [change (param_int s2 "N") with (param_int self "N"); rewrite HN; reflexivity
    |change (param_int s2 "M") with (param_int self "M"); rewrite HM; reflexivity
    |exact Hlen|].
  rewrite H3. cbn [lift]. change (Done ?a ≫= ?f) with (f a). cbv beta. cbn [snd].
  match goal with
  | |- context [recalculate_spatial_correlation ?s _] => set (s3 := s)
  end.
  destruct (recalculate_spatial_correlation_total s3 N M HN HM HN0 HM0 Hlen)
    as (v4 & c4 & H4).
  rewrite H4. cbn [lift]. change (Done ?a ≫= ?f) with (f a). cbv beta. cbn [snd].
  match goal with
  | |- context [recalculate_lambda ?s _] => set (s4 := s)
  end.
  destruct (recalculate_lambda_total s4 N M HN HM HN0 HM0 Hlen) as [c5 H5].
  rewrite H5. cbn [lift]. change (Done ?a ≫= ?f) with (f a). cbv beta. cbn [snd].
  eexists. split; [reflexivity|]. split; [reflexivity|].
  cbn [properties set_properties]. unfold s4, s3, s2, s1.
  cbn [properties set_properties].
  rewrite !dom_insert_L. reflexivity.
Qed.

Lemma run_all_analysis_caches_witness :
  exists self',
    run_all_analysis (H := Qx) Q_pow2 Q_float_of_int ex_loaded22 = Done self' /\
    self' = set_properties ex_loaded22 (properties self') /\
    dom (properties self')
    = {["Lambda"%string]} ∪ ({["spatialCorrelation"%string]}
      ∪ ({["magnetization"%string]} ∪ ({["heatCapacity"%string]}
      ∪ ({["aveEnergy"%string]} ∪ dom (properties ex_loaded22))))).
Proof.
  apply (proj2 (run_all_analysis_caches (H := Qx) Q_pow2 Q_float_of_int ex_loaded22
                  2 2 1%Q (1 * 1)%Q (inject_Z (2 * 2))
                  eq_refl eq_refl ltac:(lia) ltac:(lia) eq_refl eq_refl eq_refl
                  eq_refl eq_refl)).
  reflexivity.
Defined.

(** ** Tables of rank below two *)

(** X15. A FullState artifact whose table [np.loadtxt] returns with a
    rank below two, as it does for a file with one data row or with
    none, is not loaded: with integer [N] and [M], [load_traj] raises
    [IndexError], at the first column taken from the table. *)
Theorem fullstate_rank_below_two_raises {F : Type} `{Float64 F}
    (np_loadtxt : string -> result (ndval F))
    (np_array_map_int : list string -> result (list Z))
    (self : PottsResult F) (trajFile : string) (a : ndval F) :
  search_trajType (first_line trajFile) = Some "FullState"%string ->
  is_Ok (param_int self "N") = true ->
  is_Ok (param_int self "M") = true ->
  np_loadtxt trajFile = Ok a ->
  (forall rows, a <> Mat rows) ->
  load_traj np_loadtxt np_array_map_int self trajFile = Raise IndexError.
Proof.
  unfold first_line, load_traj. destruct (readline (open_rt trajFile)) as [line1 rest].
  simpl. intros -> HN HM Ha Hrank. simpl.
  unfold _load_fullstate_traj. rewrite Ha.
  destruct (param_int self "N") as [N|]; [|discriminate].
  destruct (param_int self "M") as [M|]; [|discriminate].
  destruct a as [x|v|rows]; [reflexivity | reflexivity |].
  exfalso. exact (Hrank rows eq_refl).
Qed.

Lemma fullstate_rank_below_two_raises_witness :
  load_traj (H := Qx) loadtxt_dec np_array_map_int_py3 (unloaded (H := Qx) ex_params)
    ex_single_frame = Raise IndexError.
Proof.
  apply (fullstate_rank_below_two_raises (H := Qx) loadtxt_dec np_array_map_int_py3
           (unloaded (H := Qx) ex_params) ex_single_frame (Vec [0; 0; 1; 0; 1; 0]%Q)).
  - reflexivity.
  - reflexivity.
  - reflexivity.
  - vm_compute. reflexivity.
  - intros rows. discriminate.
Defined.

(** ** The table of correlations *)

Lemma mapM_lookup_Ok {A B} (f : A -> result B) (l : list A) (ys : list B) (i : nat) (x : A) :
  mapM f l = Ok ys -> l !! i = Some x -> exists y, f x = Ok y /\ ys !! i = Some y.
Proof. intros Hys. apply (proj2 (mapM_Ok f l ys Hys)). Qed.

(** X16. The table of correlations. With bounds [(Nmax, Mmax)] taken
    from the cutoff (half the lattice sides when there is none, the
    cutoff twice when it is a number, its two entries when it is a
    pair), on a result with [N] and [M] and as many frames as dwell
    times: a negative bound is a [ValueError]; otherwise
    [recalculate_spatial_correlation] returns a table of [Nmax] rows of
    [Mmax] entries whose entry [(i, j)] is the correlation at the offset
    [(i, j)], and caches it together with the table of the errors. *)
Theorem recalculate_spatial_correlation_table {F : Type} `{Float64 F}
    (self : PottsResult F) (cutoff : cutoff_t) (Nmax Mmax : Z) :
  correlation_bounds self cutoff = Ok (Nmax, Mmax) ->
  is_Ok (param_int self "N") = true ->
  is_Ok (param_int self "M") = true ->
  length (nd_frames (traj self)) = length (trajDt self) ->
  (Nmax < 0 \/ Mmax < 0 ->
   recalculate_spatial_correlation self cutoff = Raise ValueError)
  /\
  (0 <= Nmax -> 0 <= Mmax ->
   exists corr err : list (list F),
     recalculate_spatial_correlation self cutoff
     = Ok (RArray (Mat corr),
           set_properties self
             (<["spatialCorrelation"%string := (Mat corr, Mat err)]> (properties self)))
     /\ lattice_shaped (Z.to_nat Nmax) (Z.to_nat Mmax) corr
     /\ lattice_shaped (Z.to_nat Nmax) (Z.to_nat Mmax) err
     /\ forall i j, 0 <= i < Nmax -> 0 <= j < Mmax ->
          exists c e,
            _calculate_spatial_correlation self i j = Ok (c, e) /\
            corr !! Z.to_nat i ≫= (fun row => row !! Z.to_nat j) = Some c /\
            err !! Z.to_nat i ≫= (fun row => row !! Z.to_nat j) = Some e).
Proof.
  intros Hb HN HM Hlen. unfold recalculate_spatial_correlation. rewrite Hb.
  change (Ok ?a ≫= ?f) with (f a). cbv beta iota.
  unfold np_zeros_check. cbn [forallb]. split.
  - intros Hneg.
    replace ((0 <=? Nmax) && ((0 <=? Mmax) && true)) with false; [reflexivity|].
    symmetry. destruct Hneg as [Hneg|Hneg].
    + apply andb_false_intro1, Z.leb_gt. exact Hneg.
    + apply andb_false_intro2, andb_false_intro1, Z.leb_gt. exact Hneg.
  - intros HN0 HM0.
    replace ((0 <=? Nmax) && ((0 <=? Mmax) && true)) with true
      by (symmetry; rewrite andb_true_r; apply andb_true_intro;
          split; apply Z.leb_le; assumption).
    change (Ok ?a ≫= ?f) with (f a). cbv beta.
    destruct (mapM_total
                (fun i => mapM (fun j => _calculate_spatial_correlation self i j)
                            (range Mmax))
                (range Nmax)) as [entries Hentries].
    { intros i _. apply mapM_total. intros j _.
      apply _calculate_spatial_correlation_total; assumption. }
    rewrite Hentries. change (Ok ?a ≫= ?f) with (f a). cbv beta zeta.
    exists (lat_map fst entries), (lat_map snd entries).
    split; [reflexivity|].
    destruct (mapM_Ok _ _ _ Hentries) as [Hrows Hrow].
    assert (Hshape : lattice_shaped (Z.to_nat Nmax) (Z.to_nat Mmax) entries).
    { split; [rewrite Hrows; apply length_range|].
      apply Forall_forall. intros row Hin.
      apply list_elem_of_lookup in Hin as [k Hk].
      assert (Hk' : (k < length (range Nmax))%nat)
        by (rewrite <- Hrows; apply lookup_lt_is_Some; eauto).
      apply lookup_lt_is_Some in Hk' as [i Hi].
      destruct (Hrow k i Hi) as (row' & Hrow' & Hk2).
      assert (row' = row) by congruence. subst row'.
      apply mapM_Ok in Hrow' as [Hl _]. rewrite Hl. apply length_range. }
    split; [apply lat_map_shaped; exact Hshape|].
    split; [apply lat_map_shaped; exact Hshape|].
    intros i j Hi Hj.
    destruct (Hrow _ _ (range_lookup Nmax i Hi)) as (row & Hrowi & Hlook).
    destruct (mapM_lookup_Ok _ _ _ _ _ Hrowi (range_lookup Mmax j Hj))
      as ([c e] & Hce & Hlookj).
    exists c, e. split; [exact Hce|].
    unfold lat_map. rewrite !list_lookup_fmap, Hlook. simpl.
    rewrite !list_lookup_fmap, Hlookj. split; reflexivity.
Qed.

Lemma recalculate_spatial_correlation_table_witness :
  exists corr err : list (list Q),
    recalculate_spatial_correlation (H := Qx) ex_loaded22 (CScalar 2)
    = Ok (RArray (Mat corr),
          set_properties ex_loaded22
            (<["spatialCorrelation"%string := (Mat corr, Mat err)]>
               (properties ex_loaded22)))
    /\ lattice_shaped (Z.to_nat 2) (Z.to_nat 2) corr
    /\ lattice_shaped (Z.to_nat 2) (Z.to_nat 2) err
    /\ forall i j, 0 <= i < 2 -> 0 <= j < 2 ->
         exists c e,
           _calculate_spatial_correlation (H := Qx) ex_loaded22 i j = Ok (c, e) /\
           corr !! Z.to_nat i ≫= (fun row => row !! Z.to_nat j) = Some c /\
           err !! Z.to_nat i ≫= (fun row => row !! Z.to_nat j) = Some e.
Proof.
  apply (proj2 (recalculate_spatial_correlation_table (H := Qx) ex_loaded22 (CScalar 2)
                  2 2 eq_refl eq_refl eq_refl eq_refl)); lia.
Defined.

(** ** What a loaded FullState trajectory looks like *)

Lemma reshape_replicate_lengths {A} (k c : nat) (l : list A) :
  length l = (k * c)%nat ->
  Forall (fun x => length x = c) (reshape (replicate k c) l).
Proof.
  revert l. induction k as [|k IH]; intros l Hl; simpl; constructor.
  - rewrite length_take. simpl in Hl. lia.
  - apply IH. rewrite length_drop. simpl in Hl. lia.
Qed.

Lemma reshape_frames_Ok {A} (N M : Z) (block : list (list A)) (tr : ndarray3 A) :
  reshape_frames N M block = Ok tr ->
  0 < N /\ 0 < M /\
  nd_rows tr = Z.to_nat N /\ nd_cols tr = Z.to_nat M /\
  wf_ndarray3 tr /\
  (length (nd_frames tr) * (Z.to_nat N * Z.to_nat M) = length (concat block))%nat.
Proof.
  unfold reshape_frames.
  destruct (Z.ltb_spec 0 N) as [HN|]; [|discriminate].
  destruct (Z.ltb_spec 0 M) as [HM|]; [|discriminate].
  destruct (Z.eqb_spec (Z.of_nat (length (concat block)) mod (N * M)) 0) as [Hmod|];
    [|discriminate].
  simpl. intros [= <-]. cbn [nd_rows nd_cols nd_frames].
  split; [exact HN|]. split; [exact HM|]. split; [reflexivity|]. split; [reflexivity|].
  set (size := length (concat block)) in *.
  set (cnt := Z.to_nat (Z.of_nat size / (N * M))).
  assert (Hsize : size = (cnt * (Z.to_nat N * Z.to_nat M))%nat).
  { apply Z.mod_divide in Hmod as [q Hq]; [|lia].
    unfold cnt. rewrite Hq, Z.div_mul by lia.
    assert (0 <= q) by nia. nia. }
  split.
  - unfold wf_ndarray3. cbn [nd_rows nd_cols nd_frames].
    apply Forall_map.
    eapply Forall_impl; [apply (reshape_replicate_lengths cnt _ _ Hsize)|].
    intros frame Hframe. split.
    + rewrite length_reshape, length_replicate. reflexivity.
    + apply reshape_replicate_lengths. exact Hframe.
  - rewrite length_map, length_reshape, length_replicate. symmetry. exact Hsize.
Qed.

Section LoadedShape.
Context {F : Type} `{Float64 F}.
Variable np_loadtxt : string -> result (ndval F).
Variable np_array_map_int : list string -> result (list Z).

Lemma column_Mat (rows : list (list F)) (j : Z) (col : list F) :
  column (Mat rows) j = Ok col ->
  length col = length rows /\ (0 <= j -> j < Z.of_nat (ncols rows)).
Proof.
  unfold column. intros Hc. inv_bind Hc. injection Hc as <-.
  rewrite length_map. split; [reflexivity|]. intros Hj.
  unfold np_index in Ha.
  destruct ((0 <=? j) && (j <? Z.of_nat (ncols rows))) eqn:E.
  - apply andb_prop in E as [_ E]. apply Z.ltb_lt in E. exact E.
  - destruct ((- Z.of_nat (ncols rows) <=? j) && (j <? 0)) eqn:E2; [|discriminate].
    apply andb_prop in E2 as [_ E2]. apply Z.ltb_lt in E2. lia.
Qed.

Lemma state_block_width (rows : list (list F)) (w : nat) (NM : Z)
    (states : list (list F)) :
  Forall (fun row => length row = w) rows ->
  0 <= NM -> NM + 1 <= Z.of_nat w ->
  block (Mat rows) all_ (mk_slice (Some 1) (Some (NM + 1)) None) = Ok states ->
  length states = length rows /\
  Forall (fun row => length row = Z.to_nat NM) states.
Proof.
  intros Hw HNM Hle Hb.
  rewrite (block_Ok rows w 1 (Z.to_nat (NM + 1)) (length rows) all_
             (mk_slice (Some 1) (Some (NM + 1)) None) Hw) in Hb.
  - injection Hb as <-. rewrite firstn_all, length_map. split; [reflexivity|].
    apply Forall_map. eapply Forall_impl; [exact Hw|]. intros row Hrow.
    simpl in *. rewrite length_take, length_drop. lia.
  - unfold slice_indices, all_. simpl. reflexivity.
  - lia.
  - rewrite Z2Nat.id by lia. apply slice_indices_between; lia.
  - lia.
Qed.

Lemma load_fullstate_shape (self r : PottsResult F) (trajFile : string)
    (rows : list (list F)) :
  np_loadtxt trajFile = Ok (Mat rows) ->
  Forall (fun row => length row = ncols rows) rows ->
  _load_fullstate_traj np_loadtxt self trajFile = Ok r ->
  exists N M,
    param_int self "N" = Ok N /\ param_int self "M" = Ok M /\
    0 < N /\ 0 < M /\
    nd_rows (traj r) = Z.to_nat N /\ nd_cols (traj r) = Z.to_nat M /\
    wf_ndarray3 (traj r) /\
    length (trajIdx r) = length rows /\
    length (nd_frames (traj r)) = length rows /\
    length (trajT r) = length rows /\
    length (trajDt r) = length rows /\
    length (trajEnergy r) = length rows /\
    params r = params self /\ properties r = properties self.
Proof.
  intros Hload Hw Hr. unfold _load_fullstate_traj in Hr. rewrite Hload in Hr.
  change (Ok ?a ≫= ?f) with (f a) in Hr. cbv beta in Hr.
  inv_bind Hr. rename a into N. inv_bind Hr. rename a into M.
  inv_bind Hr. rename a into idx. inv_bind Hr. rename a into states.
  inv_bind Hr. rename a into tr. inv_bind Hr. rename a into t.
  inv_bind Hr. rename a into dt. inv_bind Hr. rename a into e.
  injection Hr as <-. cbn [traj trajIdx trajT trajDt trajEnergy set_trajectory
                           params properties].
  match goal with
  | Htr : reshape_frames _ _ _ = Ok tr |- _ =>
      apply reshape_frames_Ok in Htr as (HN & HM & Hrows & Hcols & Hwf & Hcount)
  end.
  repeat match goal with
         | Hc : column (Mat rows) _ = Ok _ |- _ => apply column_Mat in Hc as [? ?]
         end.
  assert (HNM : 0 <= N * M) by nia.
  repeat match goal with
         | Hj : 0 <= ?j -> _ |- _ => specialize (Hj ltac:(lia))
         end.
  assert (Hwide : N * M + 1 <= Z.of_nat (ncols rows)) by lia.
  match goal with
  | Hb : block _ _ _ = Ok states |- _ =>
      apply (state_block_width rows (ncols rows) (N * M) states Hw) in Hb
        as [Hslen Hswidth]; [|exact HNM|exact Hwide]
  end.
  exists N, M. repeat (split; [assumption || reflexivity || (rewrite length_map; assumption)|]).
  split.
  - rewrite (length_concat_uniform (Z.to_nat (N * M))) in Hcount.
    + rewrite length_map, Hslen in Hcount.
      rewrite Z2Nat.inj_mul in Hcount by lia. nia.
    + apply Forall_map. eapply Forall_impl; [exact Hswidth|].
      intros row Hrow. simpl. rewrite length_map. exact Hrow.
  - repeat (split; [assumption || reflexivity|]). reflexivity.
Qed.

End LoadedShape.

(** X17. What loading a FullState artifact establishes. When
    [np.loadtxt] returns a table of rows of one length and [load_traj]
    returns, the parameters [N] and [M] are positive integers, the
    trajectory has one frame index, one [N] x [M] lattice, one time, one
    dwell time and one energy per row of the table, and the parameters
    and the cache of the object are untouched. *)
Theorem load_fullstate_invariants {F : Type} `{Float64 F}
    (np_loadtxt : string -> result (ndval F))
    (np_array_map_int : list string -> result (list Z))
    (self r : PottsResult F) (trajFile : string) (rows : list (list F)) :
  search_trajType (first_line trajFile) = Some "FullState"%string ->
  np_loadtxt trajFile = Ok (Mat rows) ->
  Forall (fun row => length row = ncols rows) rows ->
  load_traj np_loadtxt np_array_map_int self trajFile = Ok r ->
  exists N M,
    param_int self "N" = Ok N /\ param_int self "M" = Ok M /\
    0 < N /\ 0 < M /\
    nd_rows (traj r) = Z.to_nat N /\ nd_cols (traj r) = Z.to_nat M /\
    wf_ndarray3 (traj r) /\
    frames_aligned r /\
    length (trajT r) = length rows /\
    params r = params self /\ properties r = properties self.
Proof.
  unfold first_line, load_traj. destruct (readline (open_rt trajFile)) as [line1 rest].
  simpl. intros -> Hload Hw Hr. simpl in Hr. inv_bind Hr. injection Hr as <-.
  destruct (load_fullstate_shape np_loadtxt self a trajFile rows Hload Hw Ha)
    as (N & M & HN & HM & HN0 & HM0 & Hrows & Hcols & Hwf & Hidx & Hfr & Ht & Hdt & He
        & Hp & Hc).
  exists N, M. cbn [traj trajT params properties set_totalSampleTime].
  repeat (split; [assumption|]). split; [|auto].
  unfold frames_aligned. cbn [trajIdx traj trajT trajDt trajEnergy set_totalSampleTime].
  repeat split; congruence.
Qed.

Lemma load_fullstate_invariants_witness :
  exists r N M,
    load_traj (H := Qx) loadtxt_dec np_array_map_int_py3 (unloaded (H := Qx) ex_params)
      ex_fullstate = Ok r /\
    param_int (unloaded (H := Qx) ex_params) "N" = Ok N /\
    param_int (unloaded (H := Qx) ex_params) "M" = Ok M /\
    0 < N /\ 0 < M /\
    nd_rows (traj r) = Z.to_nat N /\ nd_cols (traj r) = Z.to_nat M /\
    wf_ndarray3 (traj r) /\
    frames_aligned r /\
    length (trajT r) = 3%nat /\
    params r = ex_params /\ properties r = ∅.
Proof.
  exists ex_loaded.
  assert (Hr : load_traj (H := Qx) loadtxt_dec np_array_map_int_py3
                 (unloaded (H := Qx) ex_params) ex_fullstate = Ok ex_loaded)
    by (vm_compute; reflexivity).
  destruct (load_fullstate_invariants (H := Qx) loadtxt_dec np_array_map_int_py3
              (unloaded (H := Qx) ex_params) ex_loaded ex_fullstate
              [[0; 0; 1; 0; 1; 0]; [5; 0; 1; 10; 2; 1]; [10; 1; 1; 20; 1; 1]]%Q)
    as (N & M & H1).
  - reflexivity.
  - vm_compute. reflexivity.
  - repeat constructor.
  - exact Hr.
  - exists N, M. split; [exact Hr | exact H1].
Defined.

(** ** Slices of a loaded trajectory *)

Lemma py_slice_inv {A} (sl : pyslice) (l l' : list A) :
  py_slice sl l = Ok l' ->
  exists pos, slice_positions sl (length l) = Ok pos /\
              l' = omap (M := list) (fun i : nat => l !! i) pos.
Proof.
  unfold py_slice. intros Hl. inv_bind Hl. injection Hl as <-. eauto.
Qed.

Lemma Forall_omap_lookup {A} (P : A -> Prop) (l : list A) (pos : list nat) :
  Forall P l -> Forall P (omap (M := list) (fun i : nat => l !! i) pos).
Proof.
  intros Hl. induction pos as [|p pos IH]; simpl; [constructor|].
  destruct (l !! p) as [x|] eqn:Hx; [|exact IH].
  constructor; [|exact IH].
  rewrite Forall_forall in Hl. apply Hl. eapply list_elem_of_lookup_2. exact Hx.
Qed.

Lemma update_obj_Ok {F} (h h' : gmap positive (PottsResult F)) (l : positive)
    (f : PottsResult F -> result (PottsResult F)) :
  update_obj h l f = Ok h' ->
  exists o o', h !! l = Some o /\ f o = Ok o' /\ h' = <[l := o']> h.
Proof.
  unfold update_obj. destruct (h !! l) as [o|]; [|discriminate].
  intros Hf. inv_bind Hf. injection Hf as <-. eauto.
Qed.

(** X18. Slicing keeps a trajectory well formed. When [res[slice]]
    returns, on a result whose five arrays have one entry per frame and
    whose frames are lattices of one shape, the new object has again one
    entry per frame in each of its five arrays, lattices of the same
    shape, and the parameters of the result it was cut from. *)
Theorem getitem_keeps_shape {F : Type} `{Float64 F}
    (h h' : gmap positive (PottsResult F)) (self newItem : positive)
    (slice_ : pyslice) (o : PottsResult F) :
  h !! self = Some o ->
  frames_aligned o ->
  wf_ndarray3 (traj o) ->
  getitem h self slice_ = Ok (newItem, h') ->
  exists o',
    h' !! newItem = Some o' /\
    frames_aligned o' /\
    wf_ndarray3 (traj o') /\
    nd_rows (traj o') = nd_rows (traj o) /\
    nd_cols (traj o') = nd_cols (traj o) /\
    params o' = params o.
Proof.
  intros Hself (Hidx & Hfr & Hdt & He) Hwf Hget.
  unfold getitem in Hget. rewrite Hself in Hget.
  inv_bind Hget. inv_bind Hget. inv_bind Hget. injection Hget as <- <-.
  apply update_obj_Ok in Ha as (o0 & o1 & Ho0 & Hslice & ->).
  rewrite lookup_insert_eq in Ho0. injection Ho0 as <-.
  apply update_obj_Ok in Ha0 as (o1' & o2 & Ho1 & Hclear & ->).
  rewrite lookup_insert_eq in Ho1. injection Ho1 as <-. injection Hclear as <-.
  apply update_obj_Ok in Ha1 as (o2' & o3 & Ho2 & Hretotal & ->).
  rewrite lookup_insert_eq in Ho2. injection Ho2 as <-.
  unfold retotal in Hretotal. inv_bind Hretotal. inv_bind Hretotal.
  injection Hretotal as <-.
  unfold slice_frames in Hslice.
  inv_bind Hslice. inv_bind Hslice. inv_bind Hslice. inv_bind Hslice. inv_bind Hslice.
  injection Hslice as <-.
  repeat match goal with
         | Hs : py_slice slice_ _ = Ok _ |- _ =>
             apply py_slice_inv in Hs as (? & ? & ->)
         end.
  rewrite Hidx, ?Hfr, ?Hdt, ?He in *.
  repeat match goal with
         | H1 : slice_positions slice_ ?n = Ok ?p1,
           H2 : slice_positions slice_ ?n = Ok ?p2 |- _ =>
             assert (p2 = p1) by congruence; subst p2; clear H2
         end.
  match goal with
  | Hp : slice_positions slice_ _ = Ok ?p |- _ =>
      pose proof (slice_positions_lt _ _ _ Hp) as Hlt; rename p into pos
  end.
  eexists. split; [apply lookup_insert_eq|].
  cbn [traj trajIdx trajT trajDt trajEnergy params set_totalSampleTime set_properties
       set_trajectory nd_rows nd_cols nd_frames].
  split; [|split; [|auto]].
  - unfold frames_aligned.
    cbn [traj trajIdx trajT trajDt trajEnergy set_totalSampleTime set_properties
         set_trajectory nd_frames].
    rewrite !omap_lookup_length; [auto | rewrite ?Hidx, ?Hfr, ?Hdt, ?He; exact Hlt ..].
  - unfold wf_ndarray3. cbn [nd_rows nd_cols nd_frames].
    apply Forall_omap_lookup. exact Hwf.
Qed.

Lemma getitem_keeps_shape_witness :
  exists newItem h' o',
    getitem (H := Qx) {[1%positive := ex_loaded]} 1
      (mk_slice (Some 1) None (Some 2)) = Ok (newItem, h') /\
    h' !! newItem = Some o' /\
    frames_aligned o' /\
    wf_ndarray3 (traj o') /\
    nd_rows (traj o') = nd_rows (traj ex_loaded) /\
    nd_cols (traj o') = nd_cols (traj ex_loaded) /\
    params o' = params ex_loaded.
Proof.
  destruct (getitem (H := Qx) {[1%positive := ex_loaded]} 1
              (mk_slice (Some 1) None (Some 2))) as [[newItem h']|e] eqn:Hget.
  - destruct (getitem_keeps_shape (H := Qx) {[1%positive := ex_loaded]} h' 1 newItem
                (mk_slice (Some 1) None (Some 2)) ex_loaded) as (o' & Ho').
    + apply lookup_singleton_eq.
    + repeat split; reflexivity.
    + repeat constructor.
    + exact Hget.
    + exists newItem, h', o'. split; [reflexivity | exact Ho'].
  - exfalso. vm_compute in Hget. discriminate Hget.
Defined.

(** ** What a log gives *)

Section LogValues.
Context {F : Type}.
Variable py_int : string -> result Z.
Variable py_float : string -> result F.

Lemma set_param_inv (p p' : gmap string (pyval F)) (raw : string) :
  set_param py_int py_float p raw = Ok p' ->
  exists k v ty x,
    map strip (split "=" raw) = [k; v] /\ raw_key raw = k /\
    PARAM_TRANS !! k = Some ty /\ coerce py_int py_float ty v = Ok x /\
    p' = <[k := x]> p.
Proof.
  unfold set_param, raw_key.
  destruct (split "=" raw) as [|a [|b [|c l]]]; simpl; try discriminate.
  destruct (PARAM_TRANS !! strip a) as [ty|] eqn:Hty; [|discriminate].
  intros Hx. inv_bind Hx. injection Hx as <-.
  exists (strip a), (strip b), ty, a0. auto.
Qed.

Lemma set_params_snoc (raws : list string) (raw : string) :
  forall p,
    set_params py_int py_float (raws ++ [raw]) p
    = (p' ← set_params py_int py_float raws p; set_param py_int py_float p' raw).
Proof.
  induction raws as [|r raws IH]; intros p; simpl.
  - destruct (set_param py_int py_float p raw); reflexivity.
  - destruct (set_param py_int py_float p r) as [p1|e]; [|reflexivity].
    simpl. apply IH.
Qed.

Lemma set_params_values (raws : list string) :
  forall p' : gmap string (pyval F),
    set_params py_int py_float raws ∅ = Ok p' ->
    forall k x,
      p' !! k = Some x <->
      exists before raw after ty v,
        raws = before ++ raw :: after /\
        map strip (split "=" raw) = [k; v] /\
        Forall (fun raw' => raw_key raw' <> k) after /\
        PARAM_TRANS !! k = Some ty /\ coerce py_int py_float ty v = Ok x.
Proof.
  induction raws as [|raw0 raws IH] using rev_ind; intros p' Hp k x.
  - injection Hp as <-. rewrite lookup_empty. split; [discriminate|].
    intros (before & raw & after & ty & v & Heq & _). destruct before; discriminate.
  - rewrite set_params_snoc in Hp. inv_bind Hp. rename a into p1.
    apply set_param_inv in Hp as (k0 & v0 & ty0 & x0 & Hsplit0 & Hkey0 & Hty0 & Hx0 & ->).
    specialize (IH p1 Ha k x). split.
    + destruct (decide (k0 = k)) as [->|Hne].
      * rewrite lookup_insert_eq. intros [= <-].
        exists raws, raw0, [], ty0, v0. auto.
      * rewrite lookup_insert_ne by exact Hne. intros Hx.
        apply IH in Hx as (before & raw & after & ty & v & -> & Hs & Hafter & Hty & Hc).
        exists before, raw, (after ++ [raw0]), ty, v.
        split; [rewrite <- app_assoc; reflexivity|]. split; [exact Hs|].
        split; [|auto]. apply Forall_app. split; [exact Hafter|].
        constructor; [congruence | constructor].
    + intros (before & raw & after & ty & v & Heq & Hs & Hafter & Hty & Hc).
      destruct after as [|last after _] using rev_ind.
      * apply app_inj_tail in Heq as [-> ->].
        assert (k0 = k /\ v0 = v) as [-> ->] by (split; congruence).
        assert (ty0 = ty) by congruence. subst ty0.
        rewrite lookup_insert_eq. congruence.
      * rewrite app_comm_cons, app_assoc in Heq.
        apply app_inj_tail in Heq as [-> ->].
        apply Forall_app in Hafter as [Hafter Hlast].
        apply Forall_cons in Hlast as [Hlast _].
        rewrite lookup_insert_ne by congruence.
        apply IH. exists before, raw, after, ty, v. auto.
Qed.

End LogValues.

(** X19. What [from_log] builds. When it returns, the experiment holds
    under a name [k] the value [x] exactly when, among the lines
    [identifier = value] found after the marker, the last one whose
    identifier is [k] has a value that the type registered for [k]
    converts to [x]: a field written twice takes its last value. *)
Theorem from_log_values {F : Type} (py_int : string -> result Z)
    (py_float : string -> result F) (logFile : string) (e : PottsExperiment F) :
  from_log py_int py_float logFile = Ok e ->
  exists r,
    seek_params (open_rt logFile) = Ok r /\
    forall k x,
      exp_params e !! k = Some x <->
      exists before raw after ty v,
        findall_params (read r) = before ++ raw :: after /\
        map strip (split "=" raw) = [k; v] /\
        Forall (fun raw' => raw_key raw' <> k) after /\
        PARAM_TRANS !! k = Some ty /\ coerce py_int py_float ty v = Ok x.
Proof.
  unfold from_log. intros He. inv_bind He. inv_bind He.
  destruct (decide (dom a0 = dom PARAM_TRANS)); [|discriminate].
  injection He as <-. exists a. split; [exact Ha|].
  apply set_params_values. exact Ha0.
Qed.

Lemma from_log_values_witness :
  exists e r,
    from_log dec_int dec_float ex_log_twice = Ok e /\
    seek_params (open_rt ex_log_twice) = Ok r /\
    exp_params e !! "N"%string = Some (PInt 7) /\
    forall k x,
      exp_params e !! k = Some x <->
      exists before raw after ty v,
        findall_params (read r) = before ++ raw :: after /\
        map strip (split "=" raw) = [k; v] /\
        Forall (fun raw' => raw_key raw' <> k) after /\
        PARAM_TRANS !! k = Some ty /\ coerce dec_int dec_float ty v = Ok x.
Proof.
  destruct (from_log dec_int dec_float ex_log_twice) as [e|err] eqn:He.
  - destruct (from_log_values dec_int dec_float ex_log_twice e He) as (r & Hr & Hval).
    exists e, r. split; [reflexivity|]. split; [exact Hr|]. split; [|exact Hval].
    vm_compute in He. injection He as <-. vm_compute. reflexivity.
  - exfalso. vm_compute in He. discriminate He.
Defined.

(** ** Values with an equals sign *)

Section EmbeddedEquals.
Context {F : Type}.
Variable py_int : string -> result Z.
Variable py_float : string -> result F.

Lemma set_param_equals (p : gmap string (pyval F)) (raw : string) :
  (2 <= count_char "=" raw)%nat ->
  set_param py_int py_float p raw = Raise ValueError.
Proof.
  intros Hc. unfold set_param.
  pose proof (split_aux_length "=" raw []) as Hlen. fold (split "=" raw) in Hlen.
  destruct (split "=" raw) as [|a [|b [|c l]]]; simpl in *; try reflexivity; lia.
Qed.

Lemma set_params_equals (raws : list string) (raw : string) :
  In raw raws -> (2 <= count_char "=" raw)%nat ->
  forall p, raises (set_params py_int py_float raws p).
Proof.
  intros Hin Hc. induction raws as [|r rest IH]; [destruct Hin|].
  intros p. simpl.
  destruct (set_param py_int py_float p r) as [p'|e] eqn:E.
  - simpl. destruct Hin as [-> | Hin].
    + rewrite set_param_equals in E by exact Hc. discriminate.
    + apply IH. exact Hin.
  - exists e. reflexivity.
Qed.

End EmbeddedEquals.

(** X20. A value may hold no [=]. When one of the lines
    [identifier = value] found after the marker has two or more [=] in
    it, [from_log] returns no experiment; when that line is the first
    one found, the exception is the [ValueError] of the unpacking on
    line 70. *)
Theorem from_log_embedded_equals {F : Type} (py_int : string -> result Z)
    (py_float : string -> result F) (logFile : string) (r : list string)
    (raw : string) :
  seek_params (open_rt logFile) = Ok r ->
  In raw (findall_params (read r)) ->
  (2 <= count_char "=" raw)%nat ->
  raises (from_log py_int py_float logFile) /\
  (head (findall_params (read r)) = Some raw ->
   from_log py_int py_float logFile = Raise ValueError).
Proof.
  intros Hr Hin Hc. unfold from_log. rewrite Hr.
  change (Ok r ≫= ?f) with (f r). cbv beta zeta. split.
  - destruct (set_params_equals py_int py_float _ raw Hin Hc ∅) as [e ->].
    exists e. reflexivity.
  - intros Hhead. destruct (findall_params (read r)) as [|raw0 rest]; [discriminate|].
    injection Hhead as ->. cbn [set_params].
    rewrite set_param_equals by exact Hc. reflexivity.
Qed.

Lemma from_log_embedded_equals_witness :
  raises (from_log dec_int dec_float ex_log_equals) /\
  from_log dec_int dec_float ex_log_equals = Raise ValueError.
Proof.
  destruct (from_log_embedded_equals dec_int dec_float ex_log_equals
              ["jobName = a=b" ++ String nl EmptyString;
               "N = 1" ++ String nl EmptyString]%string
              "jobName = a=b"%string) as [Hraises Hfirst].
  - vm_compute. reflexivity.
  - vm_compute. left. reflexivity.
  - vm_compute. lia.
  - split; [exact Hraises|]. apply Hfirst. vm_compute. reflexivity.
Defined.

(** ** The estimators under a change of units *)

Lemma Qsum_weighted_affine (a c : Q) (q dt : list Q) :
  length q = length dt ->
  (Qsum (zip_with Qmult (map (fun x => a * x + c) q) dt)
   == a * Qsum (zip_with Qmult q dt) + c * Qsum dt)%Q.
Proof.
  revert dt. induction q as [|x q IH]; intros [|d dt] E; simpl in *;
    try discriminate; [ring|].
  rewrite IH by lia. ring.
Qed.

Lemma Qsum_weighted_squares_affine (a c m m' : Q) (q dt : list Q) :
  (m' == a * m + c)%Q ->
  (Qsum (zip_with Qmult
           (map (fun x => (x - m') * (x - m')) (map (fun x => a * x + c) q)) dt)
   == a * a * Qsum (zip_with Qmult (map (fun x => (x - m) * (x - m)) q) dt))%Q.
Proof.
  intros Hm. revert dt. induction q as [|x q IH]; intros [|d dt]; simpl;
    try ring.
  rewrite IH, Hm. ring.
Qed.

Lemma Qsum_squares_weighted_affine (a c m m' : Q) (q dt : list Q) :
  (m' == a * m + c)%Q ->
  (Qsum (map (fun y => y * y)
           (zip_with Qmult (map (fun x => x - m') (map (fun x => a * x + c) q)) dt))
   == a * a * Qsum (map (fun y => y * y)
                      (zip_with Qmult (map (fun x => x - m) q) dt)))%Q.
Proof.
  intros Hm. revert dt. induction q as [|x q IH]; intros [|d dt]; simpl;
    try ring.
  rewrite IH, Hm. ring.
Qed.

(** X21. The estimators under an affine change of the quantity. With
    as many values as dwell times and a total sample time that is the
    sum of the dwell times and is not zero, replacing every value [x]
    of the quantity by [a * x + c] turns the mean [m] into [a * m + c]
    and multiplies the variance and the variance of the mean by
    [a * a]: a shift of the quantity changes neither. *)
Theorem estimators_affine (qsqrt : Q -> Q) (dt q : list Q) (total a c : Q) :
  length q = length dt ->
  (total == Qsum dt)%Q ->
  ~ (total == 0)%Q ->
  exists m m' v v' w w' : Q,
    calculate_mean (H := Q_Float64 qsqrt) dt total q = Ok m /\
    calculate_mean (H := Q_Float64 qsqrt) dt total (map (fun x => a * x + c)%Q q) = Ok m' /\
    calculate_var (H := Q_Float64 qsqrt) dt total q = Ok v /\
    calculate_var (H := Q_Float64 qsqrt) dt total (map (fun x => a * x + c)%Q q) = Ok v' /\
    calculate_var_of_mean (H := Q_Float64 qsqrt) dt total q = Ok w /\
    calculate_var_of_mean (H := Q_Float64 qsqrt) dt total (map (fun x => a * x + c)%Q q)
    = Ok w' /\
    (m' == a * m + c)%Q /\ (v' == a * a * v)%Q /\ (w' == a * a * w)%Q.
Proof.
  intros E Htot Hnz.
  assert (E' : length (map (fun x => a * x + c)%Q q) = length dt)
    by (rewrite length_map; exact E).
  set (m := (fsum (H := Q_Float64 qsqrt) (zip_with Qmult q dt) / total)%Q).
  set (m' := (fsum (H := Q_Float64 qsqrt)
                (zip_with Qmult (map (fun x => a * x + c)%Q q) dt) / total)%Q).
  assert (Hm : (m' == a * m + c)%Q).
  { unfold m, m'. rewrite !fsum_Qsum, Qsum_weighted_affine by exact E.
    rewrite <- Htot. generalize (Qsum (zip_with Qmult q dt)). intros S.
    field. exact Hnz. }
  exists m, m'. 
  unfold calculate_var, calculate_var_of_mean.
  rewrite !(calculate_mean_Q qsqrt dt q total E).
  rewrite !(calculate_mean_Q qsqrt dt _ total E').
  fold m m'.
  repeat (change (Ok ?x ≫= ?f) with (f x); cbv beta zeta).
  rewrite !calculate_mean_Q by (rewrite !length_map; exact E).
  rewrite !broadcast0_same_length by (rewrite !length_map; exact E).
  repeat (change (Ok ?x ≫= ?f) with (f x); cbv beta zeta).
  eexists _, _, _, _. repeat (split; [reflexivity|]).
  split; [exact Hm|]. split.
  - match goal with
    | |- (?L / total == a * a * (?R / total))%Q =>
        assert (HL : (L == Qsum (zip_with Qmult
                                   (map (fun x => (x - m') * (x - m'))%Q
                                        (map (fun x => a * x + c)%Q q)) dt))%Q)
          by apply fsum_Qsum;
        assert (HR : (R == Qsum (zip_with Qmult
                                   (map (fun x => (x - m) * (x - m))%Q q) dt))%Q)
          by apply fsum_Qsum;
        rewrite HL, HR
    end.
    rewrite (Qsum_weighted_squares_affine a c m m' q dt Hm).
    match goal with |- context [Qsum ?X] => generalize (Qsum X) end.
    intros S. field. exact Hnz.
  - change (fdiv ?x ?y) with (x / y)%Q.
    match goal with
    | |- (?L / ?T2 == a * a * (?R / ?T2))%Q =>
        assert (HL : (L == Qsum (map (fun y => y * y)%Q
                                   (zip_with Qmult
                                      (map (fun x => x - m')%Q
                                           (map (fun x => a * x + c)%Q q)) dt)))%Q)
          by apply fsum_Qsum;
        assert (HR : (R == Qsum (map (fun y => y * y)%Q
                                   (zip_with Qmult (map (fun x => x - m)%Q q) dt)))%Q)
          by apply fsum_Qsum;
        rewrite HL, HR;
        change T2 with (total * total)%Q
    end.
    rewrite (Qsum_squares_weighted_affine a c m m' q dt Hm).
    match goal with |- context [Qsum ?X] => generalize (Qsum X) end.
    intros S. field. exact Hnz.
Qed.

Lemma estimators_affine_witness :
  exists m m' v v' w w' : Q,
    calculate_mean (H := Qx) [1; 2; 1]%Q 4%Q [0; 1; 1]%Q = Ok m /\
    calculate_mean (H := Qx) [1; 2; 1]%Q 4%Q (map (fun x => 3 * x + 5)%Q [0; 1; 1]%Q)
    = Ok m' /\
    calculate_var (H := Qx) [1; 2; 1]%Q 4%Q [0; 1; 1]%Q = Ok v /\
    calculate_var (H := Qx) [1; 2; 1]%Q 4%Q (map (fun x => 3 * x + 5)%Q [0; 1; 1]%Q)
    = Ok v' /\
    calculate_var_of_mean (H := Qx) [1; 2; 1]%Q 4%Q [0; 1; 1]%Q = Ok w /\
    calculate_var_of_mean (H := Qx) [1; 2; 1]%Q 4%Q
      (map (fun x => 3 * x + 5)%Q [0; 1; 1]%Q) = Ok w' /\
    (m' == 3 * m + 5)%Q /\ (v' == 3 * 3 * v)%Q /\ (w' == 3 * 3 * w)%Q.
Proof.
  apply (estimators_affine Qsqrt_z [1; 2; 1]%Q [0; 1; 1]%Q 4%Q 3%Q 5%Q).
  - reflexivity.
  - reflexivity.
  - intros E. discriminate E.
Defined.

(** ** A log as a dictionary *)

Lemma map_update_last {V} (m : gmap string V) (before after : pydict V)
    (k : string) (v : V) :
  Forall (fun kv => kv.1 <> k) after ->
  map_update m (before ++ (k, v) :: after) !! k = Some v.
Proof.
  induction after as [|[k1 v1] after IH] using rev_ind; intros Hafter.
  - rewrite map_update_snoc. apply lookup_insert_eq.
  - apply Forall_app in Hafter as [Hafter Hlast].
    apply Forall_cons in Hlast as [Hlast _]. simpl in Hlast.
    rewrite app_comm_cons, app_assoc, map_update_snoc.
    rewrite lookup_insert_ne by exact Hlast. apply IH. exact Hafter.
Qed.

Section LogAsDict.
Context {F : Type} `{Float64 F}.
Variable py_int : string -> result Z.
Variable py_float : string -> result F.
Variable int_of_float : F -> outcome Z.
Variable float_of_int : Z -> outcome F.
Variable str_of_float : F -> string.

Lemma convert_PStr (ty : ptype) (s : string) (x : pyval F) :
  coerce py_int py_float ty s = Ok x ->
  convert py_int py_float int_of_float float_of_int str_of_float ty (PStr s) = Done x.
Proof.
  destruct ty; simpl.
  - destruct (py_int s); simpl; intros [= <-]; reflexivity.
  - destruct (py_float s); simpl; intros [= <-]; reflexivity.
  - intros [= <-]. reflexivity.
Qed.

(** The entry of [raw_dict] that decides the value of a parsed name. *)
Lemma raw_dict_lookup (m : gmap string (pyval F)) (raws before after : list string)
    (raw k v : string) :
  raws = before ++ raw :: after ->
  map strip (split "=" raw) = [k; v] ->
  Forall (fun raw' => raw_key raw' <> k) after ->
  map_update m (raw_dict raws) !! k = Some (PStr v).
Proof.
  intros -> Hsplit Hafter. unfold raw_dict. rewrite map_app. cbn [map].
  assert (Hk : raw_key raw = k /\ raw_value raw = v).
  { unfold raw_key, raw_value.
    destruct (split "=" raw) as [|a [|b [|c l]]]; simpl in Hsplit; try discriminate.
    injection Hsplit as <- <-. split; reflexivity. }
  destruct Hk as [-> ->]. apply map_update_last.
  apply Forall_map. eapply Forall_impl; [exact Hafter|]. auto.
Qed.

End LogAsDict.

(** X23. The two constructors agree. An experiment that [from_log]
    reads from a log is the experiment that [from_dict] builds from the
    dictionary of the lines [identifier = value] found after the marker,
    each value as the text it is in the log. *)
Theorem from_log_as_from_dict {F : Type} `{Float64 F}
    (py_int : string -> result Z) (py_float : string -> result F)
    (int_of_float : F -> outcome Z) (float_of_int : Z -> outcome F)
    (str_of_float : F -> string) (logFile : string) (e : PottsExperiment F) :
  from_log py_int py_float logFile = Ok e ->
  exists r,
    seek_params (open_rt logFile) = Ok r /\
    from_dict py_int py_float int_of_float float_of_int str_of_float
      (raw_dict (findall_params (read r))) = Done e.
Proof.
  intros He. pose proof (from_log_Ok _ _ _ _ He) as [Hdom _].
  unfold from_log in He. inv_bind He. rename a into r. inv_bind He. rename a into p.
  destruct (decide (dom p = dom PARAM_TRANS)); [|discriminate].
  injection He as <-. cbn [exp_params] in Hdom.
  exists r. split; [assumption|].
  pose proof (set_params_values py_int py_float _ _ Ha0) as Hval.
  set (raws := findall_params (read r)) in *.
  assert (Hlook : forall k ty, PARAM_TRANS !! k = Some ty ->
            exists v x,
              map_update (list_to_map (DEFAUT_PARAMS (F := F))) (raw_dict raws) !! k
              = Some (PStr v) /\
              coerce py_int py_float ty v = Ok x /\ p !! k = Some x).
  { intros k ty Hty.
    assert (Hk : is_Some (p !! k)) by (apply elem_of_dom; rewrite Hdom;
                                        apply elem_of_dom; eauto).
    destruct Hk as [x Hx].
    destruct (proj1 (Hval k x) Hx)
      as (before & raw & after & ty' & v & Hraws & Hsplit & Hafter & Hty' & Hc).
    assert (ty' = ty) by congruence. subst ty'.
    exists v, x. split; [|auto].
    eapply raw_dict_lookup; eassumption. }
  destruct (from_dict_converts py_int py_float int_of_float float_of_int str_of_float
              (raw_dict raws)) as [e' He'].
  { intros k ty v Hty Hv. destruct (Hlook k ty Hty) as (v0 & x & Hv0 & Hc & _).
    rewrite Hv0 in Hv. injection Hv as <-. exists x. apply convert_PStr. exact Hc. }
  rewrite He'. f_equal.
  destruct (from_dict_Done_inv py_int py_float int_of_float float_of_int str_of_float
              (raw_dict raws) e' He') as [Hdom' Hval'].
  destruct e' as [p']. cbn [exp_params] in *. f_equal.
  apply map_eq. intros k.
  destruct (PARAM_TRANS !! k) as [ty|] eqn:Hty.
  - destruct (Hlook k ty Hty) as (v0 & x & Hv0 & Hc & Hx).
    destruct (Hval' k ty Hty) as (v & x' & Hv & Hc' & Hx').
    rewrite Hv0 in Hv. injection Hv as <-.
    rewrite (convert_PStr py_int py_float int_of_float float_of_int str_of_float
               ty v0 x Hc) in Hc'.
    injection Hc' as <-. congruence.
  - assert (Hn : p !! k = None).
    { apply not_elem_of_dom. rewrite Hdom. apply not_elem_of_dom. exact Hty. }
    assert (Hn' : p' !! k = None).
    { apply not_elem_of_dom. rewrite Hdom'. apply not_elem_of_dom. exact Hty. }
    congruence.
Qed.

Lemma from_log_as_from_dict_witness :
  exists r,
    seek_params (open_rt ex_log) = Ok r /\
    from_dict (H := Qx) dec_int dec_float Q_int_of_float Q_float_of_int Q_str
      (raw_dict (findall_params (read r))) = Done (mk_experiment ex_params).
Proof.
  apply (from_log_as_from_dict (H := Qx) dec_int dec_float Q_int_of_float
           Q_float_of_int Q_str ex_log (mk_experiment ex_params)).
  vm_compute. reflexivity.
Defined.

(** ** Texts *)

Lemma str_app_cons (c : ascii) (a b : string) :
  (String c a ++ b)%string = String c (a ++ b).
Proof. reflexivity. Qed.

Lemma str_app_nil_l (b : string) : (EmptyString ++ b)%string = b.
Proof. reflexivity. Qed.

Lemma str_app_nil_r (s : string) : (s ++ EmptyString)%string = s.
Proof.
  induction s as [|c s IH]; [reflexivity|]. rewrite str_app_cons, IH. reflexivity.
Qed.

Lemma str_app_assoc (a b c : string) : ((a ++ b) ++ c)%string = (a ++ (b ++ c))%string.
Proof.
  induction a as [|x a IH]; [reflexivity|]. rewrite !str_app_cons, IH. reflexivity.
Qed.

Lemma str_length_app (a b : string) :
  String.length (a ++ b) = (String.length a + String.length b)%nat.
Proof.
  induction a as [|x a IH]; [reflexivity|]. rewrite str_app_cons. simpl.
  rewrite IH. reflexivity.
Qed.

Lemma str_drop_app (t s : string) : str_drop (String.length t) (t ++ s) = s.
Proof.
  induction t as [|c t IH]; [destruct s; reflexivity|].
  rewrite str_app_cons. simpl. exact IH.
Qed.

Lemma str_take_app (t s : string) : str_take (String.length t) (t ++ s) = t.
Proof.
  induction t as [|c t IH]; [destruct s; reflexivity|].
  rewrite str_app_cons. simpl. rewrite IH. reflexivity.
Qed.

Lemma all_chars_app (p : ascii -> bool) (a b : string) :
  all_chars p (a ++ b) = all_chars p a && all_chars p b.
Proof.
  induction a as [|x a IH]; [reflexivity|]. rewrite str_app_cons. simpl.
  rewrite IH, andb_assoc. reflexivity.
Qed.

Lemma all_chars_impl (p q : ascii -> bool) (s : string) :
  (forall c, p c = true -> q c = true) -> all_chars p s = true -> all_chars q s = true.
Proof.
  intros Hpq. induction s as [|c s IH]; simpl; [reflexivity|].
  intros Hs. apply andb_prop in Hs as [Hc Hs].
  rewrite (Hpq c Hc), IH by exact Hs. reflexivity.
Qed.

Lemma all_chars_list (p : ascii -> bool) (l : list ascii) :
  all_chars p (string_of_list_ascii l) = forallb p l.
Proof. induction l as [|c l IH]; simpl; [reflexivity | rewrite IH; reflexivity]. Qed.

Lemma all_chars_str_rev (p : ascii -> bool) (s : string) :
  all_chars p s = true -> all_chars p (str_rev s) = true.
Proof.
  intros Hs. unfold str_rev. rewrite all_chars_list. apply forallb_forall.
  intros c Hc. apply in_rev in Hc.
  rewrite <- (string_of_list_ascii_of_string s), all_chars_list in Hs.
  rewrite forallb_forall in Hs. apply Hs. exact Hc.
Qed.

Lemma list_ascii_app (a b : string) :
  list_ascii_of_string (a ++ b) = list_ascii_of_string a ++ list_ascii_of_string b.
Proof.
  induction a as [|x a IH]; [reflexivity|]. rewrite str_app_cons. simpl.
  rewrite IH. reflexivity.
Qed.

Lemma str_rev_involutive (s : string) : str_rev (str_rev s) = s.
Proof.
  unfold str_rev. rewrite list_ascii_of_string_of_list_ascii, rev_involutive.
  apply string_of_list_ascii_of_string.
Qed.

Lemma str_rev_snoc (s : string) (c : ascii) :
  str_rev (s ++ String c EmptyString) = String c (str_rev s).
Proof.
  unfold str_rev. rewrite list_ascii_app. simpl. rewrite rev_app_distr. reflexivity.
Qed.

Lemma str_rev_empty (s : string) : str_rev s = EmptyString -> s = EmptyString.
Proof.
  intros Hs. rewrite <- (str_rev_involutive s), Hs. reflexivity.
Qed.

(** A run of characters of a class ends where a character outside the
    class stands. *)
Lemma span_app_stop (p : ascii -> bool) (t s : string) :
  all_chars p t = true ->
  match s with
  | String c _ => p c = false
  | EmptyString => True
  end ->
  span p (t ++ s) = String.length t.
Proof.
  intros Ht Hs. induction t as [|c t IH].
  - rewrite str_app_nil_l. destruct s as [|c s]; [reflexivity|].
    simpl. rewrite Hs. reflexivity.
  - rewrite str_app_cons. simpl in *.
    apply andb_prop in Ht as [Hc Ht]. rewrite Hc, IH by exact Ht. reflexivity.
Qed.

Lemma span_0 (p : ascii -> bool) (s : string) :
  match s with
  | String c _ => p c = false
  | EmptyString => True
  end ->
  span p s = O.
Proof. destruct s as [|c s]; simpl; [reflexivity|]. intros ->. reflexivity. Qed.

Lemma word_not_space (c : ascii) : is_word c = true -> is_space c = false.
Proof. destruct c as [[] [] [] [] [] [] [] []]; vm_compute; congruence. Qed.

Lemma word_not_nl_eq (c : ascii) :
  is_word c = true -> negb (is_nl c) && negb (Ascii.eqb c "=") = true.
Proof. destruct c as [[] [] [] [] [] [] [] []]; vm_compute; congruence. Qed.

Lemma lstrip_unspaced (s : string) :
  match s with
  | String c _ => is_space c = false
  | EmptyString => True
  end ->
  lstrip s = s.
Proof.
  intros Hs. unfold lstrip. rewrite span_0 by exact Hs. destruct s; reflexivity.
Qed.

(** A name followed by a blank strips to the name. *)
Lemma strip_name (k : string) :
  k <> EmptyString -> all_chars is_word k = true ->
  strip (k ++ " ") = k.
Proof.
  intros Hne Hk. unfold strip.
  assert (Hfirst : forall s, s <> EmptyString -> all_chars is_word s = true ->
            match s with
            | String c _ => is_space c = false
            | EmptyString => True
            end).
  { intros [|c s] _ Hs; [exact I|]. simpl in Hs. apply andb_prop in Hs as [Hc _].
    apply word_not_space. exact Hc. }
  rewrite (lstrip_unspaced (k ++ " ")).
  - rewrite str_rev_snoc.
    replace (lstrip (String " " (str_rev k))) with (lstrip (str_rev k))
      by (unfold lstrip; cbn [span]; change (is_space " ") with true; reflexivity).
    rewrite lstrip_unspaced; [apply str_rev_involutive|].
    apply Hfirst; [|apply all_chars_str_rev; exact Hk].
    intros E. apply Hne, str_rev_empty. exact E.
  - destruct k as [|c k]; [congruence|]. rewrite str_app_cons. simpl in Hk.
    apply andb_prop in Hk as [Hc _]. apply word_not_space. exact Hc.
Qed.

Lemma strip_after_blank (v : string) : strip (String " " v) = strip v.
Proof.
  unfold strip.
  replace (lstrip (String " " v)) with (lstrip v); [reflexivity|].
  unfold lstrip. cbn [span]. change (is_space " ") with true. reflexivity.
Qed.

(** Splitting where the separator does not occur. *)
Lemma split_aux_nosep (sep : ascii) (t s : string) (cur : list ascii) :
  all_chars (fun c => negb (Ascii.eqb c sep)) t = true ->
  split_aux sep cur (t ++ s) = split_aux sep (rev (list_ascii_of_string t) ++ cur) s.
Proof.
  revert cur. induction t as [|c t IH]; intros cur Ht; [reflexivity|].
  rewrite str_app_cons. simpl in *.
  apply andb_prop in Ht as [Hc Ht]. apply negb_true_iff in Hc. rewrite Hc.
  rewrite IH by exact Ht. rewrite <- app_assoc. reflexivity.
Qed.

Lemma split_once (sep : ascii) (a b : string) :
  all_chars (fun c => negb (Ascii.eqb c sep)) a = true ->
  all_chars (fun c => negb (Ascii.eqb c sep)) b = true ->
  split sep (a ++ String sep b) = [a; b].
Proof.
  intros Ha Hb. unfold split. rewrite split_aux_nosep by exact Ha.
  cbn [split_aux]. rewrite Ascii.eqb_refl. rewrite app_nil_r, rev_involutive.
  rewrite string_of_list_ascii_of_string. f_equal.
  rewrite <- (str_app_nil_r b) at 1. rewrite split_aux_nosep by exact Hb.
  cbn [split_aux]. rewrite app_nil_r, rev_involutive.
  rewrite string_of_list_ascii_of_string. reflexivity.
Qed.

(** ** Logs made of well-formed fields *)

Lemma field_ok_parts (k v : string) :
  field_ok (k, v) = true ->
  k <> EmptyString /\ all_chars is_word k = true /\
  (exists c v', v = String c v' /\ is_space c = false) /\
  all_chars (fun c => negb (is_nl c)) v = true /\
  all_chars (fun c => negb (Ascii.eqb c "=")) v = true.
Proof.
  unfold field_ok. cbn [fst snd]. intros Hok.
  apply andb_prop in Hok as [Hok Hv]. apply andb_prop in Hok as [Hok Hfirst].
  apply andb_prop in Hok as [Hne Hk].
  split; [|split; [exact Hk|split; [|split]]].
  - intros ->. discriminate.
  - destruct v as [|c v']; [discriminate|]. exists c, v'. split; [reflexivity|].
    apply negb_true_iff. exact Hfirst.
  - eapply all_chars_impl; [|exact Hv]. intros c Hc. apply andb_prop in Hc. tauto.
  - eapply all_chars_impl; [|exact Hv]. intros c Hc. apply andb_prop in Hc. tauto.
Qed.

Lemma field_line_length (k v : string) :
  String.length (field_line (k, v)) = (String.length k + 3 + String.length v)%nat.
Proof.
  unfold field_line. cbn [fst snd]. rewrite str_length_app, str_length_app.
  simpl. lia.
Qed.

Lemma match_param_field (k v rest : string) :
  field_ok (k, v) = true ->
  match_param (field_line (k, v) ++ String nl rest)
  = Some (String.length (field_line (k, v))).
Proof.
  intros Hok. destruct (field_ok_parts k v Hok)
    as (Hne & Hk & (c & v' & -> & Hc) & Hnl & _).
  rewrite field_line_length.
  unfold field_line. cbn [fst snd].
  rewrite !str_app_assoc.
  change (" = " ++ ?x)%string with (String " " (String "=" (String " " x))).
  unfold match_param.
  rewrite (span_app_stop is_word k) by (exact Hk || reflexivity).
  destruct (String.length k) as [|n] eqn:Hlen;
    [destruct k; [congruence | discriminate]|].
  cbn [Nat.eqb]. rewrite <- Hlen. cbv zeta. rewrite str_drop_app.
  cbn [span]. change (is_space " ") with true. change (is_space "=") with false.
  cbv iota. cbn [str_drop]. cbn [span]. change (is_space " ") with true. cbv iota.
  rewrite str_app_cons. cbn [span]. rewrite Hc. cbn [str_drop].
  rewrite <- str_app_cons.
  rewrite (span_app_stop (fun c => negb (is_nl c)) (String c v'))
    by (exact Hnl || reflexivity).
  f_equal. simpl. lia.
Qed.

Lemma findall_skip (t s : string) :
  all_chars (fun c => negb (is_nl c)) t = true ->
  findall_aux false (String.length t) (t ++ s) = findall_aux false 0 s.
Proof.
  induction t as [|c t IH]; intros Ht; [reflexivity|].
  rewrite str_app_cons. simpl in *. apply andb_prop in Ht as [Hc Ht].
  apply negb_true_iff in Hc. rewrite Hc. apply IH. exact Ht.
Qed.

Lemma field_line_one_line (k v : string) :
  field_ok (k, v) = true ->
  all_chars (fun c => negb (is_nl c)) (field_line (k, v)) = true.
Proof.
  intros Hok. destruct (field_ok_parts k v Hok) as (_ & Hk & _ & Hnl & _).
  unfold field_line. cbn [fst snd]. rewrite !all_chars_app, Hnl, andb_true_r.
  eapply all_chars_impl; [|exact Hk]. intros c Hc.
  pose proof (word_not_nl_eq c Hc) as Hw. apply andb_prop in Hw. tauto.
Qed.

Lemma findall_field (k v rest : string) :
  field_ok (k, v) = true ->
  findall_aux true 0 (field_line (k, v) ++ String nl rest)
  = field_line (k, v) :: findall_aux true 0 rest.
Proof.
  intros Hok. pose proof (match_param_field k v rest Hok) as Hm.
  pose proof (field_line_one_line k v Hok) as Hnl.
  destruct (field_line (k, v)) as [|c0 L] eqn:HL.
  - exfalso. pose proof (field_line_length k v) as Hlen. rewrite HL in Hlen.
    simpl in Hlen. lia.
  - rewrite str_app_cons in *. cbn [findall_aux]. rewrite Hm.
    rewrite <- str_app_cons, str_take_app. f_equal.
    simpl in Hnl. apply andb_prop in Hnl as [Hc0 Hnl].
    apply negb_true_iff in Hc0. rewrite Hc0. cbn [String.length Nat.pred].
    rewrite findall_skip by exact Hnl. cbn [findall_aux].
    change (is_nl nl) with true. reflexivity.
Qed.

Lemma unlines_cons (l : string) (ls : list string) :
  unlines (l :: ls) = (l ++ String nl (unlines ls))%string.
Proof.
  unfold unlines. destruct ls as [|l2 ls]; [reflexivity|].
  cbn [map String.concat]. rewrite str_app_assoc. reflexivity.
Qed.

Lemma findall_params_fields (fields : list (string * string)) :
  forallb field_ok fields = true ->
  findall_params (unlines (map field_line fields)) = map field_line fields.
Proof.
  unfold findall_params. induction fields as [|[k v] fields IH]; intros Hok.
  - reflexivity.
  - cbn [forallb] in Hok. apply andb_prop in Hok as [Hkv Hok].
    cbn [map]. rewrite unlines_cons, findall_field by exact Hkv.
    rewrite IH by exact Hok. reflexivity.
Qed.

Lemma split_field (k v : string) :
  field_ok (k, v) = true ->
  map strip (split "=" (field_line (k, v))) = [k; strip v].
Proof.
  intros Hok. destruct (field_ok_parts k v Hok) as (Hne & Hk & _ & _ & Heq).
  unfold field_line. cbn [fst snd].
  change (k ++ " = " ++ v)%string with (k ++ (" " ++ String "=" (String " " v)))%string.
  rewrite <- str_app_assoc. rewrite split_once.
  - cbn [map]. rewrite strip_name by assumption. rewrite strip_after_blank.
    reflexivity.
  - rewrite all_chars_app. apply andb_true_intro. split; [|reflexivity].
    eapply all_chars_impl; [|exact Hk]. intros c Hc.
    pose proof (word_not_nl_eq c Hc) as Hw. apply andb_prop in Hw. tauto.
  - simpl. exact Heq.
Qed.

Section LogFields.
Context {F : Type}.
Variable py_int : string -> result Z.
Variable py_float : string -> result F.

Lemma raw_key_field (k v : string) :
  field_ok (k, v) = true -> raw_key (field_line (k, v)) = k.
Proof.
  intros Hok. pose proof (split_field k v Hok) as Hs. unfold raw_key.
  destruct (split "=" (field_line (k, v))) as [|a l]; [discriminate|].
  simpl in Hs. injection Hs as Ha _. exact Ha.
Qed.

Lemma set_param_field (p : gmap string (pyval F)) (k v : string) :
  field_ok (k, v) = true ->
  field_converts py_int py_float (k, v) = true ->
  exists x, set_param py_int py_float p (field_line (k, v)) = Ok (<[k := x]> p).
Proof.
  intros Hok Hconv. unfold set_param. rewrite (split_field k v Hok).
  unfold field_converts in Hconv. cbn [fst snd] in Hconv.
  destruct (PARAM_TRANS !! k) as [ty|]; [|discriminate].
  destruct (coerce py_int py_float ty (strip v)) as [x|e]; [|discriminate].
  exists x. reflexivity.
Qed.

Lemma set_params_fields (fields : list (string * string)) :
  forallb field_ok fields = true ->
  forallb (field_converts py_int py_float) fields = true ->
  forall p, exists p',
    set_params py_int py_float (map field_line fields) p = Ok p'.
Proof.
  induction fields as [|[k v] fields IH]; intros Hok Hconv p.
  - exists p. reflexivity.
  - cbn [forallb] in Hok, Hconv. apply andb_prop in Hok as [Hkv Hok].
    apply andb_prop in Hconv as [Hckv Hconv].
    destruct (set_param_field p k v Hkv Hckv) as (x & Hx).
    cbn [map set_params]. rewrite Hx.
    change (Ok ?a ≫= ?f) with (f a). cbv beta. apply IH; assumption.
Qed.

Lemma last_field (fields : list (string * string)) (k : string) :
  k ∈ fields.*1 ->
  exists before v after, fields = before ++ (k, v) :: after /\ k ∉ after.*1.
Proof.
  induction fields as [|[k0 v0] fields IH]; intros Hin.
  - apply elem_of_nil in Hin as [].
  - destruct (decide (k ∈ fields.*1)) as [Hlater|Hno].
    + destruct (IH Hlater) as (before & v & after & -> & Hafter).
      exists ((k0, v0) :: before), v, after. split; [reflexivity | exact Hafter].
    + cbn [fmap list_fmap fst] in Hin. apply elem_of_cons in Hin as [->|Hin];
        [|contradiction].
      exists [], v0, fields. split; [reflexivity | exact Hno].
Qed.

Lemma field_last_value (fields before after : list (string * string))
    (k v : string) (p' : gmap string (pyval F)) :
  forallb field_ok fields = true ->
  forallb (field_converts py_int py_float) fields = true ->
  set_params py_int py_float (map field_line fields) ∅ = Ok p' ->
  fields = before ++ (k, v) :: after -> k ∉ after.*1 ->
  exists ty x,
    PARAM_TRANS !! k = Some ty /\
    coerce py_int py_float ty (strip v) = Ok x /\ p' !! k = Some x.
Proof.
  intros Hok Hconv Hp -> Hafter.
  rewrite forallb_app in Hok, Hconv. cbn [forallb] in Hok, Hconv.
  apply andb_prop in Hok as [_ Hok]. apply andb_prop in Hok as [Hkv Hok].
  apply andb_prop in Hconv as [_ Hconv]. apply andb_prop in Hconv as [Hckv _].
  unfold field_converts in Hckv. cbn [fst snd] in Hckv.
  destruct (PARAM_TRANS !! k) as [ty|] eqn:Hty; [|discriminate].
  destruct (coerce py_int py_float ty (strip v)) as [x|e] eqn:Hx; [|discriminate].
  exists ty, x. split; [reflexivity|]. split; [exact Hx|].
  apply (set_params_values py_int py_float _ p' Hp).
  exists (map field_line before), (field_line (k, v)), (map field_line after),
    ty, (strip v).
  split; [rewrite map_app; reflexivity|].
  split; [apply split_field; exact Hkv|].
  split; [|split; assumption].
  apply Forall_forall. intros raw Hraw. apply list_elem_of_In in Hraw.
  apply in_map_iff in Hraw as ([k' v'] & <- & Hin).
  rewrite forallb_forall in Hok. rewrite raw_key_field by (apply Hok; exact Hin).
  intros ->. apply Hafter. apply list_elem_of_fmap. exists (k, v'). split; [reflexivity|].
  apply list_elem_of_In. exact Hin.
Qed.

End LogFields.

(** X24. A log that [from_log] accepts. Let the text after the marker be
    lines [name = value] only, each name a non-empty identifier, each
    value without a newline or an equals sign and starting with no blank,
    every name registered, every value accepted by the conversion of its
    name, every registered name present. Then [from_log] returns an
    experiment, and each name holds the converted value of its last
    line. *)
Theorem from_log_reads_fields {F : Type} (py_int : string -> result Z)
    (py_float : string -> result F) (logFile : string) (r : list string)
    (fields : list (string * string)) :
  seek_params (open_rt logFile) = Ok r ->
  read r = unlines (map field_line fields) ->
  forallb field_ok fields = true ->
  forallb (field_converts py_int py_float) fields = true ->
  dom PARAM_TRANS ⊆ list_to_set fields.*1 ->
  exists e,
    from_log py_int py_float logFile = Ok e /\
    forall before k v after,
      fields = before ++ (k, v) :: after -> k ∉ after.*1 ->
      exists ty x,
        PARAM_TRANS !! k = Some ty /\
        coerce py_int py_float ty (strip v) = Ok x /\
        exp_params e !! k = Some x.
Proof.
  intros Hseek Hread Hok Hconv Hall.
  destruct (set_params_fields py_int py_float fields Hok Hconv ∅) as (p' & Hp).
  assert (Hdom : dom p' = dom PARAM_TRANS).
  { apply set_eq. intros k. rewrite !elem_of_dom. split.
    - intros [x Hx].
      apply (set_params_values py_int py_float _ p' Hp) in Hx
        as (_ & _ & _ & ty & _ & _ & _ & _ & Hty & _).
      exists ty. exact Hty.
    - intros Hk. apply elem_of_dom in Hk. apply Hall in Hk.
      apply elem_of_list_to_set in Hk.
      destruct (last_field fields k Hk) as (before & v & after & Heq & Hafter).
      destruct (field_last_value py_int py_float fields before after k v p'
                  Hok Hconv Hp Heq Hafter) as (_ & x & _ & _ & Hx).
      exists x. exact Hx. }
  exists (mk_experiment p'). split.
  - unfold from_log. rewrite Hseek. change (Ok ?a ≫= ?f) with (f a). cbv beta zeta.
    rewrite Hread, (findall_params_fields fields Hok), Hp.
    change (Ok ?a ≫= ?f) with (f a). cbv beta.
    destruct (decide (dom p' = dom PARAM_TRANS)); [reflexivity | contradiction].
  - intros before k v after Heq Hafter.
    exact (field_last_value py_int py_float fields before after k v p'
             Hok Hconv Hp Heq Hafter).
Qed.

Lemma from_log_reads_fields_witness :
  exists e,
    from_log dec_int dec_float ex_log = Ok e /\
    forall before k v after,
      ex_fields = before ++ (k, v) :: after -> k ∉ after.*1 ->
      exists ty x,
        PARAM_TRANS !! k = Some ty /\
        coerce dec_int dec_float ty (strip v) = Ok x /\
        exp_params e !! k = Some x.
Proof.
  destruct (seek_params (open_rt ex_log)) as [r|err] eqn:Hr;
    [|exfalso; vm_compute in Hr; discriminate Hr].
  apply (from_log_reads_fields dec_int dec_float ex_log r ex_fields).
  - exact Hr.
  - vm_compute in Hr. injection Hr as <-. vm_compute. reflexivity.
  - vm_compute. reflexivity.
  - vm_compute. reflexivity.
  - apply (bool_decide_unpack _). vm_compute. exact I.
Defined.
